(** * Ratio Arena: the per-tick combat engine of [src/main.js]

    A shallow embedding of the simulation core of the arena battle
    (Warrior, Projectile, the frame function [update]) and the proofs of
    the properties stated about it.

    Numbers.  JavaScript numbers are modelled as real numbers: the
    arithmetic of the source is taken exactly, without rounding, NaN or
    infinities.  [Number.POSITIVE_INFINITY] in [findTarget] is the empty
    accumulator.  The properties proved of the engine are stated with
    the comparisons and assignments the code itself makes, or with a
    margin, so that they do not hinge on the last digit of a result.
    Where the last digit decides, as for the boundary clamp, the
    function is modelled a second time in binary64
    ([clampInsideArena_f64]) and evaluated there.

    Objects.  A warrior is identified by its index in the [warriors]
    array (the array keeps its length during a frame; it is only
    replaced by its filtered copy at the end of it), so [enemy === this]
    is an equality of indices and a mutation of an object is an update
    of the list at its index.

    Left out: canvas drawing, the DOM counters and status pill, and
    audio.  None of them is read back by the simulation.  The hit
    sparkles, which the simulation does not read back either, are
    modelled on their own. *)

From Stdlib Require Import Floats.PrimFloat Floats.FloatOps Floats.SpecFloat.
From Stdlib Require Import Reals Lra Lia List ZArith Bool.
From stdpp Require Import base list.
Import ListNotations.

Open Scope R_scope.

(** ** Comparisons of numbers as booleans *)

Definition Rltb (a b : R) : bool := if Rlt_dec a b then true else false.
Definition Rleb (a b : R) : bool := if Rle_dec a b then true else false.
Definition Rgtb (a b : R) : bool := Rltb b a.
Definition Rgeb (a b : R) : bool := Rleb b a.
Definition Reqb (a b : R) : bool := if Req_dec_T a b then true else false.

(** [v || d] on numbers: [0] is the only falsy real. *)
Definition num_or (v d : R) : R := if Reqb v 0 then d else v.

(** [Math.hypot], [Math.sign], [Math.atan2]. *)
Definition hypot (a b : R) : R := sqrt (a * a + b * b).

Definition sign (a : R) : R :=
  if Rgtb a 0 then 1 else if Rltb a 0 then -1 else 0.

Definition atan2 (y x : R) : R :=
  if Rgtb x 0 then atan (y / x)
  else if Rltb x 0 then
    (if Rgeb y 0 then atan (y / x) + PI else atan (y / x) - PI)
  else if Rgtb y 0 then PI / 2
  else if Rltb y 0 then - (PI / 2)
  else 0.

(** ** The archetype table [TYPE_CONFIG] (main.js 41-73) *)

Inductive WType : Type := circle | square | triangle.

#[global] Instance WType_eq_dec : EqDecision WType.
Proof. solve_decision. Defined.

Record Band : Type := mkBand { pmin : R; pmax : R }.

Record Config : Type := mkConfig {
  speed : R;
  maxhp : R;
  damage : R;
  range : R;
  cfg_cooldown : R;
  size : R;
  preferred : option Band
}.

Definition TYPE_CONFIG (t : WType) : Config :=
  match t with
  | circle =>
      {| speed := 140; maxhp := 55; damage := 9; range := 18;
         cfg_cooldown := 55 / 100; size := 10; preferred := None |}
  | square =>
      {| speed := 91; maxhp := 130; damage := 18; range := 22;
         cfg_cooldown := 12 / 10; size := 16; preferred := None |}
  | triangle =>
      {| speed := 90; maxhp := 85; damage := 7; range := 60;
         cfg_cooldown := 8 / 10; size := 14;
         preferred := Some {| pmin := 40; pmax := 55 |} |}
  end.

(** ** Warriors and projectiles

    The fields of the two classes, as their constructors set them
    (main.js 93-107 and 343-358). *)

Record Warrior : Type := mkWarrior {
  w_type : WType;
  w_x : R;
  w_y : R;
  w_hp : R;
  w_cooldown : R;
  w_alive : bool;
  w_heading : R;
  w_evadeDirection : R;
  w_evadeTimer : R;
  w_lastHitDirX : R;
  w_lastHitDirY : R;
  w_wantRetreat : R
}.

(** [this.config] is [TYPE_CONFIG[type]], set once by the constructor. *)
Definition w_config (w : Warrior) : Config := TYPE_CONFIG (w_type w).

Record Projectile : Type := mkProjectile {
  p_ownerType : WType;
  p_damage : R;
  p_x : R;
  p_y : R;
  p_vx : R;
  p_vy : R;
  p_life : R;
  p_maxLife : R;
  p_alive : bool;
  p_radius : R
}.

(** Field assignments ([this.f = v]). *)

Definition set_pos (x y : R) (w : Warrior) : Warrior :=
  mkWarrior (w_type w) x y (w_hp w) (w_cooldown w) (w_alive w) (w_heading w)
    (w_evadeDirection w) (w_evadeTimer w) (w_lastHitDirX w) (w_lastHitDirY w)
    (w_wantRetreat w).

Definition set_hp (hp : R) (w : Warrior) : Warrior :=
  mkWarrior (w_type w) (w_x w) (w_y w) hp (w_cooldown w) (w_alive w)
    (w_heading w) (w_evadeDirection w) (w_evadeTimer w) (w_lastHitDirX w)
    (w_lastHitDirY w) (w_wantRetreat w).

Definition set_cooldown (c : R) (w : Warrior) : Warrior :=
  mkWarrior (w_type w) (w_x w) (w_y w) (w_hp w) c (w_alive w) (w_heading w)
    (w_evadeDirection w) (w_evadeTimer w) (w_lastHitDirX w) (w_lastHitDirY w)
    (w_wantRetreat w).

Definition set_alive (b : bool) (w : Warrior) : Warrior :=
  mkWarrior (w_type w) (w_x w) (w_y w) (w_hp w) (w_cooldown w) b (w_heading w)
    (w_evadeDirection w) (w_evadeTimer w) (w_lastHitDirX w) (w_lastHitDirY w)
    (w_wantRetreat w).

Definition set_heading (h : R) (w : Warrior) : Warrior :=
  mkWarrior (w_type w) (w_x w) (w_y w) (w_hp w) (w_cooldown w) (w_alive w) h
    (w_evadeDirection w) (w_evadeTimer w) (w_lastHitDirX w) (w_lastHitDirY w)
    (w_wantRetreat w).

Definition set_lastHitDir (hx hy : R) (w : Warrior) : Warrior :=
  mkWarrior (w_type w) (w_x w) (w_y w) (w_hp w) (w_cooldown w) (w_alive w)
    (w_heading w) (w_evadeDirection w) (w_evadeTimer w) hx hy
    (w_wantRetreat w).

Definition set_wantRetreat (r : R) (w : Warrior) : Warrior :=
  mkWarrior (w_type w) (w_x w) (w_y w) (w_hp w) (w_cooldown w) (w_alive w)
    (w_heading w) (w_evadeDirection w) (w_evadeTimer w) (w_lastHitDirX w)
    (w_lastHitDirY w) r.

Definition set_p_alive (b : bool) (p : Projectile) : Projectile :=
  mkProjectile (p_ownerType p) (p_damage p) (p_x p) (p_y p) (p_vx p) (p_vy p)
    (p_life p) (p_maxLife p) b (p_radius p).

Definition set_p_life (l : R) (p : Projectile) : Projectile :=
  mkProjectile (p_ownerType p) (p_damage p) (p_x p) (p_y p) (p_vx p) (p_vy p)
    l (p_maxLife p) (p_alive p) (p_radius p).

Definition set_p_pos (x y : R) (p : Projectile) : Projectile :=
  mkProjectile (p_ownerType p) (p_damage p) x y (p_vx p) (p_vy p)
    (p_life p) (p_maxLife p) (p_alive p) (p_radius p).

(** [new Warrior(type, x, y)]; the random initial heading is an argument. *)
Definition new_Warrior (type : WType) (x y heading : R) : Warrior :=
  {| w_type := type; w_x := x; w_y := y; w_hp := maxhp (TYPE_CONFIG type);
     w_cooldown := 0; w_alive := true; w_heading := heading;
     w_evadeDirection := 0; w_evadeTimer := 0;
     w_lastHitDirX := 0; w_lastHitDirY := 0; w_wantRetreat := 0 |}.

(** [new Projectile(owner, target)]. *)
Definition new_Projectile (owner target : Warrior) : Projectile :=
  let dx := w_x target - w_x owner in
  let dy := w_y target - w_y owner in
  let dist := num_or (hypot dx dy) 1 in
  let speed := 260 in
  {| p_ownerType := w_type owner; p_damage := damage (w_config owner);
     p_x := w_x owner; p_y := w_y owner;
     p_vx := (dx / dist) * speed; p_vy := (dy / dist) * speed;
     p_life := 0; p_maxLife := 35 / 10; p_alive := true; p_radius := 4 |}.

(** The two arrays a frame works on. *)
Record World : Type := mkWorld {
  warriors : list Warrior;
  projectiles : list Projectile
}.

(** A method that assigns to fields of [warriors[i]]: the object is
    changed in place, whoever else holds it. *)
Definition mutate (i : nat) (f : Warrior -> Warrior) (wd : World) : World :=
  {| warriors := alter f i (warriors wd); projectiles := projectiles wd |}.

(** [for (const v of arr)] with the position of [v] at hand. *)
Fixpoint ifold {A B : Type} (f : B -> nat -> A -> B) (k : nat) (l : list A)
    (b : B) : B :=
  match l with
  | [] => b
  | a :: rest => ifold f (S k) rest (f b k a)
  end.

(** [while (angleDiff > Math.PI) angleDiff -= Math.PI * 2] and its mirror
    image, with the number of iterations bounded by [wrap_fuel]. *)
Fixpoint wrap_down (fuel : nat) (a : R) : R :=
  match fuel with
  | O => a
  | S f => if Rgtb a PI then wrap_down f (a - PI * 2) else a
  end.

Fixpoint wrap_up (fuel : nat) (a : R) : R :=
  match fuel with
  | O => a
  | S f => if Rltb a (- PI) then wrap_up f (a + PI * 2) else a
  end.

Definition wrap_fuel (a : R) : nat := Z.to_nat (up (Rabs a / (PI * 2))).

Definition normalize_angle (a : R) : R :=
  let a1 := wrap_down (wrap_fuel a) a in
  wrap_up (wrap_fuel a1) a1.

(** ** Warrior methods (main.js 109-340) *)

Definition distanceTo (self other : Warrior) : R :=
  hypot (w_x other - w_x self) (w_y other - w_y self).

(** [findTarget] (main.js 115-129).  The loop state: [None] is
    [closest = null] with [distance = +Infinity]; otherwise the closest
    enemy so far, its index and its distance. *)
Definition findTarget_step (i : nat) (self : Warrior)
    (acc : option (nat * Warrior * R)) (k : nat) (enemy : Warrior)
    : option (nat * Warrior * R) :=
  if (k =? i)%nat || negb (w_alive enemy)
     || bool_decide (w_type enemy = w_type self)
  then acc
  else
    let d := distanceTo self enemy in
    match acc with
    | None => Some (k, enemy, d)
    | Some (_, _, distance) =>
        if Rltb d distance then Some (k, enemy, d) else acc
    end.

Definition findTarget (i : nat) (self : Warrior) (candidates : list Warrior)
    : option (nat * Warrior) :=
  fst <$> ifold (findTarget_step i self) 0 candidates None.

(** [takeDamage] (main.js 131-137). *)
Definition takeDamage (amount : R) (w : Warrior) : Warrior :=
  let w1 := set_hp (w_hp w - amount) w in
  if Rleb (w_hp w1) 0 then set_alive false w1 else w1.

(** [fireProjectile] (main.js 392-394). *)
Definition fireProjectile (shooter target : Warrior) (wd : World) : World :=
  {| warriors := warriors wd;
     projectiles := projectiles wd ++ [new_Projectile shooter target] |}.

(** The two evasion loops of a triangle (main.js 233-263). *)
Definition evadeRadius : R := 50.

Definition evade_enemy_step (i : nat) (self : Warrior) (acc : R * R)
    (k : nat) (enemy : Warrior) : R * R :=
  if negb (w_alive enemy) || bool_decide (w_type enemy = w_type self)
     || (k =? i)%nat
  then acc
  else
    let enemyDx := w_x enemy - w_x self in
    let enemyDy := w_y enemy - w_y self in
    let enemyDist := hypot enemyDx enemyDy in
    if Rltb enemyDist evadeRadius && Rgtb enemyDist 0 then
      let evadeStrength := (evadeRadius - enemyDist) / evadeRadius in
      (fst acc - (enemyDx / enemyDist) * evadeStrength,
       snd acc - (enemyDy / enemyDist) * evadeStrength)
    else acc.

Definition evade_projectile_step (self : Warrior) (acc : R * R)
    (projectile : Projectile) : R * R :=
  if negb (p_alive projectile)
     || bool_decide (p_ownerType projectile = w_type self)
  then acc
  else
    let projDx := p_x projectile - w_x self in
    let projDy := p_y projectile - w_y self in
    let projDist := hypot projDx projDy in
    if Rltb projDist evadeRadius && Rgtb projDist 0 then
      let evadeStrength := (evadeRadius - projDist) / evadeRadius in
      (fst acc - (projDx / projDist) * evadeStrength * (15 / 10),
       snd acc - (projDy / projDist) * evadeStrength * (15 / 10))
    else acc.

(** The evasion vector of a triangle: enemies first, then projectiles. *)
Definition evade_vector (i : nat) (self : Warrior) (wd : World) : R * R :=
  fold_left (evade_projectile_step self) (projectiles wd)
    (ifold (evade_enemy_step i self) 0 (warriors wd) (0, 0)).

(** [this.config.preferred]; only triangles carry one and only the
    triangle branches read it. *)
Definition pref_band (c : Config) : Band :=
  match preferred c with
  | Some b => b
  | None => {| pmin := 0; pmax := 0 |}
  end.

(** The frame-level state: the two arrays and the globals [running],
    [lastTimestamp] and [winnerType] (main.js 75-81). *)
Record State : Type := mkState {
  st_world : World;
  running : bool;
  lastTimestamp : R;
  winnerType : option WType
}.

(** [aliveCounts], keyed by type, as [updateStats] fills it
    (main.js 637-643). *)
Definition Counts : Type := WType -> nat.

Definition updateStats (ws : list Warrior) : Counts :=
  fun t =>
    length (filter (fun w => w_alive w = true /\ w_type w = t) ws).

(** [Object.entries(aliveCounts).filter(([, count]) => count > 0)]. *)
Definition livingTypes (aliveCounts : Counts) : list WType :=
  filter (fun t => (0 < aliveCounts t)%nat) [circle; square; triangle].

(** [determineVictor] (main.js 670-684): the returned boolean and the
    new [winnerType]. *)
Definition determineVictor (aliveCounts : Counts) (winner : option WType)
    : bool * option WType :=
  let living := livingTypes aliveCounts in
  if (length living <=? 1)%nat then
    match living with
    | [] => (true, None)
    | type :: _ => (true, Some type)
    end
  else (false, winner).

Section Arena.

(** The canvas element is the host's; its size fixes the arena
    (main.js 38-39). *)
Variables canvas_width canvas_height : R.

Definition CENTER_x : R := canvas_width / 2.
Definition CENTER_y : R := canvas_height / 2.
Definition ARENA_RADIUS : R := Rmin canvas_width canvas_height / 2 - 40.

(** [clampInsideArena] (main.js 139-149). *)
Definition clampInsideArena (w : Warrior) : Warrior :=
  let dx := w_x w - CENTER_x in
  let dy := w_y w - CENTER_y in
  let dist := hypot dx dy in
  let maxDist := ARENA_RADIUS - size (w_config w) in
  if Rgtb dist maxDist then
    let scale := maxDist / dist in
    set_pos (CENTER_x + dx * scale) (CENTER_y + dy * scale) w
  else w.

(** What a landed melee hit does to the attacker (main.js 170-182). *)
Definition after_melee_hit (target : Warrior) (self : Warrior) : Warrior :=
  let self1 := set_cooldown (cfg_cooldown (w_config self)) self in
  if bool_decide (w_type self = circle) then
    let attackDx := w_x target - w_x self in
    let attackDy := w_y target - w_y self in
    let attackDist := num_or (hypot attackDx attackDy) 1 in
    set_wantRetreat
      (if bool_decide (w_type target = square) then 8 / 10 else 4 / 10)
      (set_lastHitDir (attackDx / attackDist) (attackDy / attackDist) self1)
  else self1.

(** [this.attemptAttack(target)] (main.js 151-184), [this] being
    [warriors[i]] and [target] being [warriors[j]] ([None] for [null]). *)
Definition attemptAttack (i : nat) (tgt : option nat) (wd : World) : World :=
  match warriors wd !! i, tgt ≫= (fun j => pair j <$> warriors wd !! j) with
  | Some self, Some (j, target) =>
      if negb (w_alive target) || Rgtb (w_cooldown self) 0 then wd
      else
        let distance := distanceTo self target in
        if bool_decide (w_type self = triangle) then
          if Rleb distance (range (w_config self)) then
            mutate i (set_cooldown (cfg_cooldown (w_config self)))
              (fireProjectile self target wd)
          else wd
        else
          let minDistance := size (w_config self) + size (w_config target) in
          let meleeReach := Rmax (range (w_config self)) minDistance in
          if Rleb distance meleeReach then
            mutate i (after_melee_hit target)
              (mutate j (takeDamage (damage (w_config self))) wd)
          else wd
  | _, _ => wd
  end.

(** The cooldown and retreat-timer decay at the head of [update]
    (main.js 191-195). *)
Definition decay_timers (dt : R) (w : Warrior) : Warrior :=
  let w1 := set_cooldown (Rmax 0 (w_cooldown w - dt)) w in
  if Rgtb (w_wantRetreat w1) 0
  then set_wantRetreat (Rmax 0 (w_wantRetreat w1 - dt)) w1
  else w1.

(** [shouldMove] (main.js 208-225). *)
Definition shouldMove (self target : Warrior) (dist : R) : bool :=
  let attackRange :=
    if bool_decide (w_type self = triangle) then range (w_config self)
    else 0 in
  let minDistance := size (w_config self) + size (w_config target) in
  if bool_decide (w_type self = triangle) then
    let pref := pref_band (w_config self) in
    let threatRadius := pmin pref * (14 / 10) in
    Rltb dist threatRadius || Rgtb dist attackRange
  else
    if bool_decide (w_type self = circle) && Rgtb (w_wantRetreat self) 0
    then true
    else Rgtb dist minDistance.

(** The triangle's direction (main.js 231-290): base movement, then
    the evasion blend. *)
Definition triangle_direction (i : nat) (self : Warrior) (wd : World)
    (dx dy dist : R) (move : bool) : R * R :=
  let '(evadeX, evadeY) := evade_vector i self wd in
  let pref := pref_band (w_config self) in
  let '(dirX, dirY) :=
    if Rltb dist (pmin pref) then (- dx / dist, - dy / dist)
    else if Rleb dist (pmax pref) && move then (- (dy / dist), dx / dist)
    else (dx / dist, dy / dist) in
  if Rgtb (Rabs evadeX) (1 / 10) || Rgtb (Rabs evadeY) (1 / 10) then
    let evadeMag := hypot evadeX evadeY in
    let evadeX := evadeX / evadeMag in
    let evadeY := evadeY / evadeMag in
    let dirX := dirX * (3 / 10) + evadeX * (7 / 10) in
    let dirY := dirY * (3 / 10) + evadeY * (7 / 10) in
    let blendMag := hypot dirX dirY in
    if Rgtb blendMag 0 then (dirX / blendMag, dirY / blendMag)
    else (dirX, dirY)
  else (dirX, dirY).

(** The circle's stick-and-move direction during a retreat window
    (main.js 296-309). *)
Definition retreat_direction (self : Warrior) : R * R :=
  let backX := - w_lastHitDirX self in
  let backY := - w_lastHitDirY self in
  let sideX := - w_lastHitDirY self in
  let sideY := w_lastHitDirX self in
  let dirX := backX * (6 / 10) + sideX * (4 / 10) in
  let dirY := backY * (6 / 10) + sideY * (4 / 10) in
  let mag := num_or (hypot dirX dirY) 1 in
  (dirX / mag, dirY / mag).

(** The movement direction chosen by [update]. *)
Definition direction (i : nat) (self : Warrior) (wd : World)
    (dx dy dist : R) (move : bool) : R * R :=
  let dir :=
    if bool_decide (w_type self = triangle)
    then triangle_direction i self wd dx dy dist move
    else (dx / dist, dy / dist) in
  if bool_decide (w_type self = circle) && Rgtb (w_wantRetreat self) 0
  then retreat_direction self
  else dir.

(** Heading (main.js 313-328): smoothed for triangles, snapped for the
    others. *)
Definition turn (dt : R) (self : Warrior) (desiredHeading : R) : R :=
  if bool_decide (w_type self = triangle) then
    let angleDiff := normalize_angle (desiredHeading - w_heading self) in
    let turnSpeed := 3 in
    let maxTurn := turnSpeed * dt in
    if Rgtb (Rabs angleDiff) maxTurn
    then w_heading self + sign angleDiff * maxTurn
    else desiredHeading
  else desiredHeading.

(** The part of [update] between target selection and the attack
    (main.js 201-336): heading and movement of [this] towards or around
    [target]. *)
Definition steer (dt : R) (i : nat) (self target : Warrior) (wd : World)
    : Warrior :=
  let dx := w_x target - w_x self in
  let dy := w_y target - w_y self in
  let dist := num_or (hypot dx dy) 1 in
  let move := shouldMove self target dist in
  let '(dirX, dirY) := direction i self wd dx dy dist move in
  let desiredHeading := atan2 dirY dirX in
  let self1 := set_heading (turn dt self desiredHeading) self in
  if move then
    let speed := speed (w_config self) * dt in
    clampInsideArena
      (set_pos (w_x self1 + dirX * speed) (w_y self1 + dirY * speed) self1)
  else self1.

(** [warriors[i].update(dt, warriors)] (main.js 186-339). *)
Definition Warrior_update (dt : R) (i : nat) (wd : World) : World :=
  match warriors wd !! i with
  | None => wd
  | Some this =>
      if negb (w_alive this) then wd
      else
        let wd1 := mutate i (decay_timers dt) wd in
        match findTarget i (decay_timers dt this) (warriors wd1) with
        | None => wd1
        | Some (j, target) =>
            attemptAttack i (Some j)
              (mutate i (fun self => steer dt i self target wd1) wd1)
        end
  end.

(** [randomPoint()] (main.js 396-403), the spawn position of every
    seeded warrior; the two draws of [Math.random()] are arguments.
    [x ** 0.5] is the square root. *)
Definition randomPoint (draw1 draw2 : R) : R * R :=
  let theta := draw1 * PI * 2 in
  let radius := sqrt draw2 * (ARENA_RADIUS - 50) in
  (CENTER_x + cos theta * radius, CENTER_y + sin theta * radius).

(** ** Projectile.update (main.js 360-389) *)

(** The collision loop: the first living enemy within reach takes the
    damage and ends the loop.  [None]: nobody was hit. *)
Fixpoint collide (p : Projectile) (ws : list Warrior)
    : option (list Warrior) :=
  match ws with
  | [] => None
  | enemy :: rest =>
      if negb (w_alive enemy) || bool_decide (w_type enemy = p_ownerType p)
      then cons enemy <$> collide p rest
      else
        let dist := hypot (w_x enemy - p_x p) (w_y enemy - p_y p) in
        if Rleb dist (size (w_config enemy) + p_radius p)
        then Some (takeDamage (p_damage p) enemy :: rest)
        else cons enemy <$> collide p rest
  end.

Definition Projectile_update (dt : R) (p : Projectile) (ws : list Warrior)
    : Projectile * list Warrior :=
  let p1 := set_p_life (p_life p + dt) p in
  if Rgeb (p_life p1) (p_maxLife p1) then (set_p_alive false p1, ws)
  else
    let p2 := set_p_pos (p_x p1 + p_vx p1 * dt) (p_y p1 + p_vy p1 * dt) p1 in
    let dx := p_x p2 - CENTER_x in
    let dy := p_y p2 - CENTER_y in
    let p3 :=
      if Rgeb (hypot dx dy) ARENA_RADIUS then set_p_alive false p2 else p2 in
    match collide p3 ws with
    | Some ws' => (set_p_alive false p3, ws')
    | None => (p3, ws)
    end.

(** ** The frame (main.js 705-734) *)

(** [for (const warrior of warriors) warrior.update(delta, warriors)]. *)
Definition warriors_loop (dt : R) (wd : World) : World :=
  fold_left (fun wd i => Warrior_update dt i wd)
    (seq 0 (length (warriors wd))) wd.

(** [projectiles.forEach((projectile) => projectile.update(delta))]. *)
Fixpoint projectiles_forEach (dt : R) (ps : list Projectile)
    (ws : list Warrior) : list Projectile * list Warrior :=
  match ps with
  | [] => ([], ws)
  | p :: rest =>
      let '(p', ws1) := Projectile_update dt p ws in
      let '(rest', ws2) := projectiles_forEach dt rest ws1 in
      (p' :: rest', ws2)
  end.

(** The two update phases of a frame, before the dead are dropped. *)
Definition simulate (dt : R) (wd : World) : World :=
  let wd1 := warriors_loop dt wd in
  let '(ps, ws) := projectiles_forEach dt (projectiles wd1) (warriors wd1) in
  {| warriors := ws; projectiles := ps |}.

(** The two [filter] calls. *)
Definition prune (wd : World) : World :=
  {| warriors := filter (fun w => w_alive w = true) (warriors wd);
     projectiles := filter (fun p => p_alive p = true) (projectiles wd) |}.

(** [update(timestamp)], the frame callback.  [stopAnimation] clears
    [running] when [determineVictor] returns true. *)
Definition update (timestamp : R) (s : State) : State :=
  if negb (running s) then s
  else
    let delta := num_or ((timestamp - lastTimestamp s) / 1000) 0 in
    let wd := prune (simulate delta (st_world s)) in
    let aliveCounts := updateStats (warriors wd) in
    let '(over, winner) := determineVictor aliveCounts (winnerType s) in
    {| st_world := wd;
       running := negb over;
       lastTimestamp := timestamp;
       winnerType := winner |}.

(** ** Seeding a battle (main.js 405-432, 754-768) *)

(** [isPositionValid] (main.js 405-414). *)
Fixpoint isPositionValid (x y : R) (existingWarriors : list Warrior)
    (minDistance : R) : bool :=
  match existingWarriors with
  | [] => true
  | warrior :: rest =>
      let dx := w_x warrior - x in
      let dy := w_y warrior - y in
      if Rltb (hypot dx dy) minDistance then false
      else isPositionValid x y rest minDistance
  end.

(** The source of [Math.random()]: the draws in the order they are
    made, read at a cursor that each call advances by one. *)
Definition Draws : Type := nat -> R.

(** The [do ... while] of [seedWarriors] (main.js 423-428): draw a
    point, and draw again while it is too close to a warrior already
    placed and fewer than 100 attempts were made.  [left] is
    [100 - attempts] after the attempt at hand; the result is the point
    kept and the cursor after it. *)
Fixpoint place (rng : Draws) (existing : list Warrior) (left : nat)
    (n : nat) : (R * R) * nat :=
  let point := randomPoint (rng n) (rng (S n)) in
  match left with
  | O => (point, S (S n))
  | S left' =>
      if isPositionValid (fst point) (snd point) existing 25
      then (point, S (S n))
      else place rng existing left' (S (S n))
  end.

(** The inner [for] loop of [seedWarriors] for one type; the
    constructor draws the heading. *)
Fixpoint seed_type (rng : Draws) (type : WType) (amount : nat)
    (ws : list Warrior) (n : nat) : list Warrior * nat :=
  match amount with
  | O => (ws, n)
  | S amount' =>
      let '(point, n1) := place rng ws 99 n in
      let w := new_Warrior type (fst point) (snd point) (rng n1 * PI * 2) in
      seed_type rng type amount' (ws ++ [w]) (S n1)
  end.

(** [seedWarriors(counts)] (main.js 416-432): both arrays are emptied,
    then the types are seeded in the order of [Object.keys(TYPE_CONFIG)].
    The counts are the non-negative integers [collectCounts] makes. *)
Definition seedWarriors (counts : Counts) (rng : Draws) (n : nat)
    : World * nat :=
  let '(ws, n') :=
    fold_left (fun '(ws, n) type => seed_type rng type (counts type) ws n)
      [circle; square; triangle] ([], n) in
  ({| warriors := ws; projectiles := [] |}, n').

(** [startBattle] (main.js 754-768); [now] is [performance.now()].
    [winnerType] is not touched. *)
Definition startBattle (counts : Counts) (rng : Draws) (n : nat) (now : R)
    (s : State) : State :=
  {| st_world := fst (seedWarriors counts rng n);
     running := true;
     lastTimestamp := now;
     winnerType := winnerType s |}.

(** ** Hit sparkles (main.js 524-540) and the health bar (main.js 615)

    They are drawn from the state and never read back by the engine. *)

Record HitEffect : Type := mkHitEffect {
  fx_x : R;
  fx_y : R;
  fx_life : R;
  fx_maxLife : R;
  fx_size : R;
  fx_rotation : R
}.

(** [spawnHitEffect(x, y)], with its three draws. *)
Definition spawnHitEffect (x y : R) (draw1 draw2 draw3 : R)
    (hitEffects : list HitEffect) : list HitEffect :=
  hitEffects ++
    [{| fx_x := x; fx_y := y; fx_life := 0;
        fx_maxLife := 25 / 100 + draw1 * (1 / 10);
        fx_size := 12 + draw2 * 8;
        fx_rotation := draw3 * PI |}].

(** [updateHitEffects(dt)]. *)
Definition updateHitEffects (dt : R) (hitEffects : list HitEffect)
    : list HitEffect :=
  filter (fun fx => Rltb (fx_life fx) (fx_maxLife fx) = true)
    (map (fun fx =>
            mkHitEffect (fx_x fx) (fx_y fx) (fx_life fx + dt) (fx_maxLife fx)
              (fx_size fx) (fx_rotation fx))
       hitEffects).

(** The opacity [drawHitEffects] gives a sparkle (main.js 549-550). *)
Definition fx_alpha (fx : HitEffect) : R := 1 - fx_life fx / fx_maxLife fx.

(** [hpRatio] of [drawWarrior]: the filled share of the health bar. *)
Definition hpRatio (w : Warrior) : R :=
  Rmax 0 (w_hp w / maxhp (w_config w)).

(** The frames of a battle: the host calls [update] with one timestamp
    after the other (main.js 733, 765). *)
Definition frames (timestamps : list R) (s : State) : State :=
  fold_left (fun s timestamp => update timestamp s) timestamps s.

(** ** The boundary clamp in double precision

    The numbers of the source are IEEE 754 binary64.  [Math.hypot] is
    implementation-approximated, so the clamp is parametrised by it;
    [hypot_f64] is its direct evaluation. *)

Definition hypot_f64 (a b : float) : float :=
  PrimFloat.sqrt (a * a + b * b)%float.

(** [clampInsideArena] (main.js 139-149) on binary64, for a warrior at
    [(x, y)] of body radius [size] in the arena of centre [(cx, cy)]
    and radius [radius]: the new position. *)
Definition clampInsideArena_f64 (Math_hypot : float -> float -> float)
    (cx cy radius size x y : float) : float * float :=
  let dx := (x - cx)%float in
  let dy := (y - cy)%float in
  let dist := Math_hypot dx dy in
  let limit := (radius - size)%float in
  if (limit <? dist)%float then
    let scale := (limit / dist)%float in
    ((cx + dx * scale)%float, (cy + dy * scale)%float)
  else (x, y).

(** The real number a finite binary64 value stands for, as a fraction
    of two integers. *)
Definition numerator (f : float) : Z :=
  match Prim2SF f with
  | S754_finite s m e =>
      let m := if s then Z.neg m else Z.pos m in
      if (0 <=? e)%Z then (m * 2 ^ e)%Z else m
  | _ => 0%Z
  end.

Definition denominator (f : float) : Z :=
  match Prim2SF f with
  | S754_finite s m e => if (0 <=? e)%Z then 1%Z else (2 ^ (- e))%Z
  | _ => 1%Z
  end.

Definition F2R (f : float) : R := IZR (numerator f) / IZR (denominator f).

(** ** The vocabulary of the properties *)

(** The liveness invariant of a warrior. *)
Definition alive_iff_hp (w : Warrior) : Prop :=
  w_alive w = true <-> 0 < w_hp w.

(** A dead warrior is left exactly as it is. *)
Definition frozen_if_dead (w w' : Warrior) : Prop :=
  w_alive w = false -> w' = w.

(** The test the collision loop applies to each warrior. *)
Definition hittable (p : Projectile) (enemy : Warrior) : bool :=
  w_alive enemy
  && negb (bool_decide (w_type enemy = p_ownerType p))
  && Rleb (hypot (w_x enemy - p_x p) (w_y enemy - p_y p))
       (size (w_config enemy) + p_radius p).

(** The limit circle of a warrior and the arena circle of a projectile. *)
Definition inside_arena (w : Warrior) : Prop :=
  hypot (w_x w - CENTER_x) (w_y w - CENTER_y)
    <= ARENA_RADIUS - size (w_config w).

(** The centre of a warrior is strictly inside the arena circle. *)
Definition within_circle (w : Warrior) : Prop :=
  hypot (w_x w - CENTER_x) (w_y w - CENTER_y) < ARENA_RADIUS.

Definition projectile_inside (p : Projectile) : Prop :=
  hypot (p_x p - CENTER_x) (p_y p - CENTER_y) < ARENA_RADIUS.

(** A projectile aged and moved by one update. *)
Definition moved (dt : R) (p : Projectile) : Projectile :=
  set_p_pos (p_x p + p_vx p * dt) (p_y p + p_vy p * dt)
    (set_p_life (p_life p + dt) p).

(** Cooldown and retreat timer are not negative. *)
Definition timers_ok (w : Warrior) : Prop :=
  0 <= w_cooldown w /\ 0 <= w_wantRetreat w.

(** At most one type has a living member. *)
Definition terminal (s : State) : Prop :=
  (length (livingTypes (updateStats (warriors (st_world s)))) <= 1)%nat.

(** What [findTarget] passes over: [this] itself, the dead, its own type. *)
Definition skipped (i : nat) (self : Warrior) (k : nat) (e : Warrior)
    : Prop :=
  k = i \/ w_alive e = false \/ w_type e = w_type self.

(** A projectile a triangle does not evade: spent, its own side's, or
    at least [evadeRadius] away. *)
Definition no_threat (self : Warrior) (p : Projectile) : Prop :=
  p_alive p = false \/ p_ownerType p = w_type self \/
  evadeRadius <= hypot (p_x p - w_x self) (p_y p - w_y self).

(** [w'] is where [w] was. *)
Definition same_place (w w' : Warrior) : Prop :=
  w_x w' = w_x w /\ w_y w' = w_y w.

(** The only warrior [findTarget] of [warriors[i]] does not pass over
    is [warriors[j]]. *)
Definition only_enemy (i j : nat) (self : Warrior) (ws : list Warrior)
    : Prop :=
  forall m e, m <> j -> ws !! m = Some e -> skipped i self m e.

(** A warrior within its limit circle stays where it is. *)
Definition stays_if_inside (w w' : Warrior) : Prop :=
  inside_arena w -> inside_arena w' /\ same_place w w'.

(** What [Projectile.update] always does to the projectile itself: it
    ages it, and unless it is too old it moves it. *)
Definition flown (dt : R) (p p' : Projectile) : Prop :=
  p_life p' = p_life p + dt /\
  (p_life p + dt < p_maxLife p ->
   p_x p' = p_x p + p_vx p * dt /\ p_y p' = p_y p + p_vy p * dt) /\
  (p_maxLife p <= p_life p + dt -> p_x p' = p_x p /\ p_y p' = p_y p).

(** A projectile as its constructor leaves it. *)
Definition fresh (p : Projectile) : Prop :=
  p_life p = 0 /\ p_alive p = true.

(** What the loop of [findTarget] holds after any prefix of the roster. *)
Definition nearest_so_far (i : nat) (self : Warrior) (l : list Warrior)
    (acc : option (nat * Warrior * R)) : Prop :=
  match acc with
  | None => forall k e, l !! k = Some e -> skipped i self k e
  | Some (j, t, d) =>
      l !! j = Some t /\ ~ skipped i self j t /\ d = distanceTo self t /\
      forall k e, l !! k = Some e -> ~ skipped i self k e ->
        d <= distanceTo self e /\ (distanceTo self e = d -> (j <= k)%nat)
  end.

(** [w'] is [w] moved or not, of the same type. *)
Definition same_type (w w' : Warrior) : Prop := w_type w' = w_type w.

(** A projectile that carries the damage of its owner's type, as
    every projectile made by [new Projectile] does. *)
Definition armed (p : Projectile) : Prop :=
  p_damage p = damage (TYPE_CONFIG (p_ownerType p)).

(** [w'] has no more hit points than [w]. *)
Definition hp_le (w w' : Warrior) : Prop := w_hp w' <= w_hp w.

(** The point an attempt of [seedWarriors] draws at cursor [m]. *)
Definition attempt (rng : Draws) (m : nat) : R * R :=
  randomPoint (rng m) (rng (S m)).

(** A point at least the spawn spacing of 25 away from every warrior
    already placed. *)
Definition spaced (existing : list Warrior) (point : R * R) : Prop :=
  Forall (fun w => 25 <= hypot (w_x w - fst point) (w_y w - snd point))
    existing.

(** A warrior as the constructor leaves it. *)
Definition unscathed (w : Warrior) : Prop :=
  w_alive w = true /\ w_hp w = maxhp (w_config w) /\
  w_cooldown w = 0 /\ w_wantRetreat w = 0.

(** What holds of every warrior and of every projectile between two
    frames of a battle. *)
Definition battle_ready (w : Warrior) : Prop :=
  w_alive w = true /\ 0 < w_hp w <= maxhp (w_config w) /\
  timers_ok w /\ within_circle w.

Definition in_flight (p : Projectile) : Prop :=
  p_alive p = true /\ armed p /\ projectile_inside p.

Definition sound_state (s : State) : Prop :=
  Forall battle_ready (warriors (st_world s)) /\
  Forall in_flight (projectiles (st_world s)).

(** Untouched but for the timers. *)
Definition unhurt (w w' : Warrior) : Prop :=
  w_type w' = w_type w /\ w_alive w' = w_alive w /\ w_hp w' = w_hp w /\
  w_x w' = w_x w /\ w_y w' = w_y w.

(** A sparkle still to be drawn: its age is within its life span, which
    is no longer than the longest one [spawnHitEffect] gives. *)
Definition sparkle_ok (fx : HitEffect) : Prop :=
  0 <= fx_life fx < fx_maxLife fx /\ fx_maxLife fx <= 35 / 100.

(** What a step does to a battle of two in seeding order, a melee
    warrior [enemy] and then a triangle [kiter], with nothing in
    flight: [e1] and [k1] are the two after the enemy's turn, [e3] and
    [k3] after the step. *)
Definition seeded_step (ts : R) (s : State) (enemy kiter : Warrior)
    (e1 k1 e3 k3 : Warrior) : Prop :=
  let dt := num_or ((ts - lastTimestamp s) / 1000) 0 in
  warriors (Warrior_update dt 0 (st_world s)) = [e1; k1] /\
  same_place kiter k1 /\
  (Rmax (range (w_config enemy))
     (size (w_config enemy) + size (w_config kiter))
     < distanceTo e1 kiter -> k1 = kiter) /\
  ((w_type enemy = circle -> w_wantRetreat enemy <= 0) ->
   let dx0 := w_x kiter - w_x enemy in
   let dy0 := w_y kiter - w_y enemy in
   let dist0 := num_or (hypot dx0 dy0) 1 in
   size (w_config enemy) + size (w_config kiter) < dist0 ->
   let stepped :=
     set_pos (w_x enemy + dx0 / dist0 * (speed (w_config enemy) * dt))
             (w_y enemy + dy0 / dist0 * (speed (w_config enemy) * dt))
             enemy in
   w_x e1 = w_x (clampInsideArena stepped) /\
   w_y e1 = w_y (clampInsideArena stepped)) /\
  warriors (st_world (update ts s))
    = filter (fun w => w_alive w = true) [e3; k3] /\
  same_place e1 e3 /\
  (w_alive k1 = true -> 7 < w_hp enemy ->
   w_alive e3 = true /\ w_alive k3 = true) /\
  (w_alive k1 = true ->
   let dx := w_x e1 - w_x kiter in
   let dy := w_y e1 - w_y kiter in
   let dist := num_or (hypot dx dy) 1 in
   (56 <= dist <= 60 -> same_place kiter k3) /\
   (55 < dist < 56 \/ 60 < dist ->
    let stepped :=
      set_pos (w_x kiter + dx / dist * (90 * dt))
              (w_y kiter + dy / dist * (90 * dt)) kiter in
    w_x k3 = w_x (clampInsideArena stepped) /\
    w_y k3 = w_y (clampInsideArena stepped)) /\
   (50 <= dist <= 55 ->
    let stepped :=
      set_pos (w_x kiter + - (dy / dist) * (90 * dt))
              (w_y kiter + dx / dist * (90 * dt)) kiter in
    w_x k3 = w_x (clampInsideArena stepped) /\
    w_y k3 = w_y (clampInsideArena stepped))).

(** ** Battle positions used as examples

    The examples are played on an 800 by 800 canvas: centre (400, 400),
    arena radius 360. *)

(** A duel at distance 56: a triangle in the centre and a square at
    [preferred.max + 1] from it, both fresh, nothing in flight. *)
Definition kiter_mid : Warrior := new_Warrior triangle 400 400 0.
Definition tank_56 : Warrior := new_Warrior square 456 400 0.

(** This duel lists the triangle first.  [seedWarriors] lists squares
    before triangles (see [duel_seeded] below); the duel in this order
    serves where the order of the turns plays no part. *)
Definition duel_56 : World :=
  {| warriors := [kiter_mid; tank_56]; projectiles := [] |}.

Definition battle_56 : State :=
  {| st_world := duel_56; running := true; lastTimestamp := 0;
     winnerType := None |}.

(** The same duel in the order in which [seedWarriors] lists it:
    squares come before triangles, and [filter] keeps the order. *)
Definition duel_seeded : World :=
  {| warriors := [tank_56; kiter_mid]; projectiles := [] |}.

(** Three circles around the triangle, in the order of seeding: one
    far to the east, then one to the east and one to the west, both at
    30 from the triangle. *)
Definition circle_far : Warrior := new_Warrior circle 460 400 0.
Definition circle_east : Warrior := new_Warrior circle 430 400 0.
Definition circle_west : Warrior := new_Warrior circle 370 400 0.

Definition skirmish_tie : list Warrior :=
  [circle_far; circle_east; circle_west; kiter_mid].

Definition battle_seeded : State :=
  {| st_world := duel_seeded; running := true; lastTimestamp := 0;
     winnerType := None |}.

(** A triangle half-way through its cooldown, its target 50 away. *)
Definition kiter_cooling : Warrior := set_cooldown (5 / 10) kiter_mid.
Definition tank_50 : Warrior := new_Warrior square 450 400 0.

Definition duel_cooling : World :=
  {| warriors := [tank_50; kiter_cooling]; projectiles := [] |}.

(** A circle that has taken three hits of a square (55 - 3 * 18 = 1). *)
Definition circle_on_1hp : Warrior := set_hp 1 (new_Warrior circle 400 400 0).

(** A circle at the rim of the arena and a triangle's projectile about
    to pass it on its way out. *)
Definition circle_at_rim : Warrior := new_Warrior circle 750 400 0.

Definition shot_leaving : Projectile :=
  {| p_ownerType := triangle; p_damage := 7;
     p_x := 7359 / 10; p_y := 400; p_vx := 260; p_vy := 0;
     p_life := 1; p_maxLife := 35 / 10; p_alive := true; p_radius := 4 |}.

(** A square that has walked past its limit circle of radius 344, and
    where the clamp puts it in double precision: the two coordinates
    are the binary64 values 417.9754087877148 and 743.5300346096606. *)
Definition square_past_limit : Warrior := new_Warrior square 418 744 0.

Definition clamped_x_f64 : float := 0x1.a1f9b463eb775p+8%float.
Definition clamped_y_f64 : float := 0x1.73c3d82c911ecp+9%float.

(** The same circle after the fourth hit. *)
Definition circle_fallen : Warrior :=
  set_alive false (set_hp (- 17) (new_Warrior circle 400 400 0)).

(** A battle with a single triangle. *)
Definition battle_alone : State :=
  {| st_world := {| warriors := [kiter_mid]; projectiles := [] |};
     running := true; lastTimestamp := 0; winnerType := None |}.

(** The duel at 56 after one frame of length [dt]: the triangle after
    its turn, the square after its own, and the shot fired in between
    after the projectile phase. *)
Definition kiter_after (dt : R) : Warrior :=
  steer dt 0 (decay_timers dt kiter_mid) tank_56
    (mutate 0 (decay_timers dt) duel_56).

Definition tank_after (dt : R) : Warrior :=
  set_pos (456 + (400 - 456) / 56 * (91 * dt))
          (400 + (400 - 400) / 56 * (91 * dt))
          (set_heading (atan2 ((400 - 400) / 56) ((400 - 456) / 56))
             (set_cooldown (Rmax 0 (0 - dt)) tank_56)).

Definition shot_after (dt : R) : Projectile :=
  moved dt (new_Projectile (kiter_after dt) tank_56).

(** * Properties *)

(** ** Numbers *)

Lemma Rltb_true (a b : R) : a < b -> Rltb a b = true.
Proof. intros H. unfold Rltb. destruct (Rlt_dec a b); [reflexivity | lra]. Qed.

Lemma Rltb_false (a b : R) : b <= a -> Rltb a b = false.
Proof. intros H. unfold Rltb. destruct (Rlt_dec a b); [lra | reflexivity]. Qed.

Lemma Rleb_true (a b : R) : a <= b -> Rleb a b = true.
Proof. intros H. unfold Rleb. destruct (Rle_dec a b); [reflexivity | lra]. Qed.

Lemma Rleb_false (a b : R) : b < a -> Rleb a b = false.
Proof. intros H. unfold Rleb. destruct (Rle_dec a b); [lra | reflexivity]. Qed.

Lemma Rltb_spec (a b : R) : Rltb a b = true <-> a < b.
Proof.
  unfold Rltb. destruct (Rlt_dec a b); split; intros; trivial;
    try discriminate; contradiction.
Qed.

Lemma Rleb_spec (a b : R) : Rleb a b = true <-> a <= b.
Proof.
  unfold Rleb. destruct (Rle_dec a b); split; intros; trivial;
    try discriminate; contradiction.
Qed.

Lemma Rltb_nspec (a b : R) : Rltb a b = false <-> b <= a.
Proof.
  unfold Rltb. destruct (Rlt_dec a b); split; intros; trivial;
    try discriminate; lra.
Qed.

Lemma Rleb_nspec (a b : R) : Rleb a b = false <-> b < a.
Proof.
  unfold Rleb. destruct (Rle_dec a b); split; intros; trivial;
    try discriminate; lra.
Qed.

Lemma Reqb_true (a b : R) : a = b -> Reqb a b = true.
Proof.
  intros H. unfold Reqb. destruct (Req_dec_T a b); [reflexivity | lra].
Qed.

Lemma Reqb_false (a b : R) : a <> b -> Reqb a b = false.
Proof.
  intros H. unfold Reqb. destruct (Req_dec_T a b); [tauto | reflexivity].
Qed.

Lemma num_or_nonzero (v d : R) : v <> 0 -> num_or v d = v.
Proof. intros H. unfold num_or. now rewrite Reqb_false. Qed.

Lemma num_or_zero (d : R) : num_or 0 d = d.
Proof. unfold num_or. now rewrite Reqb_true. Qed.

Lemma hypot_nonneg (a b : R) : 0 <= hypot a b.
Proof. apply sqrt_pos. Qed.

(** The value of a hypotenuse from a Pythagorean identity. *)
Lemma hypot_val (a b v : R) : 0 <= v -> a * a + b * b = v * v -> hypot a b = v.
Proof.
  intros Hv H. unfold hypot. rewrite H. now apply sqrt_square.
Qed.

Lemma hypot_scale (a b s : R) : hypot (a * s) (b * s) = Rabs s * hypot a b.
Proof.
  unfold hypot.
  replace (a * s * (a * s) + b * s * (b * s)) with (s * s * (a * a + b * b))
    by ring.
  rewrite sqrt_mult_alt by nra.
  f_equal. rewrite <- (sqrt_Rsqr_abs s). reflexivity.
Qed.

Lemma hypot_along (a b : R) : b = 0 -> 0 <= a -> hypot a b = a.
Proof. intros -> Ha. apply hypot_val; [exact Ha | ring]. Qed.

Lemma hypot_along_neg (a b : R) : b = 0 -> a <= 0 -> hypot a b = - a.
Proof. intros -> Ha. apply hypot_val; [lra | ring]. Qed.

Lemma num_or_hypot_pos (a b : R) : 0 < num_or (hypot a b) 1.
Proof.
  unfold num_or, Reqb. destruct (Req_dec_T (hypot a b) 0) as [E | E].
  - lra.
  - pose proof (hypot_nonneg a b). lra.
Qed.

(** The two loops of the heading normalisation stop within their fuel. *)
Lemma wrap_down_bound (fuel : nat) (a : R) :
  a <= PI + INR fuel * (PI * 2) -> wrap_down fuel a <= PI.
Proof.
  revert a. induction fuel as [| f IH]; intros a Ha.
  - simpl in *. lra.
  - cbn [wrap_down]. unfold Rgtb, Rltb. destruct (Rlt_dec PI a) as [Hgt | Hle].
    + apply IH. rewrite S_INR in Ha. lra.
    + lra.
Qed.

Lemma wrap_up_bound (fuel : nat) (a : R) :
  - PI - INR fuel * (PI * 2) <= a -> - PI <= wrap_up fuel a.
Proof.
  revert a. induction fuel as [| f IH]; intros a Ha.
  - simpl in *. lra.
  - cbn [wrap_up]. unfold Rltb. destruct (Rlt_dec a (- PI)) as [Hlt | Hge].
    + apply IH. rewrite S_INR in Ha. lra.
    + lra.
Qed.

Lemma wrap_fuel_enough (a : R) : Rabs a <= INR (wrap_fuel a) * (PI * 2).
Proof.
  unfold wrap_fuel. pose proof PI_RGT_0 as Hpi.
  set (q := Rabs a / (PI * 2)).
  assert (Hq : 0 <= q).
  { unfold q. apply Rmult_le_pos; [apply Rabs_pos |].
    apply Rlt_le, Rinv_0_lt_compat. lra. }
  destruct (archimed q) as [Hup _].
  assert (Hz : (0 <= up q)%Z).
  { apply le_IZR. lra. }
  rewrite INR_IZR_INZ, Z2Nat.id by exact Hz.
  assert (Ha : Rabs a = q * (PI * 2)).
  { unfold q. field. lra. }
  rewrite Ha. apply Rmult_le_compat_r; lra.
Qed.

Lemma wrap_up_le (fuel : nat) (a : R) : a <= PI -> wrap_up fuel a <= PI.
Proof.
  revert a. induction fuel as [| f IH]; intros a Ha; cbn [wrap_up].
  - exact Ha.
  - unfold Rltb. destruct (Rlt_dec a (- PI)) as [Hlt | Hge]; [| exact Ha].
    apply IH. lra.
Qed.

(** [normalize_angle] is total and lands in [[-PI, PI]], the range the
    source's comment names. *)
Lemma normalize_angle_range (a : R) :
  - PI <= normalize_angle a <= PI.
Proof.
  unfold normalize_angle.
  set (a1 := wrap_down (wrap_fuel a) a).
  assert (H1 : a1 <= PI).
  { apply wrap_down_bound. pose proof (wrap_fuel_enough a).
    pose proof (Rle_abs a). pose proof PI_RGT_0. lra. }
  split.
  - apply wrap_up_bound. pose proof (wrap_fuel_enough a1).
    pose proof (Rle_abs (- a1)) as Hn. rewrite Rabs_Ropp in Hn.
    pose proof PI_RGT_0. lra.
  - now apply wrap_up_le.
Qed.

(** ** What each assignment leaves alone *)

Lemma decay_timers_fields (dt : R) (w : Warrior) :
  w_type (decay_timers dt w) = w_type w /\
  w_x (decay_timers dt w) = w_x w /\
  w_y (decay_timers dt w) = w_y w /\
  w_hp (decay_timers dt w) = w_hp w /\
  w_alive (decay_timers dt w) = w_alive w.
Proof.
  unfold decay_timers. cbn.
  destruct (Rgtb (w_wantRetreat w) 0); cbn; repeat split.
Qed.

Lemma clampInsideArena_fields (w : Warrior) :
  w_type (clampInsideArena w) = w_type w /\
  w_hp (clampInsideArena w) = w_hp w /\
  w_alive (clampInsideArena w) = w_alive w /\
  w_cooldown (clampInsideArena w) = w_cooldown w /\
  w_wantRetreat (clampInsideArena w) = w_wantRetreat w.
Proof.
  unfold clampInsideArena. cbn zeta.
  destruct (Rgtb _ _); cbn; repeat split.
Qed.

Lemma steer_fields (dt : R) (i : nat) (self target : Warrior) (wd : World) :
  w_type (steer dt i self target wd) = w_type self /\
  w_hp (steer dt i self target wd) = w_hp self /\
  w_alive (steer dt i self target wd) = w_alive self /\
  w_cooldown (steer dt i self target wd) = w_cooldown self /\
  w_wantRetreat (steer dt i self target wd) = w_wantRetreat self.
Proof.
  unfold steer. cbn zeta.
  destruct (direction _ _ _ _ _ _ _) as [dirX dirY].
  destruct (shouldMove _ _ _).
  - match goal with
    | |- context [clampInsideArena ?w] =>
        destruct (clampInsideArena_fields w) as (-> & -> & -> & -> & ->)
    end.
    cbn. repeat split.
  - cbn. repeat split.
Qed.

Lemma takeDamage_fields (a : R) (w : Warrior) :
  w_type (takeDamage a w) = w_type w /\
  w_x (takeDamage a w) = w_x w /\
  w_y (takeDamage a w) = w_y w /\
  w_hp (takeDamage a w) = w_hp w - a /\
  w_cooldown (takeDamage a w) = w_cooldown w /\
  w_wantRetreat (takeDamage a w) = w_wantRetreat w.
Proof.
  unfold takeDamage. cbn zeta.
  destruct (Rleb _ _); cbn; repeat split.
Qed.

Lemma after_melee_hit_fields (t w : Warrior) :
  w_type (after_melee_hit t w) = w_type w /\
  w_x (after_melee_hit t w) = w_x w /\
  w_y (after_melee_hit t w) = w_y w /\
  w_hp (after_melee_hit t w) = w_hp w /\
  w_alive (after_melee_hit t w) = w_alive w.
Proof.
  unfold after_melee_hit. cbn zeta.
  destruct (bool_decide _); cbn; repeat split.
Qed.

(** ** Loops with a position *)

Lemma ifold_ind {A B : Type} (f : B -> nat -> A -> B) (Inv : B -> Prop)
    (l : list A) (k : nat) (b : B) :
  Inv b ->
  (forall b j a, l !! j = Some a -> Inv b -> Inv (f b (k + j)%nat a)) ->
  Inv (ifold f k l b).
Proof.
  revert k b. induction l as [| a rest IH]; intros k b Hb Hstep; cbn.
  - exact Hb.
  - apply IH.
    + specialize (Hstep b O a eq_refl Hb). now rewrite Nat.add_0_r in Hstep.
    + intros b' j a' Hj Hb'.
      replace (S k + j)%nat with (k + S j)%nat by lia.
      now apply Hstep.
Qed.

(** [findTarget] returns a living warrior of another type, never [this]. *)
Lemma findTarget_spec (i : nat) (self : Warrior) (ws : list Warrior)
    (j : nat) (t : Warrior) :
  findTarget i self ws = Some (j, t) ->
  ws !! j = Some t /\ j <> i /\ w_alive t = true /\ w_type t <> w_type self.
Proof.
  unfold findTarget.
  assert (H : forall acc, acc = ifold (findTarget_step i self) 0 ws None ->
            forall j t d, acc = Some (j, t, d) ->
            ws !! j = Some t /\ j <> i /\ w_alive t = true /\
            w_type t <> w_type self).
  { intros acc ->. apply (ifold_ind (findTarget_step i self)
      (fun acc => forall j t d, acc = Some (j, t, d) ->
         ws !! j = Some t /\ j <> i /\ w_alive t = true /\
         w_type t <> w_type self)).
    - intros ? ? ? [=].
    - intros b k a Hk Hb j' t' d'. cbn [Nat.add]. unfold findTarget_step.
      destruct (Nat.eqb_spec k i) as [-> | Hne]; cbn [orb]; [apply Hb |].
      destruct (w_alive a) eqn:Ha; cbn [negb orb]; [| apply Hb].
      destruct (bool_decide_reflect (w_type a = w_type self)) as [E | NE];
        [apply Hb |].
      destruct b as [[[k0 e0] d0] |].
      + destruct (Rltb _ _); [| apply Hb].
        intros [= <- <- <-]. auto.
      + intros [= <- <- <-]. auto. }
  intros Hf.
  destruct (ifold (findTarget_step i self) 0 ws None) as [[[j0 t0] d0] |] eqn:E;
    [| discriminate].
  cbn in Hf. injection Hf as -> ->. eapply H; reflexivity.
Qed.

(** ** A frame relates every warrior to its later self

    [Rel] is any reflexive and transitive relation that each single
    assignment of the engine respects; then a whole frame respects it
    position by position.  The invariants below are instances. *)

Section FrameRel.

Variable Rel : Warrior -> Warrior -> Prop.
Context `{!Reflexive Rel, !Transitive Rel}.
Variable dt : R.

Hypothesis Rel_decay :
  forall w, w_alive w = true -> Rel w (decay_timers dt w).
Hypothesis Rel_steer :
  forall i self target wd,
    w_alive self = true -> Rel self (steer dt i self target wd).
Hypothesis Rel_damage :
  forall a w, w_alive w = true -> Rel w (takeDamage a w).
Hypothesis Rel_cooldown :
  forall t w, w_alive w = true ->
    Rel w (set_cooldown (cfg_cooldown (TYPE_CONFIG t)) w).
Hypothesis Rel_hit :
  forall t w, w_alive w = true -> Rel w (after_melee_hit t w).

Lemma mutate_rel (ws0 : list Warrior) (wd : World) (i : nat)
    (f : Warrior -> Warrior) :
  Forall2 Rel ws0 (warriors wd) ->
  (forall y, warriors wd !! i = Some y -> Rel y (f y)) ->
  Forall2 Rel ws0 (warriors (mutate i f wd)).
Proof.
  intros H Hf. cbn. apply Forall2_alter_r; [exact H |].
  intros x y _ Hy Hxy. etransitivity; [exact Hxy | auto].
Qed.

Lemma attemptAttack_rel (ws0 : list Warrior) (i j : nat) (wd : World) :
  Forall2 Rel ws0 (warriors wd) ->
  j <> i ->
  (forall self, warriors wd !! i = Some self -> w_alive self = true) ->
  Forall2 Rel ws0 (warriors (attemptAttack i (Some j) wd)).
Proof.
  intros H0 Hji Hself. unfold attemptAttack.
  destruct (warriors wd !! i) as [self |] eqn:Hi; [| exact H0].
  specialize (Hself self eq_refl).
  cbn [mbind option_bind].
  destruct (warriors wd !! j) as [target |] eqn:Hj;
    cbn [fmap option_fmap option_map]; [| exact H0].
  destruct (w_alive target) eqn:Halive; cbn [negb orb]; [| exact H0].
  destruct (Rgtb (w_cooldown self) 0); [exact H0 |].
  destruct (bool_decide (w_type self = triangle)).
  - destruct (Rleb _ _); [| exact H0].
    apply mutate_rel; [exact H0 |]. intros y Hy. apply Rel_cooldown.
    cbn in Hy. congruence.
  - destruct (Rleb _ _); [| exact H0].
    apply mutate_rel.
    + apply mutate_rel; [exact H0 |].
      intros y Hy. apply Rel_damage. congruence.
    + intros y Hy. apply Rel_hit.
      cbn in Hy. rewrite list_lookup_alter_ne in Hy by exact Hji. congruence.
Qed.

Lemma Warrior_update_rel (ws0 : list Warrior) (i : nat) (wd : World) :
  Forall2 Rel ws0 (warriors wd) ->
  Forall2 Rel ws0 (warriors (Warrior_update dt i wd)).
Proof.
  intros H0. unfold Warrior_update.
  destruct (warriors wd !! i) as [this |] eqn:Hi; [| exact H0].
  destruct (w_alive this) eqn:Halive; cbn [negb]; [| exact H0].
  assert (H1 : Forall2 Rel ws0 (warriors (mutate i (decay_timers dt) wd))).
  { apply mutate_rel; [exact H0 |]. intros y Hy. apply Rel_decay. congruence. }
  assert (Hd : w_alive (decay_timers dt this) = true).
  { destruct (decay_timers_fields dt this) as (_ & _ & _ & _ & ->).
    exact Halive. }
  destruct (findTarget _ _ _) as [[j target] |] eqn:Hf; [| exact H1].
  apply findTarget_spec in Hf as (_ & Hji & _).
  apply attemptAttack_rel; [| exact Hji |].
  - apply mutate_rel; [exact H1 |].
    intros y Hy. apply Rel_steer.
    cbn in Hy. rewrite list_lookup_alter_eq, Hi in Hy. cbn in Hy.
    now injection Hy as <-.
  - intros self Hs. cbn in Hs.
    rewrite !list_lookup_alter_eq, Hi in Hs. cbn in Hs.
    injection Hs as <-.
    match goal with
    | |- w_alive (steer ?a ?b ?c ?d ?e) = true =>
        destruct (steer_fields a b c d e) as (_ & _ & -> & _)
    end.
    exact Hd.
Qed.

Lemma warriors_loop_rel (wd : World) :
  Forall2 Rel (warriors wd) (warriors (warriors_loop dt wd)).
Proof.
  unfold warriors_loop.
  generalize (seq 0 (length (warriors wd))) as idx.
  assert (H0 : Forall2 Rel (warriors wd) (warriors wd)) by reflexivity.
  revert H0. generalize (warriors wd) at 1 3 as ws0. intros ws0 H0 idx.
  revert wd H0. induction idx as [| i idx IH]; intros wd H0; cbn.
  - exact H0.
  - apply IH. now apply Warrior_update_rel.
Qed.

Lemma collide_rel (p : Projectile) (ws ws' : list Warrior) :
  collide p ws = Some ws' -> Forall2 Rel ws ws'.
Proof.
  revert ws'. induction ws as [| enemy rest IH]; intros ws' H; cbn in H.
  - discriminate.
  - destruct (w_alive enemy) eqn:Halive; cbn [negb orb] in H.
    + destruct (bool_decide _).
      * destruct (collide p rest) as [r |]; [| discriminate].
        injection H as <-. constructor; [reflexivity | now apply IH].
      * destruct (Rleb _ _).
        -- injection H as <-. constructor; [| reflexivity].
           now apply Rel_damage.
        -- destruct (collide p rest) as [r |]; [| discriminate].
           injection H as <-. constructor; [reflexivity | now apply IH].
    + destruct (collide p rest) as [r |]; [| discriminate].
      injection H as <-. constructor; [reflexivity | now apply IH].
Qed.

Lemma Projectile_update_rel (p : Projectile) (ws : list Warrior) :
  Forall2 Rel ws (snd (Projectile_update dt p ws)).
Proof.
  unfold Projectile_update. cbn zeta.
  destruct (Rgeb _ _); [reflexivity |].
  destruct (collide _ ws) as [ws' |] eqn:Hc; cbn; [| reflexivity].
  eapply collide_rel, Hc.
Qed.

Lemma projectiles_forEach_rel (ps : list Projectile) (ws : list Warrior) :
  Forall2 Rel ws (snd (projectiles_forEach dt ps ws)).
Proof.
  revert ws. induction ps as [| p rest IH]; intros ws; cbn.
  - reflexivity.
  - pose proof (Projectile_update_rel p ws) as H1.
    destruct (Projectile_update dt p ws) as [p' ws1]. cbn in H1.
    pose proof (IH ws1) as H2.
    destruct (projectiles_forEach dt rest ws1) as [rest' ws2]. cbn in *.
    etransitivity; eassumption.
Qed.

(** Every warrior is related to what the two update phases make of it. *)
Lemma simulate_rel (wd : World) :
  Forall2 Rel (warriors wd) (warriors (simulate dt wd)).
Proof.
  unfold simulate.
  pose proof (warriors_loop_rel wd) as H1.
  pose proof (projectiles_forEach_rel (projectiles (warriors_loop dt wd))
                (warriors (warriors_loop dt wd))) as H2.
  destruct (projectiles_forEach _ _ _) as [ps ws]. cbn in *.
  etransitivity; eassumption.
Qed.

End FrameRel.

(** ** Invariants of a frame *)

Section FrameInv.

Variable P : Warrior -> Prop.
Variable dt : R.

Hypothesis P_decay :
  forall w, w_alive w = true -> P w -> P (decay_timers dt w).
Hypothesis P_steer :
  forall i self target wd,
    w_alive self = true -> P self -> P (steer dt i self target wd).
Hypothesis P_damage :
  forall a w, w_alive w = true -> P w -> P (takeDamage a w).
Hypothesis P_cooldown :
  forall t w, w_alive w = true -> P w ->
    P (set_cooldown (cfg_cooldown (TYPE_CONFIG t)) w).
Hypothesis P_hit :
  forall t w, w_alive w = true -> P w -> P (after_melee_hit t w).

Lemma simulate_inv (wd : World) :
  Forall P (warriors wd) -> Forall P (warriors (simulate dt wd)).
Proof.
  intros H.
  assert (H2 : Forall2 (fun w w' => P w -> P w') (warriors wd)
                 (warriors (simulate dt wd))).
  { assert (Hrefl : Reflexive (fun w w' : Warrior => P w -> P w'))
      by (intros w Hw; exact Hw).
    assert (Htrans : Transitive (fun w w' : Warrior => P w -> P w'))
      by (intros a b c Hab Hbc Ha; auto).
    apply (simulate_rel (fun w w' => P w -> P w')); auto. }
  induction H2 as [| w w' l l' Hw _ IH]; [constructor |].
  apply Forall_cons in H as [Hp Hl]. constructor; auto.
Qed.

End FrameInv.

Lemma prune_warriors_Forall (P : Warrior -> Prop) (wd : World) :
  Forall P (warriors wd) ->
  Forall (fun w => P w /\ w_alive w = true) (warriors (prune wd)).
Proof.
  intros H. unfold prune. cbn [warriors].
  rewrite Forall_forall in *. intros w Hw.
  apply list_elem_of_filter in Hw as [Ha Hin]. auto.
Qed.

(** The two shapes of a frame: nothing at all when the battle is not
    running, the pruned simulation otherwise. *)
Lemma update_not_running (ts : R) (s : State) :
  running s = false -> update ts s = s.
Proof. intros H. unfold update. now rewrite H. Qed.

Lemma update_running_world (ts : R) (s : State) :
  running s = true ->
  st_world (update ts s) =
    prune (simulate (num_or ((ts - lastTimestamp s) / 1000) 0) (st_world s)).
Proof.
  intros H. unfold update. rewrite H. cbn [negb].
  destruct (determineVictor _ _). reflexivity.
Qed.

(** *** Liveness and hit points *)

Lemma takeDamage_alive_iff_hp (a : R) (w : Warrior) :
  w_alive w = true -> alive_iff_hp (takeDamage a w).
Proof.
  intros Hal. unfold alive_iff_hp, takeDamage. cbn zeta.
  destruct (Rleb (w_hp (set_hp (w_hp w - a) w)) 0) eqn:E; cbn in *.
  - apply Rleb_spec in E. split; [discriminate | lra].
  - apply Rleb_nspec in E. split; [lra | auto].
Qed.

Lemma takeDamage_dead_alive_iff_hp (a : R) (w : Warrior) :
  alive_iff_hp w -> 0 <= a -> alive_iff_hp (takeDamage a w).
Proof.
  intros Hinv Ha. destruct (w_alive w) eqn:Hal.
  - now apply takeDamage_alive_iff_hp.
  - unfold alive_iff_hp in *. unfold takeDamage. cbn zeta.
    destruct (Rleb _ _) eqn:E; cbn in *; rewrite ?Hal.
    + apply Rleb_spec in E. split; [discriminate | lra].
    + apply Rleb_nspec in E. rewrite Hal in Hinv.
      split; [discriminate |]. intros _.
      assert (0 < w_hp w) by lra. apply Hinv in H. discriminate.
Qed.

Lemma simulate_alive_iff_hp (dt : R) (wd : World) :
  Forall alive_iff_hp (warriors wd) ->
  Forall alive_iff_hp (warriors (simulate dt wd)).
Proof.
  apply simulate_inv; unfold alive_iff_hp.
  - intros w _. destruct (decay_timers_fields dt w) as (_ & _ & _ & -> & ->).
    auto.
  - intros i self target wd' _.
    destruct (steer_fields dt i self target wd') as (_ & -> & -> & _). auto.
  - intros a w Hal _. now apply takeDamage_alive_iff_hp.
  - intros t w _. cbn. auto.
  - intros t w _.
    destruct (after_melee_hit_fields t w) as (_ & _ & _ & -> & ->). auto.
Qed.

Lemma update_alive_iff_hp (ts : R) (s : State) :
  Forall alive_iff_hp (warriors (st_world s)) ->
  Forall alive_iff_hp (warriors (st_world (update ts s))).
Proof.
  intros H. destruct (running s) eqn:Hr.
  - rewrite update_running_world by exact Hr.
    eapply Forall_impl; [apply prune_warriors_Forall |].
    + apply simulate_alive_iff_hp, H.
    + cbn. tauto.
  - now rewrite update_not_running.
Qed.

Lemma simulate_frozen_if_dead (dt : R) (wd : World) :
  Forall2 frozen_if_dead (warriors wd) (warriors (simulate dt wd)).
Proof.
  assert (Hrefl : Reflexive frozen_if_dead) by (intros w _; reflexivity).
  assert (Htrans : Transitive frozen_if_dead).
  { intros a b c Hab Hbc Ha. unfold frozen_if_dead in *.
    specialize (Hab Ha). subst b. auto. }
  apply (simulate_rel frozen_if_dead); unfold frozen_if_dead; congruence.
Qed.

Lemma Warrior_update_dead (dt : R) (i : nat) (wd : World) (w : Warrior) :
  warriors wd !! i = Some w -> w_alive w = false ->
  Warrior_update dt i wd = wd.
Proof. intros Hi Hd. unfold Warrior_update. now rewrite Hi, Hd. Qed.

Lemma Projectile_update_frozen_if_dead (dt : R) (p : Projectile)
    (ws : list Warrior) :
  Forall2 frozen_if_dead ws (snd (Projectile_update dt p ws)).
Proof.
  assert (Hrefl : Reflexive frozen_if_dead) by (intros w _; reflexivity).
  apply (Projectile_update_rel frozen_if_dead); unfold frozen_if_dead;
    congruence.
Qed.

(** C1.  [alive] is exactly [hp > 0]: a new warrior starts that way,
    [takeDamage] establishes it on a living warrior (the only ones the
    engine damages) and keeps it on any warrior for a non-negative
    amount, and a frame keeps it for the whole roster.  A dead
    warrior's own [update] does nothing, [findTarget] only returns
    living warriors, and neither a projectile nor a whole simulation
    phase changes a dead warrior. *)
Theorem alive_tracks_hp :
  (forall type x y heading, alive_iff_hp (new_Warrior type x y heading)) /\
  (forall a w, w_alive w = true -> alive_iff_hp (takeDamage a w)) /\
  (forall a w, alive_iff_hp w -> 0 <= a -> alive_iff_hp (takeDamage a w)) /\
  (forall ts s,
     Forall alive_iff_hp (warriors (st_world s)) ->
     Forall alive_iff_hp (warriors (st_world (update ts s)))) /\
  (forall dt i wd w,
     warriors wd !! i = Some w -> w_alive w = false ->
     Warrior_update dt i wd = wd) /\
  (forall i self ws j t,
     findTarget i self ws = Some (j, t) ->
     ws !! j = Some t /\ w_alive t = true) /\
  (forall dt p ws i w,
     ws !! i = Some w -> w_alive w = false ->
     snd (Projectile_update dt p ws) !! i = Some w) /\
  (forall dt wd i w,
     warriors wd !! i = Some w -> w_alive w = false ->
     warriors (simulate dt wd) !! i = Some w).
Proof.
  split.
  { intros type x y heading. split; [| reflexivity].
    intros _. destruct type; cbn; lra. }
  split; [exact takeDamage_alive_iff_hp |].
  split; [exact takeDamage_dead_alive_iff_hp |].
  split; [exact update_alive_iff_hp |].
  split; [exact Warrior_update_dead |].
  split.
  { intros i self ws j t H. apply findTarget_spec in H. tauto. }
  split.
  - intros dt p ws i w Hi Hd.
    pose proof (Projectile_update_frozen_if_dead dt p ws) as H.
    destruct (Forall2_lookup_l _ _ _ _ _ H Hi) as (w' & Hw' & Hf).
    rewrite Hw'. f_equal. now apply Hf.
  - intros dt wd i w Hi Hd.
    pose proof (simulate_frozen_if_dead dt wd) as H.
    destruct (Forall2_lookup_l _ _ _ _ _ H Hi) as (w' & Hw' & Hf).
    rewrite Hw'. f_equal. now apply Hf.
Qed.

(** ** Projectiles *)

Lemma collide_cons (p : Projectile) (enemy : Warrior) (rest : list Warrior) :
  collide p (enemy :: rest) =
    if hittable p enemy then Some (takeDamage (p_damage p) enemy :: rest)
    else cons enemy <$> collide p rest.
Proof.
  cbn [collide]. unfold hittable.
  destruct (w_alive enemy); cbn [negb orb andb]; [| reflexivity].
  destruct (bool_decide _); cbn [negb andb]; [reflexivity |].
  destruct (Rleb _ _); reflexivity.
Qed.

(** The first warrior that passes the test takes the damage. *)
Lemma collide_first (p : Projectile) (ws : list Warrior) (k : nat)
    (enemy : Warrior) :
  ws !! k = Some enemy ->
  hittable p enemy = true ->
  (forall k' e', (k' < k)%nat -> ws !! k' = Some e' -> hittable p e' = false) ->
  collide p ws = Some (alter (takeDamage (p_damage p)) k ws).
Proof.
  revert k. induction ws as [| w rest IH]; intros k Hk Hhit Hfirst.
  - discriminate.
  - rewrite collide_cons. destruct k as [| k]; cbn in Hk.
    + injection Hk as ->. now rewrite Hhit.
    + rewrite (Hfirst O w) by (try lia; reflexivity).
      rewrite (IH k Hk Hhit); [reflexivity |].
      intros k' e' Hlt He'. apply (Hfirst (S k') e'); [lia | exact He'].
Qed.

Lemma collide_none (p : Projectile) (ws : list Warrior) :
  Forall (fun w => hittable p w = false) ws -> collide p ws = None.
Proof.
  induction 1 as [| w rest Hw _ IH]; [reflexivity |].
  now rewrite collide_cons, Hw, IH.
Qed.

Lemma hittable_set_p_alive (b : bool) (p : Projectile) (w : Warrior) :
  hittable (set_p_alive b p) w = hittable p w.
Proof. reflexivity. Qed.

Lemma collide_set_p_alive (b : bool) (p : Projectile) (ws : list Warrior) :
  collide (set_p_alive b p) ws = collide p ws.
Proof.
  induction ws as [| w rest IH]; [reflexivity |].
  now rewrite !collide_cons, hittable_set_p_alive, IH.
Qed.

Lemma collide_friendly (p : Projectile) (ws ws' : list Warrior) :
  collide p ws = Some ws' ->
  Forall2 (fun w w' => w_type w = p_ownerType p -> w' = w) ws ws'.
Proof.
  revert ws'. induction ws as [| w rest IH]; intros ws' H.
  - discriminate.
  - rewrite collide_cons in H. destruct (hittable p w) eqn:Hh.
    + injection H as <-. constructor.
      * intros Ht. unfold hittable in Hh.
        rewrite (bool_decide_eq_true_2 _ Ht) in Hh.
        destruct (w_alive w); discriminate.
      * apply Forall_Forall2_diag, Forall_forall. auto.
    + destruct (collide p rest) as [r |]; [| discriminate].
      injection H as <-. constructor; auto.
Qed.

(** C2.  No friendly fire: whatever the state, the update of a
    projectile leaves every warrior of its owner's type exactly as it
    was, so in particular it never lowers that warrior's hit points. *)
Theorem no_friendly_fire (dt : R) (p : Projectile) (ws : list Warrior)
    (i : nat) (w : Warrior) :
  ws !! i = Some w ->
  w_type w = p_ownerType p ->
  snd (Projectile_update dt p ws) !! i = Some w.
Proof.
  intros Hi Ht. unfold Projectile_update. cbn zeta.
  destruct (Rgeb _ _); [exact Hi |].
  match goal with
  | |- context [collide ?q ws] => destruct (collide q ws) as [ws' |] eqn:Hc
  end; cbn [snd]; [| exact Hi].
  apply collide_friendly in Hc.
  destruct (Forall2_lookup_l _ _ _ _ _ Hc Hi) as (w' & Hw' & Hsame).
  rewrite Hw'. f_equal. apply Hsame.
  destruct (Rgeb _ _); exact Ht.
Qed.

(** *** The arena boundary *)

Lemma size_le_16 (t : WType) : size (TYPE_CONFIG t) <= 16.
Proof. destruct t; cbn; lra. Qed.

(** In exact arithmetic the clamp lands within the limit circle.  The
    rounded product of the source need not; what is stated of the
    engine below is the margin this leaves to the arena circle. *)
Lemma clampInsideArena_inside (w : Warrior) :
  size (w_config w) <= ARENA_RADIUS -> inside_arena (clampInsideArena w).
Proof.
  intros Hsz. unfold inside_arena, clampInsideArena. cbn zeta.
  set (dx := w_x w - CENTER_x). set (dy := w_y w - CENTER_y).
  set (maxDist := ARENA_RADIUS - size (w_config w)).
  assert (Hmax : 0 <= maxDist) by (unfold maxDist; lra).
  unfold Rgtb. destruct (Rltb maxDist (hypot dx dy)) eqn:E.
  - apply Rltb_spec in E. cbn.
    replace (CENTER_x + dx * (maxDist / hypot dx dy) - CENTER_x)
      with (dx * (maxDist / hypot dx dy)) by ring.
    replace (CENTER_y + dy * (maxDist / hypot dx dy) - CENTER_y)
      with (dy * (maxDist / hypot dx dy)) by ring.
    rewrite hypot_scale.
    assert (Hpos : 0 < hypot dx dy) by lra.
    rewrite Rabs_right.
    + unfold w_config. cbn. fold (w_config w). fold maxDist.
      apply Req_le. field. lra.
    + apply Rle_ge. apply Rmult_le_pos; [exact Hmax |].
      apply Rlt_le, Rinv_0_lt_compat, Hpos.
  - apply Rltb_nspec in E. fold dx dy maxDist. exact E.
Qed.

Lemma hypot_cos_sin (theta : R) : hypot (cos theta) (sin theta) = 1.
Proof.
  apply hypot_val; [lra |].
  pose proof (sin2_cos2 theta) as H. unfold Rsqr in H. lra.
Qed.

(** Every seeded warrior starts at least 50 inside the rim. *)
Lemma randomPoint_inside (type : WType) (draw1 draw2 heading : R) :
  0 <= draw2 < 1 -> 50 <= ARENA_RADIUS ->
  inside_arena
    (new_Warrior type (fst (randomPoint draw1 draw2))
       (snd (randomPoint draw1 draw2)) heading).
Proof.
  intros [H0 H1] HR. unfold inside_arena, randomPoint. cbn.
  set (theta := draw1 * PI * 2).
  set (radius := sqrt draw2 * (ARENA_RADIUS - 50)).
  replace (CENTER_x + cos theta * radius - CENTER_x)
    with (cos theta * radius) by ring.
  replace (CENTER_y + sin theta * radius - CENTER_y)
    with (sin theta * radius) by ring.
  rewrite hypot_scale, hypot_cos_sin, Rmult_1_r.
  assert (Hs : 0 <= sqrt draw2 <= 1).
  { split; [apply sqrt_pos |].
    rewrite <- sqrt_1. apply sqrt_le_1_alt. lra. }
  assert (Hr : 0 <= radius <= ARENA_RADIUS - 50) by (unfold radius; nra).
  rewrite Rabs_right by lra.
  pose proof (size_le_16 type). unfold w_config. cbn. lra.
Qed.

Lemma Projectile_update_alive_inside (dt : R) (p : Projectile)
    (ws : list Warrior) :
  p_alive (fst (Projectile_update dt p ws)) = true ->
  projectile_inside (fst (Projectile_update dt p ws)).
Proof.
  unfold Projectile_update. cbn zeta.
  destruct (Rgeb _ _); [discriminate |].
  destruct (Rgeb (hypot _ _) ARENA_RADIUS) eqn:E; unfold Rgeb in E.
  - destruct (collide _ ws); cbn; discriminate.
  - apply Rleb_nspec in E.
    destruct (collide _ ws); cbn [fst]; [discriminate |].
    intros _. exact E.
Qed.

Lemma projectiles_forEach_alive_inside (dt : R) (ps : list Projectile)
    (ws : list Warrior) :
  Forall (fun p => p_alive p = true -> projectile_inside p)
    (fst (projectiles_forEach dt ps ws)).
Proof.
  revert ws. induction ps as [| p rest IH]; intros ws; cbn.
  - constructor.
  - pose proof (Projectile_update_alive_inside dt p ws) as H1.
    destruct (Projectile_update dt p ws) as [p' ws1].
    pose proof (IH ws1) as H2.
    destruct (projectiles_forEach dt rest ws1) as [rest' ws2].
    cbn in *. constructor; assumption.
Qed.

(** *** With a margin *)

Lemma hypot_sq (a b : R) : hypot a b * hypot a b = a * a + b * b.
Proof. unfold hypot. apply sqrt_sqrt. nra. Qed.

Lemma size_pos (t : WType) : 0 < size (TYPE_CONFIG t).
Proof. destruct t; cbn; lra. Qed.

Lemma inside_arena_within_circle (w : Warrior) :
  inside_arena w -> within_circle w.
Proof.
  unfold inside_arena, within_circle, w_config.
  pose proof (size_pos (w_type w)). lra.
Qed.

(** Where the clamp puts a warrior is less than a pixel beyond its
    limit circle, and so strictly inside the arena circle. *)
Lemma clampInsideArena_near_limit (w : Warrior) :
  size (w_config w) <= ARENA_RADIUS ->
  hypot (w_x (clampInsideArena w) - CENTER_x)
        (w_y (clampInsideArena w) - CENTER_y)
    < ARENA_RADIUS - size (w_config w) + 1 /\
  within_circle (clampInsideArena w).
Proof.
  intros Hsz.
  pose proof (clampInsideArena_inside w Hsz) as Hin.
  split.
  - unfold inside_arena, w_config in Hin.
    destruct (clampInsideArena_fields w) as (Hty & _).
    rewrite Hty in Hin. fold (w_config w) in Hin. lra.
  - now apply inside_arena_within_circle.
Qed.

Lemma steer_within_circle (dt : R) (i : nat) (self target : Warrior)
    (wd : World) :
  16 <= ARENA_RADIUS ->
  within_circle self -> within_circle (steer dt i self target wd).
Proof.
  intros HR Hin. unfold steer. cbn zeta.
  destruct (direction _ _ _ _ _ _ _) as [dirX dirY].
  destruct (shouldMove _ _ _).
  - apply inside_arena_within_circle, clampInsideArena_inside.
    unfold w_config. cbn.
    pose proof (size_le_16 (w_type self)). lra.
  - exact Hin.
Qed.

Lemma simulate_within_circle (dt : R) (wd : World) :
  16 <= ARENA_RADIUS ->
  Forall within_circle (warriors wd) ->
  Forall within_circle (warriors (simulate dt wd)).
Proof.
  intros HR. apply simulate_inv.
  - intros w _. unfold within_circle.
    destruct (decay_timers_fields dt w) as (_ & -> & -> & _). auto.
  - intros i self target wd' _. now apply steer_within_circle.
  - intros a w _. unfold within_circle.
    destruct (takeDamage_fields a w) as (_ & -> & -> & _). auto.
  - intros t w _. auto.
  - intros t w _. unfold within_circle.
    destruct (after_melee_hit_fields t w) as (_ & -> & -> & _). auto.
Qed.

Lemma update_within_circle (ts : R) (s : State) :
  16 <= ARENA_RADIUS ->
  Forall within_circle (warriors (st_world s)) ->
  Forall within_circle (warriors (st_world (update ts s))).
Proof.
  intros HR H. destruct (running s) eqn:Hr.
  - rewrite update_running_world by exact Hr.
    eapply Forall_impl; [apply prune_warriors_Forall |].
    + apply simulate_within_circle; [exact HR | exact H].
    + cbn. tauto.
  - now rewrite update_not_running.
Qed.


Lemma Projectile_update_young (dt : R) (p : Projectile) (ws : list Warrior) :
  p_life p + dt < p_maxLife p ->
  Projectile_update dt p ws =
    let p2 := moved dt p in
    let p3 :=
      if Rgeb (hypot (p_x p2 - CENTER_x) (p_y p2 - CENTER_y)) ARENA_RADIUS
      then set_p_alive false p2 else p2 in
    match collide p3 ws with
    | Some ws' => (set_p_alive false p3, ws')
    | None => (p3, ws)
    end.
Proof.
  intros Hage. unfold Projectile_update. cbn zeta.
  unfold Rgeb at 1. rewrite Rleb_false by (cbn; exact Hage). reflexivity.
Qed.

Lemma Projectile_update_old (dt : R) (p : Projectile) (ws : list Warrior) :
  p_maxLife p <= p_life p + dt ->
  Projectile_update dt p ws
    = (set_p_alive false (set_p_life (p_life p + dt) p), ws).
Proof.
  intros Hage. unfold Projectile_update. cbn zeta.
  unfold Rgeb. rewrite Rleb_true by (cbn; exact Hage). reflexivity.
Qed.


(** *** Timers and hit points *)

Lemma cfg_cooldown_pos (t : WType) : 0 < cfg_cooldown (TYPE_CONFIG t).
Proof. destruct t; cbn; lra. Qed.

Lemma decay_timers_ok (dt : R) (w : Warrior) :
  timers_ok w -> timers_ok (decay_timers dt w).
Proof.
  intros [Hc Hr]. unfold timers_ok, decay_timers. cbn zeta.
  destruct (Rgtb _ _); cbn; split; try apply Rmax_l; exact Hr.
Qed.

Lemma simulate_timers_ok (dt : R) (wd : World) :
  Forall timers_ok (warriors wd) ->
  Forall timers_ok (warriors (simulate dt wd)).
Proof.
  apply simulate_inv.
  - intros w _. apply decay_timers_ok.
  - intros i self target wd' _. unfold timers_ok.
    destruct (steer_fields dt i self target wd') as (_ & _ & _ & -> & ->).
    auto.
  - intros a w _. unfold timers_ok.
    destruct (takeDamage_fields a w) as (_ & _ & _ & _ & -> & ->). auto.
  - intros t w _ [_ Hr]. split; cbn; [| exact Hr].
    apply Rlt_le, cfg_cooldown_pos.
  - intros t w _ [_ Hr]. unfold timers_ok, after_melee_hit. cbn zeta.
    pose proof (cfg_cooldown_pos (w_type w)) as Hc.
    destruct (bool_decide (w_type w = circle)); cbn.
    + split; [unfold w_config; lra |].
      destruct (bool_decide _); lra.
    + split; [unfold w_config; lra | exact Hr].
Qed.

(** C9 as the code has it.  Hit points are not clamped: [takeDamage]
    subtracts and may leave a negative value, which only sets [alive]
    to false.  What a frame guarantees is that the warriors left in the
    roster have positive hit points, and that cooldown and retreat
    timer stay non-negative, whatever the time step. *)
Theorem hp_unclamped_timers_clamped :
  (forall a w, w_hp (takeDamage a w) = w_hp w - a) /\
  (forall ts s,
     running s = true ->
     Forall alive_iff_hp (warriors (st_world s)) ->
     Forall (fun w => 0 < w_hp w) (warriors (st_world (update ts s)))) /\
  (forall ts s,
     Forall timers_ok (warriors (st_world s)) ->
     Forall timers_ok (warriors (st_world (update ts s)))).
Proof.
  split; [| split].
  - intros a w. now destruct (takeDamage_fields a w) as (_ & _ & _ & -> & _).
  - intros ts s Hr H. rewrite update_running_world by exact Hr.
    eapply Forall_impl; [apply prune_warriors_Forall |].
    + apply simulate_alive_iff_hp, H.
    + cbn. intros w [Hinv Ha]. now apply Hinv.
  - intros ts s H. destruct (running s) eqn:Hr.
    + rewrite update_running_world by exact Hr.
      eapply Forall_impl; [apply prune_warriors_Forall |].
      * apply simulate_timers_ok, H.
      * cbn. tauto.
    + now rewrite update_not_running.
Qed.

(** *** The end of a battle *)

Lemma terminal_update_stops (ts : R) (s : State) :
  terminal (update ts s) -> running (update ts s) = false.
Proof.
  destruct (running s) eqn:Hr.
  - unfold terminal, update. rewrite Hr. cbn [negb].
    set (wd := prune _).
    destruct (determineVictor _ _) as [over winner] eqn:Hd.
    cbn [st_world running]. intros Hterm.
    unfold determineVictor in Hd.
    apply Nat.leb_le in Hterm. rewrite Hterm in Hd.
    destruct (livingTypes _); injection Hd as <- _; reflexivity.
  - rewrite update_not_running by exact Hr. intros _. exact Hr.
Qed.

Lemma updates_not_running (tss : list R) (s : State) :
  running s = false -> fold_left (fun s t => update t s) tss s = s.
Proof.
  intros Hr. induction tss as [| t tss IH]; cbn; [reflexivity |].
  now rewrite update_not_running.
Qed.

(** C8.  Once a frame ends with at most one type alive, the battle is
    stopped: every later call of [update], with any timestamps, returns
    the state unchanged, so neither the alive counts nor the winner
    change again. *)
Theorem terminal_frames_are_noops (ts : R) (s : State) (tss : list R) :
  terminal (update ts s) ->
  let s' := update ts s in
  let s'' := fold_left (fun s t => update t s) tss s' in
  s'' = s' /\
  updateStats (warriors (st_world s'')) = updateStats (warriors (st_world s'))
  /\ winnerType s'' = winnerType s'.
Proof.
  intros Hterm s' s''. subst s' s''.
  rewrite updates_not_running by now apply terminal_update_stops.
  auto.
Qed.

(** ** One warrior's turn, step by step *)

Lemma findTarget_step_skipped (i : nat) (self : Warrior)
    (acc : option (nat * Warrior * R)) (k : nat) (e : Warrior) :
  skipped i self k e -> findTarget_step i self acc k e = acc.
Proof.
  unfold skipped, findTarget_step. intros [-> | [Hd | Ht]].
  - now rewrite Nat.eqb_refl.
  - rewrite Hd. cbn. now rewrite orb_true_r.
  - rewrite (bool_decide_eq_true_2 _ Ht). now rewrite !orb_true_r.
Qed.

Lemma ifold_findTarget_skipped (i : nat) (self : Warrior) (l : list Warrior)
    (k : nat) (acc : option (nat * Warrior * R)) :
  (forall m e, l !! m = Some e -> skipped i self (k + m) e) ->
  ifold (findTarget_step i self) k l acc = acc.
Proof.
  revert k. induction l as [| e rest IH]; intros k H; cbn; [reflexivity |].
  rewrite findTarget_step_skipped.
  - apply IH. intros m e' Hm.
    replace (S k + m)%nat with (k + S m)%nat by lia. now apply H.
  - specialize (H O e eq_refl). now rewrite Nat.add_0_r in H.
Qed.

Lemma ifold_findTarget_only (i : nat) (self : Warrior) (l : list Warrior)
    (k j : nat) (t : Warrior) :
  l !! j = Some t ->
  (k + j)%nat <> i -> w_alive t = true -> w_type t <> w_type self ->
  (forall m e, m <> j -> l !! m = Some e -> skipped i self (k + m) e) ->
  ifold (findTarget_step i self) k l None
    = Some ((k + j)%nat, t, distanceTo self t).
Proof.
  revert k j. induction l as [| e rest IH]; intros k j Hj Hne Ha Ht Hothers.
  - discriminate.
  - destruct j as [| j]; cbn in Hj; cbn [ifold].
    + injection Hj as ->. rewrite Nat.add_0_r in *.
      unfold findTarget_step at 2.
      rewrite (proj2 (Nat.eqb_neq k i) Hne), Ha.
      rewrite (bool_decide_eq_false_2 _ Ht). cbn [negb orb].
      apply ifold_findTarget_skipped. intros m e' Hm.
      replace (S k + m)%nat with (k + S m)%nat by lia.
      apply Hothers; [lia | exact Hm].
    + rewrite findTarget_step_skipped.
      * replace (k + S j)%nat with (S k + j)%nat in * by lia.
        apply IH; auto. intros m e' Hmj Hm.
        replace (S k + m)%nat with (k + S m)%nat by lia.
        apply Hothers; [lia | exact Hm].
      * specialize (Hothers O e). rewrite Nat.add_0_r in Hothers.
        apply Hothers; [lia | reflexivity].
Qed.

(** With a single living warrior of another type in the roster,
    [findTarget] returns it. *)
Lemma findTarget_only (i : nat) (self : Warrior) (ws : list Warrior)
    (j : nat) (t : Warrior) :
  ws !! j = Some t ->
  j <> i -> w_alive t = true -> w_type t <> w_type self ->
  (forall m e, m <> j -> ws !! m = Some e -> skipped i self m e) ->
  findTarget i self ws = Some (j, t).
Proof.
  intros Hj Hne Ha Ht Hothers. unfold findTarget.
  rewrite (ifold_findTarget_only i self ws 0 j t); auto.
Qed.

Lemma decay_timers_idle (dt : R) (w : Warrior) :
  w_wantRetreat w <= 0 ->
  decay_timers dt w = set_cooldown (Rmax 0 (w_cooldown w - dt)) w.
Proof.
  intros H. unfold decay_timers. cbn zeta. unfold Rgtb.
  now rewrite Rltb_false by (cbn; exact H).
Qed.

Lemma Warrior_update_step (dt : R) (i : nat) (wd : World) (this : Warrior)
    (j : nat) (target : Warrior) :
  warriors wd !! i = Some this ->
  w_alive this = true ->
  findTarget i (decay_timers dt this)
    (warriors (mutate i (decay_timers dt) wd)) = Some (j, target) ->
  Warrior_update dt i wd =
    attemptAttack i (Some j)
      (mutate i
         (fun self => steer dt i self target (mutate i (decay_timers dt) wd))
         (mutate i (decay_timers dt) wd)).
Proof.
  intros Hi Ha Hf. unfold Warrior_update. now rewrite Hi, Ha, Hf.
Qed.

Lemma steer_hold (dt : R) (i : nat) (self target : Warrior) (wd : World) :
  shouldMove self target
    (num_or (hypot (w_x target - w_x self) (w_y target - w_y self)) 1)
    = false ->
  w_x (steer dt i self target wd) = w_x self /\
  w_y (steer dt i self target wd) = w_y self.
Proof.
  intros H. unfold steer. cbn zeta. rewrite H.
  destruct (direction _ _ _ _ _ _ _) as [dirX dirY]. cbn. auto.
Qed.

Lemma clampInsideArena_noop (w : Warrior) :
  inside_arena w -> clampInsideArena w = w.
Proof.
  intros H. unfold clampInsideArena. cbn zeta. unfold Rgtb.
  now rewrite Rltb_false by exact H.
Qed.

(** The threat radius of the triangle is 56 and its engage range 60:
    between the two it holds still. *)
Lemma shouldMove_triangle (self target : Warrior) (dist : R) :
  w_type self = triangle ->
  shouldMove self target dist = Rltb dist 56 || Rgtb dist 60.
Proof.
  intros Ht. unfold shouldMove, w_config. rewrite Ht. cbn.
  replace (40 * (14 / 10)) with 56 by lra. reflexivity.
Qed.

(** [attemptAttack] for a triangle: it fires exactly when the target
    lives, the cooldown has run out and the target is within range. *)
Lemma attemptAttack_ranged (i j : nat) (wd : World) (self target : Warrior) :
  warriors wd !! i = Some self ->
  warriors wd !! j = Some target ->
  w_type self = triangle ->
  attemptAttack i (Some j) wd =
    if w_alive target && negb (Rgtb (w_cooldown self) 0)
       && Rleb (distanceTo self target) (range (w_config self))
    then mutate i (set_cooldown (cfg_cooldown (w_config self)))
           (fireProjectile self target wd)
    else wd.
Proof.
  intros Hi Hj Ht. unfold attemptAttack. rewrite Hi. cbn [mbind option_bind].
  rewrite Hj. cbn [fmap option_fmap option_map].
  rewrite (bool_decide_eq_true_2 _ Ht).
  destruct (w_alive target); cbn [negb orb andb]; [| reflexivity].
  destruct (Rgtb (w_cooldown self) 0); cbn [negb andb]; reflexivity.
Qed.

(** [attemptAttack] for the melee types. *)
Lemma attemptAttack_melee (i j : nat) (wd : World) (self target : Warrior) :
  warriors wd !! i = Some self ->
  warriors wd !! j = Some target ->
  w_type self <> triangle ->
  attemptAttack i (Some j) wd =
    if w_alive target && negb (Rgtb (w_cooldown self) 0)
       && Rleb (distanceTo self target)
            (Rmax (range (w_config self))
               (size (w_config self) + size (w_config target)))
    then mutate i (after_melee_hit target)
           (mutate j (takeDamage (damage (w_config self))) wd)
    else wd.
Proof.
  intros Hi Hj Ht. unfold attemptAttack. rewrite Hi. cbn [mbind option_bind].
  rewrite Hj. cbn [fmap option_fmap option_map].
  rewrite (bool_decide_eq_false_2 _ Ht).
  destruct (w_alive target); cbn [negb orb andb]; [| reflexivity].
  destruct (Rgtb (w_cooldown self) 0); cbn [negb andb]; reflexivity.
Qed.

(** C5 as the code has it.  A triangle's [attemptAttack] goes through
    the same guard as everybody's.  With cooldown remaining, with a
    dead target, or with the target beyond the engage range, it
    returns and leaves everything as it is.  Otherwise (target alive,
    cooldown not positive, distance at most the range) it fires: the
    list of projectiles grows by one, which starts at the triangle's
    place, alive and aged zero, with the triangle's type and damage and
    a velocity of 260 along the line to the target; the triangle's
    cooldown is set to its full 0.8 s; nothing else changes. *)
Theorem ranged_attack_waits_for_cooldown (i j : nat) (wd : World)
    (self target : Warrior) :
  warriors wd !! i = Some self ->
  warriors wd !! j = Some target ->
  w_type self = triangle ->
  (0 < w_cooldown self -> attemptAttack i (Some j) wd = wd) /\
  (w_alive target = false -> attemptAttack i (Some j) wd = wd) /\
  (range (w_config self) < distanceTo self target ->
   attemptAttack i (Some j) wd = wd) /\
  (w_alive target = true -> w_cooldown self <= 0 ->
   distanceTo self target <= range (w_config self) ->
   let wd' := attemptAttack i (Some j) wd in
   let dx := w_x target - w_x self in
   let dy := w_y target - w_y self in
   let dist := num_or (hypot dx dy) 1 in
   (exists p,
      projectiles wd' = projectiles wd ++ [p] /\
      p_alive p = true /\ p_life p = 0 /\
      p_x p = w_x self /\ p_y p = w_y self /\
      p_ownerType p = triangle /\ p_damage p = 7 /\
      p_vx p = dx / dist * 260 /\ p_vy p = dy / dist * 260) /\
   warriors wd' = <[i := set_cooldown (8 / 10) self]> (warriors wd)).
Proof.
  intros Hi Hj Ht. rewrite (attemptAttack_ranged i j wd self target Hi Hj Ht).
  split; [| split; [| split]].
  - intros Hc. unfold Rgtb. rewrite (Rltb_true _ _ Hc).
    now rewrite andb_false_r.
  - intros Ha. now rewrite Ha.
  - intros Hd. rewrite (Rleb_false _ _ Hd). now rewrite andb_false_r.
  - intros Ha Hc Hd. cbn zeta. unfold Rgtb.
    rewrite Ha, (Rltb_false _ _ Hc), (Rleb_true _ _ Hd). cbn [negb andb].
    split.
    + exists (new_Projectile self target).
      unfold mutate, fireProjectile, new_Projectile, w_config.
      cbn [projectiles warriors p_alive p_life p_x p_y p_ownerType p_damage
           p_vx p_vy].
      rewrite Ht. cbn. repeat split; reflexivity.
    + unfold mutate, fireProjectile, w_config. cbn [warriors].
      rewrite Ht. cbn [TYPE_CONFIG cfg_cooldown].
      apply list_eq. intros k.
      destruct (decide (k = i)) as [-> | Hne].
      * rewrite list_lookup_alter_eq, Hi.
        rewrite list_lookup_insert_eq; [reflexivity |].
        apply lookup_lt_Some in Hi. exact Hi.
      * rewrite list_lookup_alter_ne by auto.
        now rewrite list_lookup_insert_ne by auto.
Qed.

(** A melee warrior outside a retreat window that is not yet in
    contact walks straight at its target. *)
Lemma steer_charge (dt : R) (i : nat) (self target : Warrior) (wd : World) :
  w_type self <> triangle ->
  (w_type self = circle -> w_wantRetreat self <= 0) ->
  let dx := w_x target - w_x self in
  let dy := w_y target - w_y self in
  let dist := num_or (hypot dx dy) 1 in
  size (w_config self) + size (w_config target) < dist ->
  steer dt i self target wd =
    clampInsideArena
      (set_pos (w_x self + dx / dist * (speed (w_config self) * dt))
               (w_y self + dy / dist * (speed (w_config self) * dt))
               (set_heading (atan2 (dy / dist) (dx / dist)) self)).
Proof.
  intros Ht Hr dx dy dist Hfar.
  assert (Hretreat : bool_decide (w_type self = circle)
                     && Rgtb (w_wantRetreat self) 0 = false).
  { destruct (bool_decide_reflect (w_type self = circle)) as [Hc | Hc];
      [| reflexivity].
    unfold Rgtb. now rewrite (Rltb_false _ _ (Hr Hc)). }
  unfold steer. cbn zeta. fold dx dy dist.
  unfold shouldMove, direction, turn.
  rewrite (bool_decide_eq_false_2 _ Ht), Hretreat.
  unfold Rgtb at 1. rewrite (Rltb_true _ _ Hfar). reflexivity.
Qed.

(** *** The kiter's band *)

Lemma ifold_fixed {A B : Type} (f : B -> nat -> A -> B) (l : list A)
    (k : nat) (b : B) :
  (forall m a, l !! m = Some a -> f b (k + m)%nat a = b) ->
  ifold f k l b = b.
Proof.
  revert k. induction l as [| a rest IH]; intros k H; cbn; [reflexivity |].
  pose proof (H O a eq_refl) as H0. rewrite Nat.add_0_r in H0. rewrite H0.
  apply IH. intros m a' Hm.
  replace (S k + m)%nat with (k + S m)%nat by lia. now apply H.
Qed.

Lemma fold_left_fixed {A B : Type} (f : B -> A -> B) (l : list A) (b : B) :
  Forall (fun a => f b a = b) l -> fold_left f l b = b.
Proof.
  induction 1 as [| a rest Ha _ IH]; cbn; [reflexivity |]. now rewrite Ha.
Qed.

Lemma evade_projectile_step_no_threat (self : Warrior) (acc : R * R)
    (p : Projectile) :
  no_threat self p -> evade_projectile_step self acc p = acc.
Proof.
  unfold no_threat, evade_projectile_step. intros [Hd | [Ho | Hfar]].
  - now rewrite Hd.
  - rewrite (bool_decide_eq_true_2 _ Ho). now rewrite orb_true_r.
  - destruct (_ || _); [reflexivity |].
    now rewrite (Rltb_false _ _ Hfar).
Qed.

Lemma evade_enemy_step_far (i : nat) (self : Warrior) (acc : R * R)
    (k : nat) (e : Warrior) :
  skipped i self k e \/
  evadeRadius <= hypot (w_x e - w_x self) (w_y e - w_y self) ->
  evade_enemy_step i self acc k e = acc.
Proof.
  unfold skipped, evade_enemy_step. intros [[-> | [Hd | Ht]] | Hfar].
  - rewrite Nat.eqb_refl. now rewrite orb_true_r.
  - now rewrite Hd.
  - rewrite (bool_decide_eq_true_2 _ Ht). cbn. now rewrite orb_true_r.
  - destruct (_ || _); [reflexivity |].
    now rewrite (Rltb_false _ _ Hfar).
Qed.

(** Nothing within [evadeRadius]: no evasion. *)
Lemma evade_vector_calm (i : nat) (self : Warrior) (wd : World) :
  (forall m e, warriors wd !! m = Some e ->
     skipped i self m e \/
     evadeRadius <= hypot (w_x e - w_x self) (w_y e - w_y self)) ->
  Forall (no_threat self) (projectiles wd) ->
  evade_vector i self wd = (0, 0).
Proof.
  intros Hw Hp. unfold evade_vector.
  rewrite ifold_fixed.
  - apply fold_left_fixed. eapply Forall_impl; [exact Hp |].
    intros p. apply evade_projectile_step_no_threat.
  - intros m e Hm. apply evade_enemy_step_far. cbn [Nat.add]. now apply Hw.
Qed.

Lemma triangle_direction_calm (i : nat) (self : Warrior) (wd : World)
    (dx dy dist : R) (move : bool) :
  w_type self = triangle ->
  evade_vector i self wd = (0, 0) ->
  55 < dist ->
  triangle_direction i self wd dx dy dist move = (dx / dist, dy / dist).
Proof.
  intros Ht He Hd. unfold triangle_direction. rewrite He.
  unfold w_config. rewrite Ht. cbn [TYPE_CONFIG pref_band preferred pmin pmax].
  rewrite Rltb_false by lra. rewrite Rleb_false by lra. cbn [andb].
  unfold Rgtb. rewrite Rabs_R0. rewrite Rltb_false by lra. reflexivity.
Qed.

Lemma clampInsideArena_pos_ext (w1 w2 : Warrior) :
  w_type w1 = w_type w2 -> w_x w1 = w_x w2 -> w_y w1 = w_y w2 ->
  w_x (clampInsideArena w1) = w_x (clampInsideArena w2) /\
  w_y (clampInsideArena w1) = w_y (clampInsideArena w2).
Proof.
  intros Ht Hx Hy. unfold clampInsideArena, w_config. cbn zeta.
  rewrite Ht, Hx, Hy. destruct (Rgtb _ _); cbn; auto.
Qed.

Lemma attemptAttack_same_place (i j : nat) (wd : World) :
  Forall2 same_place (warriors wd) (warriors (attemptAttack i (Some j) wd)).
Proof.
  assert (Hrefl : Reflexive same_place) by (intros w; split; reflexivity).
  assert (Htrans : Transitive same_place).
  { intros a b c [H1 H2] [H3 H4]. split; congruence. }
  unfold attemptAttack.
  destruct (warriors wd !! i) as [self |] eqn:Hi; [| reflexivity].
  cbn [mbind option_bind].
  destruct (warriors wd !! j) as [target |] eqn:Hj;
    cbn [fmap option_fmap option_map]; [| reflexivity].
  destruct (_ || _); [reflexivity |].
  destruct (bool_decide _).
  - destruct (Rleb _ _); [| reflexivity].
    apply (mutate_rel same_place); [reflexivity |].
    intros y _. split; reflexivity.
  - destruct (Rleb _ _); [| reflexivity].
    apply (mutate_rel same_place).
    + apply (mutate_rel same_place); [reflexivity |].
      intros y _. unfold same_place.
      now destruct (takeDamage_fields (damage (w_config self)) y)
        as (_ & -> & -> & _).
    + intros y _. unfold same_place.
      now destruct (after_melee_hit_fields target y) as (_ & -> & -> & _).
Qed.

(** Where the turn of [warriors[i]] leaves it, given its target. *)
Lemma Warrior_update_place (dt : R) (i j : nat) (wd : World)
    (this target : Warrior) :
  warriors wd !! i = Some this -> w_alive this = true ->
  warriors wd !! j = Some target -> j <> i ->
  w_alive target = true -> w_type target <> w_type this ->
  only_enemy i j this (warriors wd) ->
  exists this',
    warriors (Warrior_update dt i wd) !! i = Some this' /\
    same_place
      (steer dt i (decay_timers dt this) target
         (mutate i (decay_timers dt) wd)) this'.
Proof.
  intros Hi Ha Hj Hji Hta Htt Honly.
  destruct (decay_timers_fields dt this) as (Hdt & Hdx & Hdy & _ & _).
  rewrite (Warrior_update_step dt i wd this j target Hi Ha).
  - match goal with
    | |- context [attemptAttack i (Some j) ?w] =>
        pose proof (attemptAttack_same_place i j w) as H
    end.
    eapply Forall2_lookup_l in H as (this' & Hthis' & Hsame).
    + exists this'. split; [exact Hthis' | exact Hsame].
    + cbn. rewrite !list_lookup_alter_eq, Hi. reflexivity.
  - apply findTarget_only; auto.
    + cbn. now rewrite list_lookup_alter_ne by auto.
    + congruence.
    + intros m e Hmj Hm. cbn in Hm.
      destruct (decide (m = i)) as [-> | Hmi]; [now left |].
      rewrite list_lookup_alter_ne in Hm by auto.
      destruct (Honly m e Hmj Hm) as [? | [? | ?]]; [now left | | ].
      * right. now left.
      * right. right. congruence.
Qed.

Lemma triangle_direction_strafe (i : nat) (self : Warrior) (wd : World)
    (dx dy dist : R) :
  w_type self = triangle ->
  evade_vector i self wd = (0, 0) ->
  40 <= dist <= 55 ->
  triangle_direction i self wd dx dy dist true = (- (dy / dist), dx / dist).
Proof.
  intros Ht He Hd. unfold triangle_direction. rewrite He.
  unfold w_config. rewrite Ht. cbn [TYPE_CONFIG pref_band preferred pmin pmax].
  rewrite Rltb_false by lra. rewrite Rleb_true by lra. cbn [andb].
  unfold Rgtb. rewrite Rabs_R0. rewrite Rltb_false by lra. reflexivity.
Qed.

(** Where a triangle that nothing threatens goes, by the distance
    [dist] to its target: between the threat radius (56) and the
    engage range (60) it stays; beyond the range, and between
    [preferred.max] (55) and the threat radius, it steps straight at
    the target; from [preferred.min] (40) to [preferred.max] it steps
    at a right angle to the line to the target. *)
Lemma kiter_steer (dt : R) (i : nat) (self target : Warrior) (wd : World) :
  w_type self = triangle ->
  let dx := w_x target - w_x self in
  let dy := w_y target - w_y self in
  let dist := num_or (hypot dx dy) 1 in
  (56 <= dist <= 60 -> same_place self (steer dt i self target wd)) /\
  (55 < dist < 56 \/ 60 < dist -> evade_vector i self wd = (0, 0) ->
   let stepped :=
     set_pos (w_x self + dx / dist * (90 * dt))
             (w_y self + dy / dist * (90 * dt)) self in
   w_x (steer dt i self target wd) = w_x (clampInsideArena stepped) /\
   w_y (steer dt i self target wd) = w_y (clampInsideArena stepped)) /\
  (40 <= dist <= 55 -> evade_vector i self wd = (0, 0) ->
   let stepped :=
     set_pos (w_x self + - (dy / dist) * (90 * dt))
             (w_y self + dx / dist * (90 * dt)) self in
   w_x (steer dt i self target wd) = w_x (clampInsideArena stepped) /\
   w_y (steer dt i self target wd) = w_y (clampInsideArena stepped)).
Proof.
  intros Ht dx dy dist.
  assert (Hsp : speed (w_config self) = 90)
    by (unfold w_config; now rewrite Ht).
  assert (Hnc : bool_decide (w_type self = circle) = false)
    by (apply bool_decide_eq_false_2; rewrite Ht; discriminate).
  assert (Htri : bool_decide (w_type self = triangle) = true)
    by (now apply bool_decide_eq_true_2).
  split; [| split].
  - intros [Hlo Hhi].
    destruct (steer_hold dt i self target wd) as [Sx Sy].
    + rewrite shouldMove_triangle by exact Ht. fold dx dy dist.
      unfold Rgtb. now rewrite !Rltb_false by lra.
    + split; assumption.
  - intros Hd Hcalm stepped.
    assert (Hmove : shouldMove self target dist = true).
    { rewrite shouldMove_triangle by exact Ht. unfold Rgtb.
      destruct Hd as [[_ Hd] | Hd].
      - now rewrite (Rltb_true _ _ Hd).
      - rewrite (Rltb_true _ _ Hd). apply orb_true_r. }
    unfold steer. cbn zeta. fold dx dy dist. rewrite Hmove, Hsp.
    unfold direction. rewrite Htri, Hnc. cbn [andb].
    rewrite triangle_direction_calm;
      [| exact Ht | exact Hcalm | destruct Hd; lra].
    apply clampInsideArena_pos_ext; reflexivity.
  - intros Hd Hcalm stepped.
    assert (Hmove : shouldMove self target dist = true).
    { rewrite shouldMove_triangle by exact Ht.
      now rewrite Rltb_true by lra. }
    unfold steer. cbn zeta. fold dx dy dist. rewrite Hmove, Hsp.
    unfold direction. rewrite Htri, Hnc. cbn [andb].
    rewrite triangle_direction_strafe; [| exact Ht | exact Hcalm | exact Hd].
    apply clampInsideArena_pos_ext; reflexivity.
Qed.

(** *** A frame of zero length *)

Lemma stays_if_inside_by_fields (w w' : Warrior) :
  w_type w' = w_type w -> w_x w' = w_x w -> w_y w' = w_y w ->
  stays_if_inside w w'.
Proof.
  intros Ht Hx Hy Hin. unfold inside_arena, same_place, w_config in *.
  rewrite Ht, Hx, Hy. auto.
Qed.

Lemma steer_zero_dt (i : nat) (self target : Warrior) (wd : World) :
  stays_if_inside self (steer 0 i self target wd).
Proof.
  intros Hin. unfold steer. cbn zeta.
  destruct (direction _ _ _ _ _ _ _) as [dirX dirY].
  destruct (shouldMove _ _ _).
  - match goal with
    | |- context [clampInsideArena ?w] =>
        assert (Hw : inside_arena w /\ same_place self w)
    end.
    { unfold inside_arena, same_place, w_config in *. cbn.
      replace (w_x self + dirX * (speed (TYPE_CONFIG (w_type self)) * 0))
        with (w_x self) by ring.
      replace (w_y self + dirY * (speed (TYPE_CONFIG (w_type self)) * 0))
        with (w_y self) by ring.
      auto. }
    destruct Hw as [Hw1 Hw2]. rewrite (clampInsideArena_noop _ Hw1). auto.
  - split; [exact Hin | split; reflexivity].
Qed.

Lemma simulate_zero_dt (wd : World) :
  Forall2 stays_if_inside (warriors wd) (warriors (simulate 0 wd)).
Proof.
  assert (Hrefl : Reflexive stays_if_inside).
  { intros w Hin. split; [exact Hin | split; reflexivity]. }
  assert (Htrans : Transitive stays_if_inside).
  { intros a b c Hab Hbc Ha. destruct (Hab Ha) as (Hb & Hx1 & Hy1).
    destruct (Hbc Hb) as (Hc & Hx2 & Hy2).
    split; [exact Hc | split; congruence]. }
  apply (simulate_rel stays_if_inside).
  - intros w _.
    destruct (decay_timers_fields 0 w) as (? & ? & ? & _).
    now apply stays_if_inside_by_fields.
  - intros i self target wd' _. apply steer_zero_dt.
  - intros a w _. destruct (takeDamage_fields a w) as (? & ? & ? & _).
    now apply stays_if_inside_by_fields.
  - intros t w _. now apply stays_if_inside_by_fields.
  - intros t w _. destruct (after_melee_hit_fields t w) as (? & ? & ? & _).
    now apply stays_if_inside_by_fields.
Qed.

Lemma Projectile_update_flown (dt : R) (p : Projectile) (ws : list Warrior) :
  flown dt p (fst (Projectile_update dt p ws)).
Proof.
  unfold flown. destruct (Rlt_dec (p_life p + dt) (p_maxLife p)) as [Hy | Ho].
  - rewrite Projectile_update_young by exact Hy. cbn zeta.
    destruct (Rgeb _ _); destruct (collide _ ws); cbn;
      (split; [reflexivity | split; [auto | lra]]).
  - rewrite Projectile_update_old by lra. cbn.
    split; [reflexivity | split; [lra | auto]].
Qed.

Lemma projectiles_forEach_flown (dt : R) (ps : list Projectile)
    (ws : list Warrior) :
  Forall2 (flown dt) ps (fst (projectiles_forEach dt ps ws)).
Proof.
  revert ws. induction ps as [| p rest IH]; intros ws; cbn.
  - constructor.
  - pose proof (Projectile_update_flown dt p ws) as H1.
    destruct (Projectile_update dt p ws) as [p' ws1].
    pose proof (IH ws1) as H2.
    destruct (projectiles_forEach dt rest ws1) as [rest' ws2].
    cbn in *. constructor; assumption.
Qed.

Lemma simulate_projectiles (dt : R) (wd : World) :
  projectiles (simulate dt wd) =
    fst (projectiles_forEach dt (projectiles (warriors_loop dt wd))
           (warriors (warriors_loop dt wd))).
Proof.
  unfold simulate. now destruct (projectiles_forEach _ _ _).
Qed.

Lemma delta_zero (ts : R) : num_or ((ts - ts) / 1000) 0 = 0.
Proof.
  replace ((ts - ts) / 1000) with 0 by lra. apply num_or_zero.
Qed.

(** C3 as the code has it.  The time step is not clamped.  What a frame
    of zero length does guarantee: no warrior within the arena limit
    changes place, and no projectile moves or ages.  (It still resolves
    attacks and collisions: see the duel at distance 56 below.) *)
Theorem zero_dt_moves_nothing (ts : R) (s : State) :
  running s = true -> ts = lastTimestamp s ->
  st_world (update ts s) = prune (simulate 0 (st_world s)) /\
  Forall2 stays_if_inside (warriors (st_world s))
    (warriors (simulate 0 (st_world s))) /\
  Forall2
    (fun p p' => p_x p' = p_x p /\ p_y p' = p_y p /\ p_life p' = p_life p)
    (projectiles (warriors_loop 0 (st_world s)))
    (projectiles (simulate 0 (st_world s))).
Proof.
  intros Hr ->. split; [| split].
  - rewrite update_running_world by exact Hr. now rewrite delta_zero.
  - apply simulate_zero_dt.
  - rewrite simulate_projectiles.
    eapply Forall2_impl; [apply projectiles_forEach_flown |].
    intros p p' (Hl & Hy & Ho). cbn beta.
    destruct (Rlt_dec (p_life p + 0) (p_maxLife p)) as [Hlt | Hge].
    + destruct (Hy Hlt) as [-> ->]. repeat split; lra.
    + destruct Ho as [-> ->]; [lra |]. repeat split; lra.
Qed.

(** *** Projectiles fired during the frame *)

Lemma attemptAttack_projectiles (i : nat) (tgt : option nat) (wd : World) :
  exists new, projectiles (attemptAttack i tgt wd) = projectiles wd ++ new
              /\ Forall fresh new.
Proof.
  assert (Hsame : exists new, projectiles wd = projectiles wd ++ new
                              /\ Forall fresh new).
  { exists []. split; [now rewrite app_nil_r | constructor]. }
  unfold attemptAttack.
  destruct (warriors wd !! i) as [self |]; [| exact Hsame].
  destruct (tgt ≫= _) as [[j target] |]; [| exact Hsame].
  destruct (_ || _); [exact Hsame |].
  destruct (bool_decide _).
  - destruct (Rleb _ _); [| exact Hsame].
    exists [new_Projectile self target]. split; [reflexivity |].
    repeat constructor.
  - destruct (Rleb _ _); exact Hsame.
Qed.

Lemma Warrior_update_projectiles (dt : R) (i : nat) (wd : World) :
  exists new, projectiles (Warrior_update dt i wd) = projectiles wd ++ new
              /\ Forall fresh new.
Proof.
  assert (Hsame : exists new, projectiles wd = projectiles wd ++ new
                              /\ Forall fresh new).
  { exists []. split; [now rewrite app_nil_r | constructor]. }
  unfold Warrior_update.
  destruct (warriors wd !! i) as [this |]; [| exact Hsame].
  destruct (negb _); [exact Hsame |].
  destruct (findTarget _ _ _) as [[j target] |]; [| exact Hsame].
  match goal with
  | |- context [attemptAttack i (Some j) ?w] =>
      destruct (attemptAttack_projectiles i (Some j) w) as (new & E & F)
  end.
  exists new. split; [exact E | exact F].
Qed.

Lemma warriors_loop_projectiles (dt : R) (wd : World) :
  exists new, projectiles (warriors_loop dt wd) = projectiles wd ++ new
              /\ Forall fresh new.
Proof.
  unfold warriors_loop. generalize (seq 0 (length (warriors wd))) as idx.
  intros idx. revert wd. induction idx as [| i idx IH]; intros wd; cbn.
  - exists []. split; [now rewrite app_nil_r | constructor].
  - destruct (Warrior_update_projectiles dt i wd) as (n1 & E1 & F1).
    destruct (IH (Warrior_update dt i wd)) as (n2 & E2 & F2).
    exists (n1 ++ n2). split.
    + rewrite E2, E1. now rewrite app_assoc.
    + now apply Forall_app.
Qed.

(** C4 as the code has it.  The projectile phase runs over the list as
    the warrior phase left it: the projectiles of the previous frames
    followed by those fired in this one.  Each of them, the new ones
    included, is updated in this same frame: aged by [dt], and moved by
    its velocity unless that makes it too old. *)
Theorem new_projectiles_fly_in_the_same_frame (dt : R) (wd : World) :
  exists new,
    projectiles (warriors_loop dt wd) = projectiles wd ++ new /\
    Forall fresh new /\
    Forall2 (flown dt) (projectiles wd ++ new) (projectiles (simulate dt wd)).
Proof.
  destruct (warriors_loop_projectiles dt wd) as (new & E & F).
  exists new. split; [exact E |]. split; [exact F |].
  rewrite <- E, simulate_projectiles. apply projectiles_forEach_flown.
Qed.

(** ** More about target selection *)

Lemma ifold_snoc {A B : Type} (f : B -> nat -> A -> B) (l : list A) (a : A)
    (k : nat) (b : B) :
  ifold f k (l ++ [a]) b = f (ifold f k l b) (k + length l)%nat a.
Proof.
  revert k b. induction l as [| x l IH]; intros k b; cbn.
  - now rewrite Nat.add_0_r.
  - rewrite IH. now replace (S k + length l)%nat with (k + S (length l))%nat
      by lia.
Qed.

Lemma findTarget_step_not_skipped (i : nat) (self : Warrior)
    (acc : option (nat * Warrior * R)) (k : nat) (e : Warrior) :
  ~ skipped i self k e ->
  findTarget_step i self acc k e =
    match acc with
    | None => Some (k, e, distanceTo self e)
    | Some (_, _, distance) =>
        if Rltb (distanceTo self e) distance
        then Some (k, e, distanceTo self e) else acc
    end.
Proof.
  intros Hn. unfold findTarget_step, skipped in *.
  destruct (Nat.eqb_spec k i) as [-> | _]; [tauto |].
  destruct (w_alive e); [| tauto]. cbn [negb orb].
  destruct (bool_decide_reflect (w_type e = w_type self)); [tauto |].
  reflexivity.
Qed.

Lemma skipped_dec (i : nat) (self : Warrior) (k : nat) (e : Warrior) :
  skipped i self k e \/ ~ skipped i self k e.
Proof.
  unfold skipped. destruct (Nat.eq_dec k i); [tauto |].
  destruct (w_alive e); [| tauto].
  destruct (decide (w_type e = w_type self)); [tauto |].
  right. intros [? | [? | ?]]; congruence.
Qed.

Lemma findTarget_loop_nearest (i : nat) (self : Warrior) (l : list Warrior) :
  nearest_so_far i self l (ifold (findTarget_step i self) 0 l None).
Proof.
  induction l as [| a l IH] using rev_ind.
  - cbn. intros k e Hk. destruct k; discriminate.
  - rewrite ifold_snoc. cbn [Nat.add].
    set (acc := ifold (findTarget_step i self) 0 l None) in *.
    set (n := length l).
    assert (Hlast : (l ++ [a]) !! n = Some a).
    { unfold n. rewrite lookup_app_r by lia.
      now rewrite Nat.sub_diag. }
    assert (Hsplit : forall k e, (l ++ [a]) !! k = Some e ->
              l !! k = Some e \/ (k = n /\ e = a)).
    { intros k e Hk. destruct (decide (k < n)%nat) as [Hlt | Hge].
      - left. now rewrite lookup_app_l in Hk by exact Hlt.
      - right. rewrite lookup_app_r in Hk by (unfold n in *; lia).
        destruct (k - length l)%nat as [| m] eqn:E; cbn in Hk;
          [| destruct m; discriminate].
        injection Hk as <-. split; [unfold n in *; lia | reflexivity]. }
    destruct (skipped_dec i self n a) as [Hs | Hns].
    + rewrite findTarget_step_skipped by exact Hs.
      destruct acc as [[[j t] d] |]; cbn in *.
      * destruct IH as (Hj & Hnj & Hd & Hmin).
        split; [now apply lookup_app_l_Some |].
        split; [exact Hnj |]. split; [exact Hd |].
        intros k e Hk Hne. destruct (Hsplit k e Hk) as [Hk' | [-> ->]];
          [now apply Hmin | tauto].
      * intros k e Hk. destruct (Hsplit k e Hk) as [Hk' | [-> ->]];
          [now apply IH | exact Hs].
    + rewrite findTarget_step_not_skipped by exact Hns.
      destruct acc as [[[j t] d] |]; cbn in *.
      * destruct IH as (Hj & Hnj & Hd & Hmin).
        assert (Hjn : (j < n)%nat) by (apply lookup_lt_Some in Hj; exact Hj).
        destruct (Rltb (distanceTo self a) d) eqn:E.
        -- apply Rltb_spec in E. cbn.
           split; [exact Hlast |]. split; [exact Hns |].
           split; [reflexivity |].
           intros k e Hk Hne. destruct (Hsplit k e Hk) as [Hk' | [-> ->]].
           ++ destruct (Hmin k e Hk' Hne) as [Hle _]. split; [lra |].
              intros Heq. lra.
           ++ split; [lra | intros _; lia].
        -- apply Rltb_nspec in E. cbn.
           split; [now apply lookup_app_l_Some |].
           split; [exact Hnj |]. split; [exact Hd |].
           intros k e Hk Hne. destruct (Hsplit k e Hk) as [Hk' | [-> ->]];
             [now apply Hmin |].
           split; [exact E | intros _; lia].
      * split; [exact Hlast |]. split; [exact Hns |].
        split; [reflexivity |].
        intros k e Hk Hne. destruct (Hsplit k e Hk) as [Hk' | [-> ->]].
        -- exfalso. apply Hne. now apply IH.
        -- split; [lra | intros _; lia].
Qed.

(** X1.  [findTarget] returns the nearest living warrior of another
    type, and among equally near ones the first in the roster. *)
Theorem findTarget_nearest (i : nat) (self : Warrior) (ws : list Warrior)
    (j : nat) (t : Warrior) :
  findTarget i self ws = Some (j, t) ->
  forall k e, ws !! k = Some e -> ~ skipped i self k e ->
    distanceTo self t <= distanceTo self e /\
    (distanceTo self e = distanceTo self t -> (j <= k)%nat).
Proof.
  unfold findTarget. intros Hf.
  pose proof (findTarget_loop_nearest i self ws) as H.
  destruct (ifold (findTarget_step i self) 0 ws None) as [[[j0 t0] d0] |];
    [| discriminate].
  cbn in Hf. injection Hf as -> ->. cbn in H.
  destruct H as (_ & _ & -> & Hmin). exact Hmin.
Qed.

(** X2.  [findTarget] returns nothing exactly when the roster holds no
    living warrior of another type: in particular on an empty roster
    and on a roster of one type. *)
Theorem findTarget_none_iff (i : nat) (self : Warrior) (ws : list Warrior) :
  findTarget i self ws = None <->
  (forall k e, ws !! k = Some e -> skipped i self k e).
Proof.
  unfold findTarget.
  pose proof (findTarget_loop_nearest i self ws) as H.
  destruct (ifold (findTarget_step i self) 0 ws None) as [[[j0 t0] d0] |];
    cbn in *.
  - split; [discriminate |]. intros Hall.
    destruct H as (Hj & Hnj & _). exfalso. apply Hnj. now apply Hall.
  - split; [intros _; exact H | reflexivity].
Qed.

(** ** More about a frame *)

Lemma simulate_same_type (dt : R) (wd : World) :
  Forall2 same_type (warriors wd) (warriors (simulate dt wd)).
Proof.
  assert (Hrefl : Reflexive same_type) by (intros w; reflexivity).
  assert (Htrans : Transitive same_type).
  { intros a b c H1 H2. unfold same_type in *. congruence. }
  apply (simulate_rel same_type); unfold same_type.
  - intros w _. now destruct (decay_timers_fields dt w) as (-> & _).
  - intros i self target wd' _.
    now destruct (steer_fields dt i self target wd') as (-> & _).
  - intros a w _. now destruct (takeDamage_fields a w) as (-> & _).
  - reflexivity.
  - intros t w _. now destruct (after_melee_hit_fields t w) as (-> & _).
Qed.

Lemma Forall2_filter_sublist {A B : Type} (f : A -> B) (g : A -> B)
    (P : A -> Prop) `{!forall x, Decision (P x)} (l k : list A) :
  Forall2 (fun x y => g y = f x) l k ->
  sublist (g <$> filter P k) (f <$> l).
Proof.
  induction 1 as [| x y l k Hxy _ IH]; [constructor |].
  rewrite filter_cons. destruct (decide (P y)); cbn.
  - rewrite Hxy. now constructor.
  - now constructor.
Qed.


Lemma updateStats_pos (ws : list Warrior) (t : WType) :
  (0 < updateStats ws t)%nat <->
  exists w, w ∈ ws /\ w_alive w = true /\ w_type w = t.
Proof.
  unfold updateStats. split.
  - intros Hpos.
    destruct (filter (fun w => w_alive w = true /\ w_type w = t) ws)
      as [| w l] eqn:E; [cbn in Hpos; lia |].
    assert (Hin : w ∈ filter (fun w => w_alive w = true /\ w_type w = t) ws)
      by (rewrite E; left).
    apply list_elem_of_filter in Hin as [[Ha Ht] Hin]. eauto.
  - intros (w & Hin & Ha & Ht).
    assert (Hf : w ∈ filter (fun w => w_alive w = true /\ w_type w = t) ws)
      by (apply list_elem_of_filter; auto).
    destruct (filter _ ws); [inversion Hf | cbn; lia].
Qed.

Lemma elem_of_livingTypes (c : Counts) (t : WType) :
  t ∈ livingTypes c <-> (0 < c t)%nat.
Proof.
  unfold livingTypes. rewrite list_elem_of_filter. split; [tauto |].
  intros H. split; [exact H |]. destruct t; repeat constructor.
Qed.

Lemma NoDup_livingTypes (c : Counts) : NoDup (livingTypes c).
Proof.
  unfold livingTypes. apply NoDup_filter.
  repeat constructor; intros H;
    repeat match goal with
           | H : _ ∈ _ |- _ => inversion H; clear H; subst
           end.
Qed.

(** X6.  The outcome of a frame that ran.  The battle stops exactly
    when at most one type has a living member.  When it stops with a
    winner, the roster is not empty and all of that type; when it stops
    without one, the roster is empty.  When it goes on, two warriors of
    different types are left and the recorded winner is untouched.  In
    every case the timestamp is recorded. *)
Theorem outcome_sound (ts : R) (s : State) :
  running s = true ->
  let s' := update ts s in
  (running s' = false <-> terminal s') /\
  (running s' = false ->
   match winnerType s' with
   | Some t => warriors (st_world s') <> [] /\
               Forall (fun w => w_type w = t) (warriors (st_world s'))
   | None => warriors (st_world s') = []
   end) /\
  (running s' = true ->
   winnerType s' = winnerType s /\
   exists w1 w2, w1 ∈ warriors (st_world s') /\ w2 ∈ warriors (st_world s')
                 /\ w_type w1 <> w_type w2) /\
  lastTimestamp s' = ts.
Proof.
  intros Hr s'.
  assert (Halive : Forall (fun w => w_alive w = true)
                     (warriors (st_world s'))).
  { unfold s'. rewrite update_running_world by exact Hr.
    unfold prune. cbn [warriors]. apply Forall_forall. intros w Hw.
    now apply list_elem_of_filter in Hw as [Ha _]. }
  rewrite Forall_forall in Halive.
  unfold terminal.
  assert (Hs' : exists wd,
            st_world s' = wd /\
            s' = let '(over, winner) :=
                   determineVictor (updateStats (warriors wd)) (winnerType s)
                 in {| st_world := wd; running := negb over;
                       lastTimestamp := ts; winnerType := winner |}).
  { unfold s', update. rewrite Hr. cbn [negb]. eexists. split; [| reflexivity].
    destruct (determineVictor _ _). reflexivity. }
  destruct Hs' as (wd & Hwd & Heq). rewrite Hwd in *.
  clearbody s'. subst s'.
  pose proof (NoDup_livingTypes (updateStats (warriors wd))) as Hnd.
  assert (Hmem : forall t, t ∈ livingTypes (updateStats (warriors wd)) <->
            exists w, w ∈ warriors wd /\ w_type w = t).
  { intros t. rewrite elem_of_livingTypes, updateStats_pos. split.
    - intros (w & ? & ? & ?); eauto.
    - intros (w & ? & ?). exists w. auto. }
  unfold determineVictor.
  destruct (livingTypes (updateStats (warriors wd))) as [| t1 [| t2 rest]]
    eqn:El; cbn [length Nat.leb negb st_world running winnerType lastTimestamp].
  - split; [split; [intros _; lia | reflexivity] |].
    split; [| split; [discriminate | reflexivity]].
    intros _. destruct (warriors wd) as [| w ws] eqn:Ew; [reflexivity |].
    exfalso. assert (H : w_type w ∈ @nil WType).
    { apply Hmem. exists w. split; [left | reflexivity]. }
    inversion H.
  - split; [split; [intros _; lia | reflexivity] |].
    split; [| split; [discriminate | reflexivity]].
    intros _. split.
    + assert (H : t1 ∈ [t1]) by left. apply Hmem in H as (w & Hw & _).
      intros E. rewrite E in Hw. inversion Hw.
    + apply Forall_forall. intros w Hw.
      assert (H : w_type w ∈ [t1]) by (apply Hmem; eauto).
      apply list_elem_of_singleton in H. exact H.
  - split; [split; [discriminate | intros H; lia] |].
    split; [discriminate |]. split; [| reflexivity].
    intros _. split; [reflexivity |].
    assert (H1 : t1 ∈ t1 :: t2 :: rest) by left.
    assert (H2 : t2 ∈ t1 :: t2 :: rest) by (right; left).
    apply Hmem in H1 as (w1 & Hw1 & Ht1). apply Hmem in H2 as (w2 & Hw2 & Ht2).
    exists w1, w2. split; [exact Hw1 |]. split; [exact Hw2 |].
    rewrite Ht1, Ht2. apply NoDup_cons in Hnd as [Hnot _].
    intros ->. apply Hnot. left.
Qed.

(** X7.  [updateStats] counts every living warrior exactly once: the
    three counts add up to the number of living warriors, and the dead
    are not counted. *)
Theorem updateStats_total (ws : list Warrior) :
  (updateStats ws circle + updateStats ws square + updateStats ws triangle
   = length (filter (fun w => w_alive w = true) ws))%nat.
Proof.
  unfold updateStats. induction ws as [| w ws IH]; [reflexivity |].
  rewrite !filter_cons.
  destruct (w_alive w) eqn:Ha, (w_type w) eqn:Ht;
    repeat case_decide;
    try (exfalso; intuition congruence);
    cbn [length]; lia.
Qed.

(** ** Attacks *)

Lemma damage_pos (t : WType) : 0 < damage (TYPE_CONFIG t).
Proof. destruct t; cbn; lra. Qed.

(** The three things [attemptAttack] can do. *)
Lemma attemptAttack_cases (i j : nat) (wd : World) (self : Warrior) :
  warriors wd !! i = Some self ->
  attemptAttack i (Some j) wd = wd \/
  (exists target,
     warriors wd !! j = Some target /\ w_alive target = true /\
     w_cooldown self <= 0 /\ w_type self = triangle /\
     attemptAttack i (Some j) wd =
       mutate i (set_cooldown (cfg_cooldown (w_config self)))
         (fireProjectile self target wd)) \/
  (exists target,
     warriors wd !! j = Some target /\ w_alive target = true /\
     w_cooldown self <= 0 /\ w_type self <> triangle /\
     attemptAttack i (Some j) wd =
       mutate i (after_melee_hit target)
         (mutate j (takeDamage (damage (w_config self))) wd)).
Proof.
  intros Hi. unfold attemptAttack. rewrite Hi. cbn [mbind option_bind].
  destruct (warriors wd !! j) as [target |] eqn:Hj;
    cbn [fmap option_fmap option_map]; [| now left].
  destruct (w_alive target) eqn:Ha; cbn [negb orb]; [| now left].
  destruct (Rgtb (w_cooldown self) 0) eqn:Hc; [now left |].
  unfold Rgtb in Hc. apply Rltb_nspec in Hc.
  destruct (bool_decide_reflect (w_type self = triangle)) as [Ht | Ht].
  - destruct (Rleb _ _); [| now left].
    right. left. exists target. auto.
  - destruct (Rleb _ _); [| now left].
    right. right. exists target. auto.
Qed.

(** X8.  Having attacked, a warrior cannot attack again at once: when
    [attemptAttack] has changed the world (a shot fired or a hit
    landed), a second [attemptAttack] of the same warrior, at any
    target, changes nothing, because the first one has set the cooldown
    to its positive full value. *)
Theorem no_double_attack (i j j' : nat) (wd : World) :
  attemptAttack i (Some j) wd <> wd ->
  attemptAttack i (Some j') (attemptAttack i (Some j) wd)
    = attemptAttack i (Some j) wd.
Proof.
  intros Hchanged.
  destruct (warriors wd !! i) as [self |] eqn:Hi.
  2:{ exfalso. apply Hchanged. unfold attemptAttack. now rewrite Hi. }
  assert (Hcool : exists self',
            warriors (attemptAttack i (Some j) wd) !! i = Some self' /\
            0 < w_cooldown self').
  { destruct (attemptAttack_cases i j wd self Hi)
      as [E | [(target & _ & _ & _ & _ & E) | (target & _ & _ & _ & _ & E)]].
    - contradiction.
    - rewrite E. cbn. rewrite list_lookup_alter_eq, Hi. cbn.
      eexists. split; [reflexivity |]. cbn. apply cfg_cooldown_pos.
    - rewrite E. cbn. rewrite list_lookup_alter_eq.
      destruct (alter (takeDamage (damage (w_config self))) j (warriors wd)
                  !! i) as [y |] eqn:Hy.
      + cbn. eexists. split; [reflexivity |].
        unfold after_melee_hit. cbn zeta.
        destruct (bool_decide _); cbn; apply cfg_cooldown_pos.
      + apply lookup_ge_None in Hy. rewrite length_alter in Hy.
        apply lookup_lt_Some in Hi. lia. }
  destruct Hcool as (self' & Hi' & Hpos).
  set (wd' := attemptAttack i (Some j) wd) in *.
  unfold attemptAttack at 1. rewrite Hi'. cbn [mbind option_bind].
  destruct (warriors wd' !! j') as [t' |];
    cbn [fmap option_fmap option_map]; [| reflexivity].
  unfold Rgtb. rewrite (Rltb_true _ _ Hpos). now rewrite orb_true_r.
Qed.

(** X9.  One attack per turn.  In the turn of [warriors[i]] the list
    of projectiles either stays as it is or, for a triangle only,
    grows by one fresh projectile of that triangle's type and damage,
    and then nobody's hit points change.  And at most one warrior's hit
    points change at all: a living warrior other than [warriors[i]],
    by exactly the damage of the type of [warriors[i]]. *)
Theorem one_attack_per_turn (dt : R) (i : nat) (wd : World)
    (this : Warrior) :
  warriors wd !! i = Some this ->
  let wd' := Warrior_update dt i wd in
  (projectiles wd' = projectiles wd \/
   (w_type this = triangle /\
    Forall2 (fun w w' => w_hp w' = w_hp w) (warriors wd) (warriors wd') /\
    exists p, projectiles wd' = projectiles wd ++ [p] /\
              fresh p /\ armed p /\ p_ownerType p = triangle)) /\
  exists j, j <> i /\
    forall k w w', warriors wd !! k = Some w -> warriors wd' !! k = Some w' ->
      w_hp w' = w_hp w \/
      (k = j /\ w_type this <> triangle /\ w_alive w = true /\
       w_hp w' = w_hp w - damage (w_config this)).
Proof.
  intros Hi wd'.
  assert (Hnone : forall ws', Forall2 (fun w w' => w_hp w' = w_hp w)
                                (warriors wd) ws' ->
            exists j, j <> i /\
              forall k w w', warriors wd !! k = Some w -> ws' !! k = Some w' ->
                w_hp w' = w_hp w \/
                (k = j /\ w_type this <> triangle /\ w_alive w = true /\
                 w_hp w' = w_hp w - damage (w_config this))).
  { intros ws' H. exists (S i). split; [lia |]. intros k w w' Hk Hk'.
    left. destruct (Forall2_lookup_l _ _ _ _ _ H Hk) as (w2 & Hw2 & E).
    congruence. }
  assert (Hrefl : Forall2 (fun w w' => w_hp w' = w_hp w) (warriors wd)
                    (warriors wd)).
  { apply Forall_Forall2_diag, Forall_forall. auto. }
  subst wd'. unfold Warrior_update. rewrite Hi.
  destruct (w_alive this) eqn:Ha; cbn [negb].
  2:{ split; [now left | now apply Hnone]. }
  destruct (decay_timers_fields dt this) as (Dt & _ & _ & Dh & _).
  set (wd1 := mutate i (decay_timers dt) wd).
  assert (H1 : Forall2 (fun w w' => w_hp w' = w_hp w) (warriors wd)
                 (warriors wd1)).
  { cbn. apply Forall2_alter_r; [exact Hrefl |].
    intros x y _ _ E. now destruct (decay_timers_fields dt y)
      as (_ & _ & _ & -> & _). }
  destruct (findTarget _ _ _) as [[j target] |] eqn:Hf.
  2:{ split; [now left | now apply Hnone]. }
  apply findTarget_spec in Hf as (Hj & Hji & Hta & _).
  set (wd2 := mutate i (fun self => steer dt i self target wd1) wd1).
  assert (H2 : Forall2 (fun w w' => w_hp w' = w_hp w) (warriors wd)
                 (warriors wd2)).
  { cbn. apply Forall2_alter_r; [exact H1 |].
    intros x y _ _ E.
    now destruct (steer_fields dt i y target wd1) as (_ & -> & _). }
  set (self := steer dt i (decay_timers dt this) target wd1).
  assert (Hi2 : warriors wd2 !! i = Some self).
  { cbn. rewrite !list_lookup_alter_eq, Hi. reflexivity. }
  assert (Hself : w_type self = w_type this).
  { unfold self.
    destruct (steer_fields dt i (decay_timers dt this) target wd1)
      as (-> & _).
    exact Dt. }
  assert (Hj2 : warriors wd2 !! j = Some target).
  { cbn. rewrite list_lookup_alter_ne by auto. exact Hj. }
  assert (Hj0 : warriors wd !! j = Some target).
  { cbn in Hj. now rewrite list_lookup_alter_ne in Hj by auto. }
  assert (Hp2 : projectiles wd2 = projectiles wd) by reflexivity.
  clearbody wd2. clear Hj H1. clearbody self.
  destruct (attemptAttack_cases i j wd2 self Hi2)
    as [E | [(tg & Hjt & Hga & _ & Htri & E)
            | (tg & Hjt & Hga & _ & Hmel & E)]];
    rewrite E.
  - split; [now left | now apply Hnone].
  - cbn [projectiles mutate fireProjectile]. rewrite Hp2.
    assert (H3 : Forall2 (fun w w' => w_hp w' = w_hp w) (warriors wd)
                   (warriors (mutate i (set_cooldown
                                          (cfg_cooldown (w_config self)))
                                (fireProjectile self tg wd2)))).
    { cbn. apply Forall2_alter_r; [exact H2 |]. intros x y _ _ E'. exact E'. }
    split; [| now apply Hnone].
    right. split; [congruence |]. split; [exact H3 |].
    exists (new_Projectile self tg). split; [reflexivity |].
    split; [split; reflexivity |]. split; [reflexivity |].
    cbn. congruence.
  - assert (tg = target) by congruence. subst tg.
    split; [left; cbn; exact Hp2 |].
    exists j. split; [exact Hji |].
    intros k w w' Hk Hk'. unfold mutate in Hk'. cbn [warriors] in Hk'.
    destruct (Forall2_lookup_l _ _ _ _ _ H2 Hk) as (w2 & Hw2 & E2).
    destruct (decide (k = i)) as [-> | Hik].
    + rewrite list_lookup_alter_eq in Hk'.
      rewrite list_lookup_alter_ne in Hk' by auto.
      rewrite Hw2 in Hk'. cbn in Hk'. injection Hk' as <-. left.
      destruct (after_melee_hit_fields target w2) as (_ & _ & _ & -> & _).
      exact E2.
    + rewrite list_lookup_alter_ne in Hk' by auto.
      destruct (decide (k = j)) as [-> | Hjk].
      * rewrite list_lookup_alter_eq, Hw2 in Hk'. cbn in Hk'.
        injection Hk' as <-. right. split; [reflexivity |].
        split; [congruence |].
        assert (w2 = target) by congruence. subst w2.
        assert (w = target) by congruence. subst w.
        split; [exact Hga |].
        destruct (takeDamage_fields (damage (w_config self)) target)
          as (_ & _ & _ & -> & _).
        unfold w_config. now rewrite Hself.
      * rewrite list_lookup_alter_ne in Hk' by auto.
        left. congruence.
Qed.

(** ** More about projectiles *)

Lemma collide_some_inv (p : Projectile) (ws ws' : list Warrior) :
  collide p ws = Some ws' ->
  exists k e,
    ws !! k = Some e /\ hittable p e = true /\
    (forall k' e', (k' < k)%nat -> ws !! k' = Some e' ->
                   hittable p e' = false) /\
    ws' = alter (takeDamage (p_damage p)) k ws.
Proof.
  revert ws'. induction ws as [| w rest IH]; intros ws' H.
  - discriminate.
  - rewrite collide_cons in H. destruct (hittable p w) eqn:Hh.
    + injection H as <-. exists O, w. repeat split; auto. intros k' e' Hlt. lia.
    + destruct (collide p rest) as [r |]; [| discriminate].
      injection H as <-.
      destruct (IH r eq_refl) as (k & e & Hk & He & Hfirst & ->).
      exists (S k), e. repeat split; auto.
      intros [| k'] e' Hlt Hk'; cbn in Hk'.
      * now injection Hk' as <-.
      * apply (Hfirst k' e'); [lia | exact Hk'].
Qed.

Lemma collide_hittable (p q : Projectile) (ws : list Warrior) :
  p_ownerType q = p_ownerType p -> p_x q = p_x p -> p_y q = p_y p ->
  p_radius q = p_radius p -> p_damage q = p_damage p ->
  collide q ws = collide p ws.
Proof.
  intros Ho Hx Hy Hr Hd. induction ws as [| w rest IH]; [reflexivity |].
  rewrite !collide_cons. unfold hittable. now rewrite Ho, Hx, Hy, Hr, Hd, IH.
Qed.

(** X10.  A projectile hits once and does not go through.  Its update
    either leaves every warrior as it is, or damages exactly one: the
    first warrior in the roster that is alive, of another type than its
    owner, and within [size + radius] of its new position; that warrior
    loses the projectile's damage and the projectile is dead. *)
Theorem projectile_hits_once (dt : R) (p : Projectile) (ws : list Warrior) :
  let p' := fst (Projectile_update dt p ws) in
  let ws' := snd (Projectile_update dt p ws) in
  ws' = ws \/
  exists k enemy,
    ws !! k = Some enemy /\
    w_alive enemy = true /\ w_type enemy <> p_ownerType p /\
    hypot (w_x enemy - p_x p') (w_y enemy - p_y p')
      <= size (w_config enemy) + p_radius p /\
    (forall k' e', (k' < k)%nat -> ws !! k' = Some e' ->
                   hittable (moved dt p) e' = false) /\
    ws' = alter (takeDamage (p_damage p)) k ws /\
    p_alive p' = false.
Proof.
  cbn zeta. destruct (Rlt_dec (p_life p + dt) (p_maxLife p)) as [Hy | Ho].
  - rewrite Projectile_update_young by exact Hy. cbn zeta.
    set (p3 := if Rgeb _ _ then set_p_alive false (moved dt p) else moved dt p).
    assert (Hc : collide p3 ws = collide (moved dt p) ws).
    { unfold p3.
      destruct (Rgeb _ _); [apply collide_set_p_alive | reflexivity]. }
    assert (Hpos : p_x p3 = p_x (moved dt p) /\ p_y p3 = p_y (moved dt p)).
    { unfold p3. destruct (Rgeb _ _); split; reflexivity. }
    rewrite Hc. destruct (collide (moved dt p) ws) as [ws' |] eqn:E;
      cbn [fst snd]; [| now left].
    right. apply collide_some_inv in E as (k & e & Hk & Hh & Hfirst & ->).
    exists k, e. split; [exact Hk |].
    unfold hittable in Hh.
    apply andb_prop in Hh as [Hh Hd]. apply andb_prop in Hh as [Ha Ht].
    apply Rleb_spec in Hd. apply negb_true_iff in Ht.
    apply bool_decide_eq_false in Ht.
    destruct Hpos as [Hpx Hpy].
    split; [exact Ha |]. split; [exact Ht |].
    split; [cbn [p_x p_y set_p_alive]; rewrite Hpx, Hpy; exact Hd |].
    split; [exact Hfirst |]. split; reflexivity.
  - rewrite Projectile_update_old by lra. now left.
Qed.

(** X11.  A projectile flies straight.  Its update never changes its
    owner, damage, velocity, radius or lifetime, and ages it by [dt].
    If it is alive afterwards, it was alive before, its life is below
    [maxLife], it has moved by its velocity times [dt], it is strictly
    inside the arena circle by the code's own test, and it has hit
    nobody.  If it was too old it is where it was. *)
Theorem projectile_flies_straight (dt : R) (p : Projectile)
    (ws : list Warrior) :
  let p' := fst (Projectile_update dt p ws) in
  (p_ownerType p' = p_ownerType p /\ p_damage p' = p_damage p /\
   p_vx p' = p_vx p /\ p_vy p' = p_vy p /\
   p_radius p' = p_radius p /\ p_maxLife p' = p_maxLife p) /\
  p_life p' = p_life p + dt /\
  (p_alive p' = true ->
   p_alive p = true /\ p_life p' < p_maxLife p' /\
   p_x p' = p_x p + p_vx p * dt /\ p_y p' = p_y p + p_vy p * dt /\
   projectile_inside p' /\
   snd (Projectile_update dt p ws) = ws) /\
  (p_maxLife p <= p_life p + dt ->
   p_alive p' = false /\ p_x p' = p_x p /\ p_y p' = p_y p).
Proof.
  cbn zeta. destruct (Rlt_dec (p_life p + dt) (p_maxLife p)) as [Hy | Ho].
  - pose proof (Projectile_update_alive_inside dt p ws) as Hin.
    revert Hin. rewrite Projectile_update_young by exact Hy. cbn zeta.
    destruct (Rgeb _ _) eqn:Hout;
      destruct (collide _ ws) as [ws' |]; cbn [fst snd]; intros Hin;
      (split; [repeat split |]); (split; [reflexivity |]);
      (split; [| intros Hold; lra]); try (intros Ha; discriminate Ha).
    intros Ha. split; [exact Ha |]. split; [exact Hy |].
    split; [reflexivity |]. split; [reflexivity |].
    split; [exact (Hin Ha) | reflexivity].
  - rewrite Projectile_update_old by lra. cbn [fst snd].
    split; [repeat split |]. split; [reflexivity |].
    split; [intros Ha; discriminate Ha |]. intros _. repeat split.
Qed.

(** *** The kiter and an enemy that moves first

    [seedWarriors] lists circles, then squares, then triangles, and
    [filter] keeps the order: in the roster of a battle every enemy of
    a triangle comes before it and has had its turn when the triangle's
    turn comes. *)

Lemma projectile_phase_places (dt : R) (ps : list Projectile)
    (ws : list Warrior) :
  Forall2 same_place ws (snd (projectiles_forEach dt ps ws)).
Proof.
  assert (Hrefl : Reflexive same_place) by (intros w; split; reflexivity).
  assert (Htrans : Transitive same_place).
  { intros a b c [H1 H2] [H3 H4]. split; congruence. }
  apply (projectiles_forEach_rel same_place).
  intros a w _. unfold same_place.
  now destruct (takeDamage_fields a w) as (_ & -> & -> & _).
Qed.

Lemma decay_timers_no_retreat (dt : R) (w : Warrior) :
  w_wantRetreat w <= 0 -> w_wantRetreat (decay_timers dt w) <= 0.
Proof.
  intros H. rewrite decay_timers_idle by exact H. exact H.
Qed.

(** The turn of a melee warrior listed first, alone with a triangle. *)
Lemma melee_turn_first (dt : R) (enemy kiter : Warrior) :
  w_alive enemy = true -> w_type enemy <> triangle ->
  w_alive kiter = true -> w_type kiter = triangle ->
  let wd := {| warriors := [enemy; kiter]; projectiles := [] |} in
  exists e1 k1,
    Warrior_update dt 0 wd = {| warriors := [e1; k1]; projectiles := [] |} /\
    w_alive e1 = true /\ w_type e1 = w_type enemy /\
    w_hp e1 = w_hp enemy /\
    same_place
      (steer dt 0 (decay_timers dt enemy) kiter
         (mutate 0 (decay_timers dt) wd)) e1 /\
    same_place kiter k1 /\ w_type k1 = triangle /\
    (Rmax (range (w_config enemy))
       (size (w_config enemy) + size (w_config kiter))
       < distanceTo e1 kiter -> k1 = kiter).
Proof.
  intros Hea Het Hka Hkt wd.
  destruct (decay_timers_fields dt enemy) as (Hdt & _ & _ & Hdh & Hda).
  set (eS := steer dt 0 (decay_timers dt enemy) kiter
               (mutate 0 (decay_timers dt) wd)).
  destruct (steer_fields dt 0 (decay_timers dt enemy) kiter
              (mutate 0 (decay_timers dt) wd)) as (Hst & Hsh & Hsa & _).
  fold eS in Hst, Hsh, Hsa.
  assert (Hstep : Warrior_update dt 0 wd =
            attemptAttack 0 (Some 1%nat)
              {| warriors := [eS; kiter]; projectiles := [] |}).
  { assert (Hf : findTarget 0 (decay_timers dt enemy)
                   (warriors (mutate 0 (decay_timers dt) wd))
                 = Some (1%nat, kiter)).
    { apply findTarget_only; try reflexivity; try lia; [exact Hka | |].
      - rewrite Hdt, Hkt. congruence.
      - intros [| [| m]] e Hm He; try discriminate; [now left | lia]. }
    now rewrite (Warrior_update_step dt 0 wd enemy 1 kiter eq_refl Hea Hf). }
  rewrite Hstep.
  assert (Hnt : w_type eS <> triangle) by congruence.
  rewrite (attemptAttack_melee 0 1
             {| warriors := [eS; kiter]; projectiles := [] |} eS kiter
             eq_refl eq_refl Hnt).
  assert (Hcfg : w_config eS = w_config enemy)
    by (unfold w_config; congruence).
  destruct (w_alive kiter && negb (Rgtb (w_cooldown eS) 0)
            && Rleb (distanceTo eS kiter)
                 (Rmax (range (w_config eS))
                    (size (w_config eS) + size (w_config kiter)))) eqn:Hit.
  - exists (after_melee_hit kiter eS),
           (takeDamage (damage (w_config eS)) kiter).
    destruct (after_melee_hit_fields kiter eS)
      as (Hht & Hhx & Hhy & Hhh & Hha).
    destruct (takeDamage_fields (damage (w_config eS)) kiter)
      as (Htt & Htx & Hty & _).
    split; [reflexivity |]. split; [congruence |]. split; [congruence |].
    split; [congruence |].
    split; [split; assumption |]. split; [split; assumption |].
    split; [congruence |].
    intros Hfar. exfalso.
    apply andb_true_iff in Hit as [_ Hd]. apply Rleb_spec in Hd.
    rewrite Hcfg in Hd.
    assert (E : distanceTo (after_melee_hit kiter eS) kiter
                = distanceTo eS kiter).
    { unfold distanceTo. now rewrite Hhx, Hhy. }
    rewrite E in Hfar. lra.
  - exists eS, kiter.
    split; [reflexivity |]. split; [congruence |]. split; [congruence |].
    split; [congruence |].
    repeat split. exact Hkt.
Qed.

(** The turn of a triangle listed second, alone with an enemy. *)
Lemma kiter_turn_second (dt : R) (e1 k1 : Warrior) :
  w_alive e1 = true -> w_type e1 <> triangle -> w_type k1 = triangle ->
  let wd1 := {| warriors := [e1; k1]; projectiles := [] |} in
  exists k2 ps,
    Warrior_update dt 1 wd1 = {| warriors := [e1; k2]; projectiles := ps |} /\
    w_alive k2 = w_alive k1 /\ w_type k2 = triangle /\
    (ps = [] \/
     exists p, ps = [p] /\ p_ownerType p = triangle /\ p_damage p = 7) /\
    (w_alive k1 = true ->
     same_place
       (steer dt 1 (decay_timers dt k1) e1 (mutate 1 (decay_timers dt) wd1))
       k2).
Proof.
  intros Hea Het Hkt wd1.
  destruct (w_alive k1) eqn:Hka.
  - destruct (decay_timers_fields dt k1) as (Hdt & _ & _ & _ & Hda).
    set (kS := steer dt 1 (decay_timers dt k1) e1
                 (mutate 1 (decay_timers dt) wd1)).
    assert (Hstep : Warrior_update dt 1 wd1 =
              attemptAttack 1 (Some 0%nat)
                {| warriors := [e1; kS]; projectiles := [] |}).
    { assert (Hf : findTarget 1 (decay_timers dt k1)
                     (warriors (mutate 1 (decay_timers dt) wd1))
                   = Some (0%nat, e1)).
      { apply findTarget_only; try reflexivity; try lia; [exact Hea | |].
        - rewrite Hdt, Hkt. exact Het.
        - intros [| [| m]] e Hm He; try discriminate; [lia | now left]. }
      now rewrite (Warrior_update_step dt 1 wd1 k1 0 e1 eq_refl Hka Hf). }
    rewrite Hstep.
    destruct (steer_fields dt 1 (decay_timers dt k1) e1
                (mutate 1 (decay_timers dt) wd1)) as (Hst & _ & Hsa & _).
    fold kS in Hst, Hsa.
    assert (Htri : w_type kS = triangle) by congruence.
    assert (HkSa : w_alive kS = true) by congruence.
    rewrite (attemptAttack_ranged 1 0
               {| warriors := [e1; kS]; projectiles := [] |} kS e1
               eq_refl eq_refl Htri).
    destruct (_ && _).
    + eexists _, _. split; [reflexivity |].
      split; [exact HkSa |]. split; [exact Htri |]. split.
      * right. eexists. split; [reflexivity |].
        unfold new_Projectile, w_config. cbn. rewrite Htri. now cbn.
      * intros _. split; reflexivity.
    + eexists _, _. split; [reflexivity |].
      split; [exact HkSa |]. split; [exact Htri |].
      split; [now left |]. intros _. split; reflexivity.
  - exists k1, []. split; [| split; [exact Hka | split; [exact Hkt |]]].
    + unfold Warrior_update. cbn. now rewrite Hka.
    + split; [now left | discriminate].
Qed.

(** The projectile phase with at most one shot of a triangle in
    flight: the triangle is not touched, the enemy is hit or not. *)
Lemma single_shot_phase (dt : R) (ps : list Projectile) (e1 k2 : Warrior) :
  w_type k2 = triangle ->
  (ps = [] \/
   exists p, ps = [p] /\ p_ownerType p = triangle /\ p_damage p = 7) ->
  exists e3,
    snd (projectiles_forEach dt ps [e1; k2]) = [e3; k2] /\
    (e3 = e1 \/ (w_alive e1 = true /\ e3 = takeDamage 7 e1)).
Proof.
  intros Hkt [-> | (p & -> & Ho & Hd)].
  - exists e1. split; [reflexivity | now left].
  - cbn [projectiles_forEach].
    destruct (Projectile_update dt p [e1; k2]) as [p' ws1] eqn:E.
    cbn [snd].
    assert (Hws : ws1 = snd (Projectile_update dt p [e1; k2]))
      by now rewrite E.
    clear E. unfold Projectile_update in Hws. cbn zeta in Hws.
    destruct (Rgeb _ _) in Hws; cbn [snd] in Hws;
      [subst; exists e1; split; [reflexivity | now left] |].
    match type of Hws with
    | context [collide ?q _] => set (p3 := q) in Hws
    end.
    assert (Ho3 : p_ownerType p3 = triangle).
    { unfold p3. destruct (Rgeb _ _); exact Ho. }
    assert (Hd3 : p_damage p3 = 7).
    { unfold p3. destruct (Rgeb _ _); exact Hd. }
    assert (Hk : hittable p3 k2 = false).
    { unfold hittable. rewrite Ho3, (bool_decide_eq_true_2 _ Hkt).
      cbn [negb]. now rewrite andb_false_r. }
    rewrite collide_cons in Hws.
    destruct (hittable p3 e1) eqn:He.
    + cbn [snd] in Hws. subst ws1. exists (takeDamage (p_damage p3) e1).
      split; [reflexivity |]. right. rewrite Hd3. split; [| reflexivity].
      unfold hittable in He.
      destruct (w_alive e1); [reflexivity | discriminate].
    + rewrite collide_cons, Hk in Hws. cbn in Hws. subst ws1.
      exists e1. split; [reflexivity | now left].
Qed.

(** Nothing threatens a triangle whose only companion is at least
    [evadeRadius] away, with nothing in flight. *)
Lemma evade_vector_duel (e1 k : Warrior) :
  evadeRadius <= hypot (w_x e1 - w_x k) (w_y e1 - w_y k) ->
  evade_vector 1 k {| warriors := [e1; k]; projectiles := [] |} = (0, 0).
Proof.
  intros Hfar. apply evade_vector_calm; [| constructor].
  intros [| [| m]] e Hm; cbn in Hm; try discriminate.
  - injection Hm as <-. now right.
  - left. now left.
Qed.

(** The whole step of a battle of two in seeding order: a melee
    warrior, then a triangle, nothing in flight. *)
Lemma seeded_duel_step (ts : R) (s : State) (enemy kiter : Warrior) :
  running s = true ->
  st_world s = {| warriors := [enemy; kiter]; projectiles := [] |} ->
  w_alive enemy = true -> w_type enemy <> triangle ->
  w_alive kiter = true -> w_type kiter = triangle ->
  exists e1 k1 e3 k3, seeded_step ts s enemy kiter e1 k1 e3 k3.
Proof.
  intros Hr Hs Hea Het Hka Hkt. unfold seeded_step.
  set (dt := num_or ((ts - lastTimestamp s) / 1000) 0).
  rewrite update_running_world by exact Hr. fold dt. rewrite Hs.
  destruct (melee_turn_first dt enemy kiter Hea Het Hka Hkt)
    as (e1 & k1 & Hturn1 & He1a & He1t & He1h & He1p & Hk1p & Hk1t & Hnohit).
  assert (He1nt : w_type e1 <> triangle) by congruence.
  destruct (kiter_turn_second dt e1 k1 He1a He1nt Hk1t)
    as (k2 & ps & Hturn2 & Hk2a & Hk2t & Hps & Hk2p).
  destruct (single_shot_phase dt ps e1 k2 Hk2t Hps) as (e3 & Hphase & He3).
  assert (Hsim : warriors (simulate dt {| warriors := [enemy; kiter];
                                          projectiles := [] |})
                 = [e3; k2]).
  { unfold simulate, warriors_loop. cbn [warriors length seq fold_left].
    rewrite Hturn1, Hturn2. cbn [warriors projectiles].
    rewrite <- Hphase.
    now destruct (projectiles_forEach dt ps [e1; k2]). }
  unfold prune. cbn [warriors]. rewrite Hsim.
  assert (He3p : same_place e1 e3).
  { destruct He3 as [-> | [_ ->]]; [split; reflexivity |].
    unfold same_place.
    now destruct (takeDamage_fields 7 e1) as (_ & -> & -> & _). }
  exists e1, k1, e3, k2.
  split; [now rewrite Hturn1 |]. split; [exact Hk1p |].
  split; [exact Hnohit |].
  split; [| split; [reflexivity | split; [exact He3p | split]]].
  - cbn zeta. intros Hnr Hfar.
    set (dx0 := w_x kiter - w_x enemy) in *.
    set (dy0 := w_y kiter - w_y enemy) in *.
    set (dist0 := num_or (hypot dx0 dy0) 1) in *.
    destruct (decay_timers_fields dt enemy) as (Hdt & Hdx & Hdy & _ & _).
    assert (Hcharge := steer_charge dt 0 (decay_timers dt enemy) kiter
              (mutate 0 (decay_timers dt)
                 {| warriors := [enemy; kiter]; projectiles := [] |})).
    cbn zeta in Hcharge. unfold w_config in Hcharge.
    rewrite Hdt, Hdx, Hdy in Hcharge. fold (w_config enemy) in Hcharge.
    fold (w_config kiter) in Hcharge. fold dx0 dy0 dist0 in Hcharge.
    destruct He1p as [Hx Hy]. rewrite Hx, Hy. rewrite Hcharge.
    + apply clampInsideArena_pos_ext; cbn; congruence.
    + exact Het.
    + intros Hc. apply decay_timers_no_retreat. auto.
    + exact Hfar.
  - intros Hk1a Hhp. split; [| congruence].
    destruct He3 as [-> | [_ ->]]; [exact He1a |].
    pose proof (takeDamage_alive_iff_hp 7 e1 He1a) as Hiff.
    apply Hiff.
    destruct (takeDamage_fields 7 e1) as (_ & _ & _ & -> & _). lra.
  - cbn zeta. intros Hk1a.
    set (dx := w_x e1 - w_x kiter) in *.
    set (dy := w_y e1 - w_y kiter) in *.
    set (dist := num_or (hypot dx dy) 1) in *.
    specialize (Hk2p Hk1a).
    destruct (decay_timers_fields dt k1) as (Hdt & Hdx & Hdy & _ & _).
    destruct Hk1p as [Hk1x Hk1y].
    destruct (kiter_steer dt 1 (decay_timers dt k1) e1
                (mutate 1 (decay_timers dt)
                   {| warriors := [e1; k1]; projectiles := [] |}))
      as (Hhold & Hgo & Hside); [congruence |].
    cbn zeta in Hhold, Hgo, Hside.
    rewrite Hdx, Hdy, Hk1x, Hk1y in Hhold, Hgo, Hside.
    fold dx dy dist in Hhold, Hgo, Hside.
    destruct Hk2p as [Hk2x Hk2y].
    assert (Hcalm : 50 <= dist ->
              evade_vector 1 (decay_timers dt k1)
                (mutate 1 (decay_timers dt)
                   {| warriors := [e1; k1]; projectiles := [] |}) = (0, 0)).
    { intros Hd. apply evade_vector_duel. rewrite Hdx, Hdy, Hk1x, Hk1y.
      fold dx dy. unfold evadeRadius.
      unfold dist, num_or in Hd.
      destruct (Reqb (hypot dx dy) 0); lra. }
    split; [| split].
    + intros Hd. destruct (Hhold Hd) as [Sx Sy].
      split; congruence.
    + intros Hd.
      destruct Hgo as [Gx Gy]; [exact Hd | apply Hcalm; destruct Hd; lra |].
      rewrite Hk2x, Hk2y, Gx, Gy.
      apply clampInsideArena_pos_ext; cbn; congruence.
    + intros Hd.
      destruct Hside as [Gx Gy]; [lra | apply Hcalm; lra |].
      rewrite Hk2x, Hk2y, Gx, Gy.
      apply clampInsideArena_pos_ext; cbn; congruence.
Qed.


(** ** Hit points only go down *)

Lemma hp_le_refl : Reflexive hp_le.
Proof. intros w. unfold hp_le. lra. Qed.

Lemma hp_le_trans : Transitive hp_le.
Proof. intros a b c. unfold hp_le. lra. Qed.

Lemma attemptAttack_hp_le (i j : nat) (wd : World) :
  Forall2 hp_le (warriors wd) (warriors (attemptAttack i (Some j) wd)).
Proof.
  pose proof hp_le_refl as Hrefl. pose proof hp_le_trans as Htrans.
  destruct (warriors wd !! i) as [self |] eqn:Hi.
  2:{ unfold attemptAttack. rewrite Hi. reflexivity. }
  destruct (attemptAttack_cases i j wd self Hi)
    as [E | [(tg & _ & _ & _ & _ & E) | (tg & _ & _ & _ & _ & E)]];
    rewrite E.
  - reflexivity.
  - apply (mutate_rel hp_le); [reflexivity |].
    intros y _. unfold hp_le. cbn. lra.
  - apply (mutate_rel hp_le).
    + apply (mutate_rel hp_le); [reflexivity |].
      intros y _. unfold hp_le.
      destruct (takeDamage_fields (damage (w_config self)) y)
        as (_ & _ & _ & -> & _).
      pose proof (damage_pos (w_type self)). unfold w_config. lra.
    + intros y _. unfold hp_le.
      destruct (after_melee_hit_fields tg y) as (_ & _ & _ & -> & _). lra.
Qed.

Lemma Warrior_update_hp_le (dt : R) (i : nat) (wd : World) :
  Forall2 hp_le (warriors wd) (warriors (Warrior_update dt i wd)).
Proof.
  pose proof hp_le_refl as Hrefl. pose proof hp_le_trans as Htrans.
  unfold Warrior_update.
  destruct (warriors wd !! i) as [this |]; [| reflexivity].
  destruct (negb _); [reflexivity |].
  assert (H1 : Forall2 hp_le (warriors wd)
                 (warriors (mutate i (decay_timers dt) wd))).
  { apply (mutate_rel hp_le); [reflexivity |]. intros y _. unfold hp_le.
    destruct (decay_timers_fields dt y) as (_ & _ & _ & -> & _). lra. }
  destruct (findTarget _ _ _) as [[j target] |]; [| exact H1].
  etransitivity; [| apply attemptAttack_hp_le].
  apply (mutate_rel hp_le); [exact H1 |]. intros y _. unfold hp_le.
  match goal with
  | |- w_hp (steer ?a ?b ?c ?d ?e) <= _ =>
      destruct (steer_fields a b c d e) as (_ & -> & _)
  end. lra.
Qed.

Lemma attemptAttack_armed (i : nat) (tgt : option nat) (wd : World) :
  Forall armed (projectiles wd) ->
  Forall armed (projectiles (attemptAttack i tgt wd)).
Proof.
  intros H. unfold attemptAttack.
  destruct (warriors wd !! i) as [self |]; [| exact H].
  destruct (tgt ≫= _) as [[j target] |]; [| exact H].
  destruct (_ || _); [exact H |].
  destruct (bool_decide _).
  - destruct (Rleb _ _); [| exact H]. cbn.
    apply Forall_app. split; [exact H |]. repeat constructor.
  - destruct (Rleb _ _); exact H.
Qed.

Lemma Warrior_update_armed (dt : R) (i : nat) (wd : World) :
  Forall armed (projectiles wd) ->
  Forall armed (projectiles (Warrior_update dt i wd)).
Proof.
  intros H. unfold Warrior_update.
  destruct (warriors wd !! i) as [this |]; [| exact H].
  destruct (negb _); [exact H |].
  destruct (findTarget _ _ _) as [[j target] |]; [| exact H].
  apply attemptAttack_armed. exact H.
Qed.

Lemma warriors_loop_hp_armed (dt : R) (wd : World) :
  Forall armed (projectiles wd) ->
  Forall2 hp_le (warriors wd) (warriors (warriors_loop dt wd)) /\
  Forall armed (projectiles (warriors_loop dt wd)).
Proof.
  pose proof hp_le_refl as Hrefl. pose proof hp_le_trans as Htrans.
  unfold warriors_loop. generalize (seq 0 (length (warriors wd))) as idx.
  assert (H0 : Forall2 hp_le (warriors wd) (warriors wd)) by reflexivity.
  revert H0. generalize (warriors wd) at 1 3 as ws0.
  intros ws0 H0 idx. revert wd H0.
  induction idx as [| i idx IH]; intros wd H0 Ha; cbn; [now split |].
  apply IH.
  - etransitivity; [exact H0 | apply Warrior_update_hp_le].
  - now apply Warrior_update_armed.
Qed.

Lemma Projectile_update_hp_le (dt : R) (p : Projectile) (ws : list Warrior) :
  0 <= p_damage p -> Forall2 hp_le ws (snd (Projectile_update dt p ws)).
Proof.
  intros Hd. pose proof hp_le_refl as Hrefl.
  unfold Projectile_update. cbn zeta.
  destruct (Rgeb _ _); [reflexivity |].
  match goal with
  | |- context [collide ?q ws] => destruct (collide q ws) as [ws' |] eqn:E
  end; cbn [snd]; [| reflexivity].
  apply collide_some_inv in E as (k & e & _ & _ & _ & ->).
  apply Forall2_alter_r; [reflexivity |].
  intros x y _ _ Hxy. unfold hp_le in *.
  match goal with
  | |- w_hp (takeDamage ?a y) <= _ =>
      destruct (takeDamage_fields a y) as (_ & _ & _ & -> & _);
      assert (0 <= a) by (destruct (Rgeb _ _); exact Hd)
  end. lra.
Qed.

Lemma Projectile_update_armed (dt : R) (p : Projectile) (ws : list Warrior) :
  armed p -> armed (fst (Projectile_update dt p ws)).
Proof.
  unfold armed, Projectile_update. cbn zeta. intros H.
  destruct (Rgeb _ _); [exact H |].
  destruct (Rgeb _ _); destruct (collide _ ws); exact H.
Qed.

Lemma armed_damage_pos (p : Projectile) : armed p -> 0 <= p_damage p.
Proof.
  unfold armed. intros ->. apply Rlt_le, damage_pos.
Qed.

Lemma projectiles_forEach_hp_armed (dt : R) (ps : list Projectile)
    (ws : list Warrior) :
  Forall armed ps ->
  Forall2 hp_le ws (snd (projectiles_forEach dt ps ws)) /\
  Forall armed (fst (projectiles_forEach dt ps ws)).
Proof.
  pose proof hp_le_refl as Hrefl. pose proof hp_le_trans as Htrans.
  intros H. revert ws. induction H as [| p rest Hp _ IH]; intros ws; cbn.
  - split; [reflexivity | constructor].
  - pose proof (Projectile_update_hp_le dt p ws (armed_damage_pos p Hp)) as H1.
    pose proof (Projectile_update_armed dt p ws Hp) as H2.
    destruct (Projectile_update dt p ws) as [p' ws1].
    destruct (IH ws1) as [H3 H4].
    destruct (projectiles_forEach dt rest ws1) as [rest' ws2]. cbn in *.
    split; [etransitivity; eassumption | constructor; assumption].
Qed.

Lemma simulate_hp_armed (dt : R) (wd : World) :
  Forall armed (projectiles wd) ->
  Forall2 hp_le (warriors wd) (warriors (simulate dt wd)) /\
  Forall armed (projectiles (simulate dt wd)).
Proof.
  pose proof hp_le_trans as Htrans.
  intros H. destruct (warriors_loop_hp_armed dt wd H) as [H1 H2].
  unfold simulate.
  destruct (projectiles_forEach_hp_armed dt _
              (warriors (warriors_loop dt wd)) H2) as [H3 H4].
  destruct (projectiles_forEach _ _ _) as [ps ws]. cbn in *.
  split; [etransitivity; eassumption | exact H4].
Qed.

(** X13.  Nothing heals.  When every projectile in flight carries its
    owner's damage, the two update phases of a frame leave no warrior
    with more hit points than it had, and every projectile in flight
    afterwards still carries its owner's damage. *)
Theorem hp_never_rises (dt : R) (wd : World) :
  Forall armed (projectiles wd) ->
  Forall2 hp_le (warriors wd) (warriors (simulate dt wd)) /\
  Forall armed (projectiles (simulate dt wd)).
Proof. apply simulate_hp_armed. Qed.

Lemma maxhp_pos (t : WType) : 0 < maxhp (TYPE_CONFIG t).
Proof. destruct t; cbn; lra. Qed.

Lemma update_armed_full (ts : R) (s : State) :
  Forall armed (projectiles (st_world s)) ->
  Forall (fun w => w_hp w <= maxhp (w_config w)) (warriors (st_world s)) ->
  Forall armed (projectiles (st_world (update ts s))) /\
  Forall (fun w => w_hp w <= maxhp (w_config w))
    (warriors (st_world (update ts s))).
Proof.
  intros Ha Hh.
  destruct (running s) eqn:Hr.
  - rewrite update_running_world by exact Hr.
    destruct (simulate_hp_armed
                (num_or ((ts - lastTimestamp s) / 1000) 0) (st_world s) Ha)
      as [H1 H2].
    pose proof (simulate_same_type
                  (num_or ((ts - lastTimestamp s) / 1000) 0) (st_world s))
      as H3.
    unfold prune. cbn [warriors projectiles]. split.
    + rewrite Forall_forall in *. intros p Hp.
      apply list_elem_of_filter in Hp as [_ Hp]. auto.
    + apply Forall_forall. intros w' Hw'.
      apply list_elem_of_filter in Hw' as [_ Hw'].
      apply list_elem_of_lookup in Hw' as [k Hk].
      destruct (Forall2_lookup_r _ _ _ _ _ H1 Hk) as (w & Hw & Hle).
      destruct (Forall2_lookup_r _ _ _ _ _ H3 Hk) as (w2 & Hw2 & Hty).
      assert (w2 = w) by congruence. subst w2.
      rewrite Forall_forall in Hh.
      assert (Hin : w ∈ warriors (st_world s))
        by (apply list_elem_of_lookup; eauto).
      specialize (Hh w Hin). unfold hp_le, same_type, w_config in *.
      rewrite Hty. lra.
  - rewrite update_not_running by exact Hr. split; assumption.
Qed.

(** X14.  The health bar never overflows.  When no warrior has more
    than its full hit points and every projectile carries its owner's
    damage, the same holds after [update], and the share of the bar
    that [drawWarrior] fills is between 0 and 1 for every warrior of
    the roster. *)
Theorem health_bar_in_range (ts : R) (s : State) :
  Forall armed (projectiles (st_world s)) ->
  Forall (fun w => w_hp w <= maxhp (w_config w)) (warriors (st_world s)) ->
  Forall armed (projectiles (st_world (update ts s))) /\
  Forall (fun w => w_hp w <= maxhp (w_config w) /\ 0 <= hpRatio w <= 1)
    (warriors (st_world (update ts s))).
Proof.
  intros Ha Hh.
  destruct (update_armed_full ts s Ha Hh) as [H1 H2].
  split; [exact H1 |].
  eapply Forall_impl; [exact H2 |]. intros w Hw. split; [exact Hw |].
  unfold hpRatio.
  pose proof (maxhp_pos (w_type w)) as Hm. fold (w_config w) in Hm.
  split; [apply Rmax_l |]. apply Rmax_lub; [lra |].
  apply (Rmult_le_reg_r (maxhp (w_config w))); [exact Hm |].
  unfold Rdiv. rewrite Rmult_assoc, Rinv_l by lra. lra.
Qed.

(** ** Damage adds up *)

(** X16.  Damage adds up and never revives: two hits in a row, the
    second of a non-negative amount, leave the warrior as one hit of
    the sum does; and a warrior alive after a hit was alive before. *)
Theorem takeDamage_accumulates (a b : R) (w : Warrior) :
  (0 <= a -> takeDamage a (takeDamage b w) = takeDamage (b + a) w) /\
  (w_alive (takeDamage a w) = true -> w_alive w = true).
Proof.
  split.
  - intros Ha. destruct w as [ty x y hp cd al hd ed et lx ly wr].
    unfold takeDamage, Rleb. cbn.
    destruct (Rle_dec (hp - b) 0) as [H1 | H1]; cbn;
      destruct (Rle_dec (hp - b - a) 0) as [H2 | H2];
      destruct (Rle_dec (hp - (b + a)) 0) as [H3 | H3];
      try lra; unfold set_alive, set_hp; cbn; f_equal; lra.
  - unfold takeDamage. cbn zeta. destruct (Rleb _ _); cbn; auto.
    discriminate.
Qed.

(** ** Seeding *)

Lemma isPositionValid_spec (x y : R) (ws : list Warrior) (d : R) :
  isPositionValid x y ws d = true <->
  Forall (fun w => d <= hypot (w_x w - x) (w_y w - y)) ws.
Proof.
  induction ws as [| w rest IH]; cbn [isPositionValid].
  - split; [constructor | reflexivity].
  - cbn zeta. destruct (Rltb _ d) eqn:E.
    + apply Rltb_spec in E. split; [discriminate |].
      intros H. apply Forall_cons in H as [H _]. lra.
    + apply Rltb_nspec in E. rewrite IH. split.
      * intros H. constructor; assumption.
      * intros H. now apply Forall_cons in H as [_ H].
Qed.

Lemma place_cases (rng : Draws) (existing : list Warrior) (left n : nat) :
  exists k : nat,
    (k <= left)%nat /\
    place rng existing left n =
      (attempt rng (n + 2 * k), S (S (n + 2 * k))) /\
    (forall j, (j < k)%nat ->
       isPositionValid (fst (attempt rng (n + 2 * j)))
         (snd (attempt rng (n + 2 * j))) existing 25 = false) /\
    ((k < left)%nat ->
       isPositionValid (fst (attempt rng (n + 2 * k)))
         (snd (attempt rng (n + 2 * k))) existing 25 = true).
Proof.
  revert n. induction left as [| left' IH]; intros n; cbn [place].
  - exists O. rewrite Nat.add_0_r.
    split; [lia | split; [reflexivity | split; intros; lia]].
  - cbn zeta. fold (attempt rng n).
    destruct (isPositionValid _ _ existing 25) eqn:E.
    + exists O. rewrite Nat.add_0_r.
      split; [lia | split; [reflexivity | split]].
      * intros j Hj. lia.
      * intros _. exact E.
    + destruct (IH (S (S n))) as (k & Hk & Hp & Hbad & Hgood).
      exists (S k).
      replace (n + 2 * S k)%nat with (S (S n) + 2 * k)%nat by lia.
      split; [lia | split; [exact Hp | split]].
      * intros j Hj. destruct j as [| j].
        -- rewrite Nat.add_0_r. exact E.
        -- replace (n + 2 * S j)%nat with (S (S n) + 2 * j)%nat by lia.
           apply Hbad. lia.
      * intros H. apply Hgood. lia.
Qed.

(** X18.  Placing a warrior takes at most 100 attempts.  The point kept
    is the one drawn at the [k]-th retry for some [k <= left]; every
    point drawn before it was closer than 25 to a warrior already
    placed; the point kept is at least 25 away from all of them unless
    it is the last attempt allowed, which is kept as it is. *)
Theorem place_spec (rng : Draws) (existing : list Warrior) (left n : nat) :
  exists k : nat,
    (k <= left)%nat /\
    place rng existing left n =
      (attempt rng (n + 2 * k), S (S (n + 2 * k))) /\
    (forall j, (j < k)%nat -> ~ spaced existing (attempt rng (n + 2 * j))) /\
    ((k < left)%nat -> spaced existing (attempt rng (n + 2 * k))).
Proof.
  destruct (place_cases rng existing left n) as (k & Hk & Hp & Hbad & Hgood).
  exists k. repeat split; [exact Hk | exact Hp | |].
  - intros j Hj Hs. apply isPositionValid_spec in Hs.
    rewrite (Hbad j Hj) in Hs. discriminate.
  - intros H. apply isPositionValid_spec. now apply Hgood.
Qed.

Lemma seed_type_Forall (P : Warrior -> Prop) (rng : Draws) (type : WType)
    (amount : nat) (ws : list Warrior) (n : nat) :
  (forall m heading,
     P (new_Warrior type (fst (attempt rng m)) (snd (attempt rng m))
          heading)) ->
  Forall P ws -> Forall P (fst (seed_type rng type amount ws n)).
Proof.
  intros Hnew. revert ws n.
  induction amount as [| a IH]; intros ws n Hws; cbn [seed_type].
  - exact Hws.
  - destruct (place_cases rng ws 99 n) as (k & _ & -> & _).
    apply IH. apply Forall_app. split; [exact Hws |].
    constructor; [apply Hnew | constructor].
Qed.

Lemma seed_type_types (rng : Draws) (type : WType) (amount : nat)
    (ws : list Warrior) (n : nat) :
  w_type <$> fst (seed_type rng type amount ws n) =
    (w_type <$> ws) ++ replicate amount type.
Proof.
  revert ws n. induction amount as [| a IH]; intros ws n; cbn [seed_type].
  - cbn. now rewrite app_nil_r.
  - destruct (place rng ws 99 n) as [point n1].
    rewrite IH, fmap_app, <- app_assoc. reflexivity.
Qed.

Lemma seed_type_cursor (rng : Draws) (type : WType) (amount : nat)
    (ws : list Warrior) (n : nat) :
  (n + 3 * amount <= snd (seed_type rng type amount ws n)
   <= n + 201 * amount)%nat.
Proof.
  revert ws n. induction amount as [| a IH]; intros ws n; cbn [seed_type].
  - cbn. lia.
  - destruct (place_cases rng ws 99 n) as (k & Hk & -> & _).
    specialize (IH (ws ++
      [new_Warrior type (fst (attempt rng (n + 2 * k)))
         (snd (attempt rng (n + 2 * k)))
         (rng (S (S (n + 2 * k))) * PI * 2)]) (S (S (S (n + 2 * k))))).
    cbn [fst snd] in *. lia.
Qed.

Lemma new_Warrior_unscathed (type : WType) (x y heading : R) :
  unscathed (new_Warrior type x y heading).
Proof. repeat split. Qed.

(** X19.  What [seedWarriors] leaves.  The roster holds exactly the
    requested number of warriors of each type, circles first, then
    squares, then triangles, and nothing is in flight.  Every warrior
    is as the constructor makes it: alive, at full hit points, with no
    cooldown and no retreat pending.  Seeding uses at least 3 and at
    most 201 draws for each warrior requested.  When the draws are in
    [0, 1) and the arena radius is at least the spawn margin of 50,
    every warrior is inside the arena. *)
Theorem seedWarriors_roster (counts : Counts) (rng : Draws) (n : nat) :
  let wd := fst (seedWarriors counts rng n) in
  let total := (counts circle + counts square + counts triangle)%nat in
  w_type <$> warriors wd =
    replicate (counts circle) circle ++ replicate (counts square) square
      ++ replicate (counts triangle) triangle /\
  projectiles wd = [] /\
  Forall unscathed (warriors wd) /\
  (n + 3 * total <= snd (seedWarriors counts rng n) <= n + 201 * total)%nat /\
  ((forall m, 0 <= rng m < 1) -> 50 <= ARENA_RADIUS ->
   Forall inside_arena (warriors wd)).
Proof.
  unfold seedWarriors. cbn [fold_left].
  pose proof (seed_type_types rng circle (counts circle) [] n) as T1.
  pose proof (seed_type_cursor rng circle (counts circle) [] n) as C1.
  pose proof (fun P H => seed_type_Forall P rng circle (counts circle) [] n H
                           (Forall_nil_2 P)) as F1.
  destruct (seed_type rng circle (counts circle) [] n) as [ws1 n1].
  pose proof (seed_type_types rng square (counts square) ws1 n1) as T2.
  pose proof (seed_type_cursor rng square (counts square) ws1 n1) as C2.
  pose proof (fun P H => seed_type_Forall P rng square (counts square) ws1 n1 H)
    as F2.
  destruct (seed_type rng square (counts square) ws1 n1) as [ws2 n2].
  pose proof (seed_type_types rng triangle (counts triangle) ws2 n2) as T3.
  pose proof (seed_type_cursor rng triangle (counts triangle) ws2 n2) as C3.
  pose proof (fun P H =>
                seed_type_Forall P rng triangle (counts triangle) ws2 n2 H)
    as F3.
  destruct (seed_type rng triangle (counts triangle) ws2 n2) as [ws3 n3].
  cbn [fst snd warriors projectiles] in *.
  assert (Hall : forall P : Warrior -> Prop,
            (forall type m heading,
               P (new_Warrior type (fst (attempt rng m))
                    (snd (attempt rng m)) heading)) ->
            Forall P ws3).
  { intros P HP. apply F3; [apply HP |]. apply F2; [apply HP |].
    apply F1. apply HP. }
  split; [| split; [reflexivity | split; [| split]]].
  - rewrite T3, T2, T1. cbn. now rewrite <- app_assoc.
  - apply Hall. intros. apply new_Warrior_unscathed.
  - lia.
  - intros Hrng HR. apply Hall. intros type m heading.
    apply randomPoint_inside; [apply Hrng | exact HR].
Qed.

(** ** A battle from its start *)

Lemma update_sound (ts : R) (s : State) :
  16 <= ARENA_RADIUS -> sound_state s -> sound_state (update ts s).
Proof.
  intros HR [Hw Hp].
  destruct (running s) eqn:Hr; [| now rewrite update_not_running].
  assert (Harmed : Forall armed (projectiles (st_world s))).
  { eapply Forall_impl; [exact Hp |]. now intros p (_ & H & _). }
  assert (Hfull : Forall (fun w => w_hp w <= maxhp (w_config w))
                    (warriors (st_world s))).
  { eapply Forall_impl; [exact Hw |]. now intros w (_ & [_ H] & _). }
  destruct (update_armed_full ts s Harmed Hfull) as [Ha' Hf'].
  unfold sound_state.
  revert Ha' Hf'. rewrite update_running_world by exact Hr.
  set (dt := num_or ((ts - lastTimestamp s) / 1000) 0).
  intros Ha' Hf'.
  assert (H1 : Forall alive_iff_hp (warriors (simulate dt (st_world s)))).
  { apply simulate_alive_iff_hp. eapply Forall_impl; [exact Hw |].
    intros w (Hal & [Hhp _] & _). split; auto. }
  assert (H2 : Forall timers_ok (warriors (simulate dt (st_world s)))).
  { apply simulate_timers_ok. eapply Forall_impl; [exact Hw |].
    now intros w (_ & _ & H & _). }
  assert (H3 : Forall within_circle (warriors (simulate dt (st_world s)))).
  { apply simulate_within_circle; [exact HR |].
    eapply Forall_impl; [exact Hw |]. now intros w (_ & _ & _ & H). }
  split.
  - rewrite Forall_forall in *. intros w Hin.
    specialize (Hf' w Hin).
    unfold prune in Hin. cbn [warriors] in Hin.
    apply list_elem_of_filter in Hin as [Hal Hin].
    repeat split; auto.
    + now apply (H1 w Hin).
    + apply (H2 w Hin).
    + apply (H2 w Hin).
  - assert (H4 : Forall (fun p => p_alive p = true -> projectile_inside p)
                   (projectiles (simulate dt (st_world s)))).
    { unfold simulate.
      pose proof (projectiles_forEach_alive_inside dt
        (projectiles (warriors_loop dt (st_world s)))
        (warriors (warriors_loop dt (st_world s)))) as H.
      destruct (projectiles_forEach _ _ _) as [ps ws]. exact H. }
    rewrite Forall_forall in *. intros p Hin.
    specialize (Ha' p Hin).
    unfold prune in Hin. cbn [projectiles] in Hin.
    apply list_elem_of_filter in Hin as [Hal Hin].
    repeat split; auto.
Qed.

Lemma frames_sound (timestamps : list R) (s : State) :
  16 <= ARENA_RADIUS -> sound_state s -> sound_state (frames timestamps s).
Proof.
  intros HR. revert s. unfold frames.
  induction timestamps as [| ts rest IH]; intros s Hs; cbn [fold_left].
  - exact Hs.
  - apply IH. now apply update_sound.
Qed.

Lemma seedWarriors_Forall (P : Warrior -> Prop) (counts : Counts)
    (rng : Draws) (n : nat) :
  (forall type m heading,
     P (new_Warrior type (fst (attempt rng m)) (snd (attempt rng m))
          heading)) ->
  Forall P (warriors (fst (seedWarriors counts rng n))) /\
  projectiles (fst (seedWarriors counts rng n)) = [].
Proof.
  intros HP. unfold seedWarriors. cbn [fold_left].
  pose proof (seed_type_Forall P rng circle (counts circle) [] n
                (HP circle) (Forall_nil_2 P)) as F1.
  destruct (seed_type rng circle (counts circle) [] n) as [ws1 n1].
  pose proof (seed_type_Forall P rng square (counts square) ws1 n1
                (HP square) F1) as F2.
  destruct (seed_type rng square (counts square) ws1 n1) as [ws2 n2].
  pose proof (seed_type_Forall P rng triangle (counts triangle) ws2 n2
                (HP triangle) F2) as F3.
  destruct (seed_type rng triangle (counts triangle) ws2 n2) as [ws3 n3].
  split; [exact F3 | reflexivity].
Qed.

(** X20.  What holds throughout a battle.  Start a battle with any
    counts, with draws in [0, 1), in an arena of radius at least 50,
    and let any number of frames follow at any timestamps.  Then every
    warrior of the roster is alive, has positive hit points and no more
    than its full hit points, has non-negative timers and has its
    centre strictly inside the arena circle; and every projectile in
    the list is alive, carries its owner's damage and is, by the code's
    own test, strictly inside the arena circle. *)
Theorem battle_stays_sound (counts : Counts) (rng : Draws) (n : nat)
    (now : R) (s : State) (timestamps : list R) :
  (forall m, 0 <= rng m < 1) -> 50 <= ARENA_RADIUS ->
  sound_state (frames timestamps (startBattle counts rng n now s)).
Proof.
  intros Hrng HR. apply frames_sound; [lra |].
  unfold sound_state, startBattle. cbn [st_world].
  destruct (seedWarriors_Forall battle_ready counts rng n) as [H1 H2].
  - intros type m heading. unfold battle_ready.
    pose proof (maxhp_pos type) as Hm.
    split; [reflexivity |].
    split; [unfold w_config; cbn [w_hp w_type new_Warrior]; lra |].
    split; [split; cbn [w_cooldown w_wantRetreat new_Warrior]; lra |].
    apply inside_arena_within_circle.
    apply randomPoint_inside; [apply Hrng | exact HR].
  - split; [exact H1 |]. rewrite H2. constructor.
Qed.

(** ** A battle with one side *)

Lemma unhurt_refl (w : Warrior) : unhurt w w.
Proof. repeat split. Qed.

Lemma unhurt_trans (a b c : Warrior) : unhurt a b -> unhurt b c -> unhurt a c.
Proof.
  unfold unhurt. intros (? & ? & ? & ? & ?) (? & ? & ? & ? & ?).
  repeat split; congruence.
Qed.

Lemma Forall2_unhurt_refl (ws : list Warrior) : Forall2 unhurt ws ws.
Proof. induction ws; constructor; auto using unhurt_refl. Qed.

Lemma Forall2_unhurt_trans (l1 l2 l3 : list Warrior) :
  Forall2 unhurt l1 l2 -> Forall2 unhurt l2 l3 -> Forall2 unhurt l1 l3.
Proof.
  intros H. revert l3. induction H as [| a b l1 l2 Hab _ IH]; intros l3 H23.
  - inversion H23. constructor.
  - inversion H23 as [| b' c l2' l3' Hbc Hrest]; subst.
    constructor; [eapply unhurt_trans; eassumption | now apply IH].
Qed.

Lemma Forall2_unhurt_types (t : WType) (l1 l2 : list Warrior) :
  Forall2 unhurt l1 l2 ->
  Forall (fun w => w_alive w = true /\ w_type w = t) l1 ->
  Forall (fun w => w_alive w = true /\ w_type w = t) l2.
Proof.
  induction 1 as [| a b l1 l2 (Ht & Ha & _) _ IH]; intros H.
  - constructor.
  - apply Forall_cons in H as [[Hal Hty] Hrest].
    constructor; [split; congruence | now apply IH].
Qed.

(** With nobody to fight, a turn only lets the timers run down. *)
Lemma Warrior_update_one_sided (dt : R) (i : nat) (wd : World) (t : WType) :
  Forall (fun w => w_alive w = true /\ w_type w = t) (warriors wd) ->
  Forall2 unhurt (warriors wd) (warriors (Warrior_update dt i wd)) /\
  projectiles (Warrior_update dt i wd) = projectiles wd.
Proof.
  intros Hall. unfold Warrior_update.
  destruct (warriors wd !! i) as [this |] eqn:Hi;
    [| split; [apply Forall2_unhurt_refl | reflexivity]].
  destruct (w_alive this);
    [| split; [apply Forall2_unhurt_refl | reflexivity]].
  cbn [negb].
  assert (Hstep : Forall2 unhurt (warriors wd)
                    (warriors (mutate i (decay_timers dt) wd))).
  { unfold mutate. cbn [warriors]. apply Forall2_alter_r.
    - apply Forall2_unhurt_refl.
    - intros x y Hx Hy Hxy. eapply unhurt_trans; [exact Hxy |].
      destruct (decay_timers_fields dt y) as (? & ? & ? & ? & ?).
      repeat split; assumption. }
  destruct (findTarget i (decay_timers dt this)
              (warriors (mutate i (decay_timers dt) wd)))
    as [[j target] |] eqn:Hf.
  - exfalso. apply findTarget_spec in Hf as (Hj & _ & _ & Hty).
    pose proof (Forall2_unhurt_types t _ _ Hstep Hall) as Hall'.
    rewrite Forall_forall in Hall, Hall'.
    assert (Ht1 : w_type target = t).
    { apply Hall'. apply list_elem_of_lookup. eauto. }
    assert (Ht2 : w_type this = t).
    { apply Hall. apply list_elem_of_lookup. eauto. }
    destruct (decay_timers_fields dt this) as (Ht3 & _).
    congruence.
  - split; [exact Hstep | reflexivity].
Qed.

Lemma warriors_loop_one_sided (dt : R) (wd : World) (t : WType) :
  Forall (fun w => w_alive w = true /\ w_type w = t) (warriors wd) ->
  Forall2 unhurt (warriors wd) (warriors (warriors_loop dt wd)) /\
  projectiles (warriors_loop dt wd) = projectiles wd.
Proof.
  unfold warriors_loop. generalize (seq 0 (length (warriors wd))) as l.
  intros l. revert wd. induction l as [| i l IH]; intros wd Hall.
  - cbn. split; [apply Forall2_unhurt_refl | reflexivity].
  - cbn [fold_left].
    destruct (Warrior_update_one_sided dt i wd t Hall) as [H1 H2].
    destruct (IH (Warrior_update dt i wd)) as [H3 H4].
    + eapply Forall2_unhurt_types; eassumption.
    + split; [eapply Forall2_unhurt_trans; eassumption | congruence].
Qed.

Lemma filter_all {A : Type} (P : A -> Prop) `{!forall x, Decision (P x)}
    (l : list A) :
  Forall P l -> filter P l = l.
Proof.
  induction 1 as [| x l Hx _ IH]; [reflexivity |].
  rewrite filter_cons. destruct (decide (P x)); [| contradiction].
  now rewrite IH.
Qed.

Lemma updateStats_one_type (t t' : WType) (ws : list Warrior) :
  Forall (fun w => w_alive w = true /\ w_type w = t) ws ->
  updateStats ws t' = if decide (t' = t) then length ws else O.
Proof.
  intros H. unfold updateStats. destruct (decide (t' = t)) as [-> | Hne].
  - now rewrite filter_all.
  - induction H as [| w l [_ Hw] _ IH]; [reflexivity |].
    rewrite filter_cons. destruct (decide _) as [[_ Hty] | _]; [| exact IH].
    congruence.
Qed.

(** X21.  A battle with one side is over after its first frame.  When
    the frame starts with nothing in flight and a roster of living
    warriors of one type, nobody is hurt or moved, the battle stops,
    and that type is recorded as the winner; with an empty roster it
    stops without a winner. *)
Theorem one_sided_battle (ts : R) (s : State) (t : WType) :
  running s = true ->
  projectiles (st_world s) = [] ->
  Forall (fun w => w_alive w = true /\ w_type w = t) (warriors (st_world s)) ->
  let s' := update ts s in
  running s' = false /\
  winnerType s' =
    match warriors (st_world s) with [] => None | _ :: _ => Some t end /\
  Forall2 unhurt (warriors (st_world s)) (warriors (st_world s')) /\
  projectiles (st_world s') = [].
Proof.
  intros Hr Hp Hall. cbn zeta.
  set (dt := num_or ((ts - lastTimestamp s) / 1000) 0).
  destruct (warriors_loop_one_sided dt (st_world s) t Hall) as [H1 H2].
  assert (Hsim : simulate dt (st_world s) =
                   {| warriors := warriors (warriors_loop dt (st_world s));
                      projectiles := [] |}).
  { unfold simulate. rewrite H2, Hp. reflexivity. }
  pose proof (Forall2_unhurt_types t _ _ H1 Hall) as Hall'.
  assert (Hprune : prune (simulate dt (st_world s)) =
                     {| warriors := warriors (warriors_loop dt (st_world s));
                        projectiles := [] |}).
  { rewrite Hsim. unfold prune. cbn [warriors projectiles]. f_equal.
    apply filter_all. eapply Forall_impl; [exact Hall' |]. now intros w [? _]. }
  unfold update. rewrite Hr. cbn [negb]. fold dt. rewrite Hprune.
  cbn [warriors].
  set (ws' := warriors (warriors_loop dt (st_world s))) in *.
  assert (Hlen : length ws' = length (warriors (st_world s)))
    by (symmetry; eapply Forall2_length; exact H1).
  unfold determineVictor, livingTypes.
  rewrite !filter_cons, filter_nil.
  rewrite !(updateStats_one_type t _ ws' Hall').
  destruct (warriors (st_world s)) as [| w0 rest] eqn:Hws.
  - cbn [length] in Hlen. rewrite Hlen.
    destruct t; repeat case_decide; try congruence; try lia;
      cbn; repeat split; assumption.
  - cbn [length] in Hlen. rewrite Hlen.
    destruct t; repeat case_decide; try congruence; try lia;
      cbn; repeat split; assumption.
Qed.

(** ** Hit sparkles *)

Lemma updateHitEffects_elem (dt : R) (fxs : list HitEffect) (fx' : HitEffect) :
  fx' ∈ updateHitEffects dt fxs ->
  fx_life fx' < fx_maxLife fx' /\
  exists fx, fx ∈ fxs /\ fx_life fx' = fx_life fx + dt /\
             fx_maxLife fx' = fx_maxLife fx.
Proof.
  unfold updateHitEffects. intros H.
  apply list_elem_of_filter in H as [Hlt Hin].
  apply Rltb_spec in Hlt. split; [exact Hlt |].
  apply list_elem_of_fmap in Hin as (fx & -> & Hin).
  exists fx. cbn. auto.
Qed.

(** X22.  Sparkles fade and go.  [spawnHitEffect], with draws in
    [0, 1), appends one sparkle to the list: at the point given, aged
    0, with a life span from 0.25 to 0.35 and a size from 12 to 20.  A
    step [dt >= 0] ages every sparkle by [dt] and keeps exactly those
    still younger than their life span, each of which is then drawn
    with an opacity in (0, 1]; none is added; and a step of 0.35 or
    more leaves none. *)
Theorem sparkles_fade (dt : R) (fxs : list HitEffect) :
  0 <= dt -> Forall sparkle_ok fxs ->
  Forall (fun fx' =>
            (exists fx, fx ∈ fxs /\ fx_life fx' = fx_life fx + dt /\
                        fx_maxLife fx' = fx_maxLife fx) /\
            sparkle_ok fx' /\ 0 < fx_alpha fx' <= 1)
    (updateHitEffects dt fxs) /\
  (forall fx, fx ∈ fxs -> fx_life fx + dt < fx_maxLife fx ->
     exists fx', fx' ∈ updateHitEffects dt fxs /\
                 fx_life fx' = fx_life fx + dt) /\
  (length (updateHitEffects dt fxs) <= length fxs)%nat /\
  (35 / 100 <= dt -> updateHitEffects dt fxs = []) /\
  (forall x y draw1 draw2 draw3,
     0 <= draw1 < 1 -> 0 <= draw2 < 1 ->
     exists fx,
       spawnHitEffect x y draw1 draw2 draw3 fxs = fxs ++ [fx] /\
       fx_x fx = x /\ fx_y fx = y /\ fx_life fx = 0 /\
       25 / 100 <= fx_maxLife fx <= 35 / 100 /\
       12 <= fx_size fx <= 20 /\
       sparkle_ok fx).
Proof.
  intros Hdt Hok.
  assert (Hkept : Forall (fun fx' =>
            (exists fx, fx ∈ fxs /\ fx_life fx' = fx_life fx + dt /\
                        fx_maxLife fx' = fx_maxLife fx) /\
            sparkle_ok fx' /\ 0 < fx_alpha fx' <= 1)
                    (updateHitEffects dt fxs)).
  { apply Forall_forall. intros fx' Hin.
    apply updateHitEffects_elem in Hin as (Hlt & fx & Hfx & Hl & Hm).
    split; [exists fx; auto |].
    rewrite Forall_forall in Hok. destruct (Hok fx Hfx) as [[H0 H1] H2].
    assert (Hpos : 0 < fx_maxLife fx') by lra.
    split; [unfold sparkle_ok; lra |].
    unfold fx_alpha.
    assert (Hq : 0 <= fx_life fx' / fx_maxLife fx' < 1).
    { split.
      - apply Rmult_le_pos; [lra |]. apply Rlt_le, Rinv_0_lt_compat, Hpos.
      - apply (Rmult_lt_reg_r (fx_maxLife fx')); [exact Hpos |].
        unfold Rdiv. rewrite Rmult_assoc, Rinv_l by lra. lra. }
    lra. }
  split; [exact Hkept |]. split; [| split; [| split]].
  - intros fx Hfx Hyoung.
    exists (mkHitEffect (fx_x fx) (fx_y fx) (fx_life fx + dt) (fx_maxLife fx)
              (fx_size fx) (fx_rotation fx)).
    split; [| reflexivity].
    unfold updateHitEffects. apply list_elem_of_filter. split.
    + apply Rltb_spec. exact Hyoung.
    + apply list_elem_of_fmap. exists fx. split; [reflexivity | exact Hfx].
  - unfold updateHitEffects.
    etransitivity; [apply length_filter |]. now rewrite length_fmap.
  - intros Hlong. destruct (updateHitEffects dt fxs) as [| fx' rest] eqn:E;
      [reflexivity |].
    exfalso.
    assert (Hin : fx' ∈ updateHitEffects dt fxs) by (rewrite E; left).
    apply updateHitEffects_elem in Hin as (Hlt & fx & Hfx & Hl & Hm).
    rewrite Forall_forall in Hok. destruct (Hok fx Hfx) as [[H0 H1] H2].
    lra.
  - intros x y draw1 draw2 draw3 Hd1 Hd2. unfold spawnHitEffect.
    eexists. split; [reflexivity |]. unfold sparkle_ok. cbn.
    repeat split; lra.
Qed.

End Arena.

(** * The examples, on the 800 by 800 canvas *)

Lemma CENTER_x_800 : CENTER_x 800 = 400.
Proof. unfold CENTER_x. lra. Qed.

Lemma CENTER_y_800 : CENTER_y 800 = 400.
Proof. unfold CENTER_y. lra. Qed.

Lemma ARENA_RADIUS_800 : ARENA_RADIUS 800 800 = 360.
Proof. unfold ARENA_RADIUS. rewrite Rmin_left by lra. lra. Qed.

(** ** The duel at 56, turn by turn *)

(** The triangle holds its place, whatever the time step. *)
Lemma kiter_after_fields (dt : R) :
  w_type (kiter_after 800 800 dt) = triangle /\
  w_alive (kiter_after 800 800 dt) = true /\
  w_x (kiter_after 800 800 dt) = 400 /\
  w_y (kiter_after 800 800 dt) = 400 /\
  w_cooldown (kiter_after 800 800 dt) = Rmax 0 (0 - dt).
Proof.
  unfold kiter_after.
  destruct (steer_fields 800 800 dt 0 (decay_timers dt kiter_mid) tank_56
              (mutate 0 (decay_timers dt) duel_56))
    as (-> & _ & -> & -> & _).
  destruct (steer_hold 800 800 dt 0 (decay_timers dt kiter_mid) tank_56
              (mutate 0 (decay_timers dt) duel_56)) as [-> ->].
  - rewrite shouldMove_triangle
      by (rewrite decay_timers_idle by (cbn; lra); reflexivity).
    rewrite decay_timers_idle by (cbn; lra). cbn.
    rewrite hypot_along by lra. rewrite num_or_nonzero by lra.
    unfold Rgtb. rewrite !Rltb_false by lra. reflexivity.
  - rewrite decay_timers_idle by (cbn; lra). cbn. repeat split.
Qed.

Lemma duel_56_kiter_target (dt : R) :
  findTarget 0 (decay_timers dt kiter_mid)
    (warriors (mutate 0 (decay_timers dt) duel_56)) = Some (1%nat, tank_56).
Proof.
  apply findTarget_only; try reflexivity.
  - discriminate.
  - rewrite decay_timers_idle by (cbn; lra). discriminate.
  - intros [| [| m]] e Hm He; try discriminate; [now left | lia].
Qed.

(** With time going forward it also fires: the cooldown is zero and the
    square is within range. *)
Lemma duel_56_kiter_turn (dt : R) :
  0 <= dt ->
  Warrior_update 800 800 dt 0 duel_56 =
    {| warriors := [set_cooldown (8 / 10) (kiter_after 800 800 dt); tank_56];
       projectiles := [new_Projectile (kiter_after 800 800 dt) tank_56] |}.
Proof.
  intros Hdt.
  destruct (kiter_after_fields dt) as (Ht & Ha & Hx & Hy & Hc).
  rewrite (Warrior_update_step 800 800 dt 0 duel_56 kiter_mid 1 tank_56);
    try reflexivity; [| apply duel_56_kiter_target].
  rewrite (attemptAttack_ranged 0 1 _ (kiter_after 800 800 dt) tank_56);
    try reflexivity; [| exact Ht].
  unfold distanceTo, w_config. rewrite Hx, Hy, Hc, Ht. cbn.
  rewrite hypot_along by lra. rewrite Rmax_left by lra.
  unfold Rgtb. rewrite Rltb_false by lra. rewrite Rleb_true by lra.
  reflexivity.
Qed.

(** With time going backwards the cooldown grows and nothing is fired. *)
Lemma duel_56_kiter_turn_back (dt : R) :
  dt < 0 ->
  Warrior_update 800 800 dt 0 duel_56 =
    {| warriors := [kiter_after 800 800 dt; tank_56]; projectiles := [] |}.
Proof.
  intros Hdt.
  destruct (kiter_after_fields dt) as (Ht & Ha & Hx & Hy & Hc).
  rewrite (Warrior_update_step 800 800 dt 0 duel_56 kiter_mid 1 tank_56);
    try reflexivity; [| apply duel_56_kiter_target].
  rewrite (attemptAttack_ranged 0 1 _ (kiter_after 800 800 dt) tank_56);
    try reflexivity; [| exact Ht].
  rewrite Hc. rewrite Rmax_right by lra.
  unfold Rgtb. rewrite Rltb_true by lra. reflexivity.
Qed.

(** The square walks along the line to the triangle, by [91 * dt]. *)
Lemma tank_after_steer (dt : R) (k : Warrior) (wd : World) :
  - (1 / 20) <= dt <= 1 / 20 ->
  w_type k = triangle -> w_x k = 400 -> w_y k = 400 ->
  steer 800 800 dt 1 (decay_timers dt tank_56) k wd = tank_after dt.
Proof.
  intros [Hdt Hdt'] Ht Hx Hy.
  rewrite decay_timers_idle by (cbn; lra).
  rewrite steer_charge; [| discriminate | discriminate |].
  - cbn [w_x w_y set_cooldown set_heading tank_56 new_Warrior].
    rewrite Hx, Hy.
    rewrite hypot_along_neg by lra. rewrite num_or_nonzero by lra.
    replace (- (400 - 456)) with 56 by lra.
    apply clampInsideArena_noop. unfold inside_arena. cbn.
    rewrite CENTER_x_800, CENTER_y_800, ARENA_RADIUS_800.
    rewrite hypot_along by lra. lra.
  - cbn [w_x w_y set_cooldown set_heading tank_56 new_Warrior].
    rewrite Hx, Hy.
    rewrite hypot_along_neg by lra. rewrite num_or_nonzero by lra.
    unfold w_config. cbn [w_type set_cooldown tank_56 new_Warrior].
    rewrite Ht. cbn. lra.
Qed.

(** It stays too far to strike. *)
Lemma duel_56_tank_turn (dt : R) (k : Warrior) (ps : list Projectile) :
  - (1 / 20) <= dt <= 1 / 20 ->
  w_type k = triangle -> w_alive k = true -> w_x k = 400 -> w_y k = 400 ->
  Warrior_update 800 800 dt 1 {| warriors := [k; tank_56]; projectiles := ps |}
    = {| warriors := [k; tank_after dt]; projectiles := ps |}.
Proof.
  intros Hdt2 Ht Ha Hx Hy. pose proof Hdt2 as [Hdt Hdt'].
  rewrite (Warrior_update_step 800 800 dt 1 _ tank_56 0 k); try reflexivity.
  - unfold mutate. cbn [warriors projectiles alter list_alter].
    rewrite tank_after_steer by assumption.
    rewrite (attemptAttack_melee 1 0 _ (tank_after dt) k);
      try reflexivity; [| discriminate].
    unfold distanceTo, w_config. cbn. rewrite Hx, Hy, Ht, Ha. cbn.
    rewrite hypot_along_neg by lra.
    rewrite Rleb_false; [now rewrite andb_false_r |].
    rewrite Rmax_right by lra. lra.
  - apply findTarget_only; try reflexivity.
    + discriminate.
    + exact Ha.
    + rewrite Ht. rewrite decay_timers_idle by (cbn; lra). discriminate.
    + intros [| [| m]] e Hm He; try discriminate; [lia | now left].
Qed.

(** The shot fired in this frame, flown for [dt] in this frame. *)
Lemma shot_after_fields (dt : R) :
  p_life (shot_after 800 800 dt) = 0 + dt /\
  p_x (shot_after 800 800 dt) = 400 + 260 * dt /\
  p_y (shot_after 800 800 dt) = 400 /\
  p_alive (shot_after 800 800 dt) = true /\
  p_ownerType (shot_after 800 800 dt) = triangle /\
  p_radius (shot_after 800 800 dt) = 4.
Proof.
  destruct (kiter_after_fields dt) as (Ht & Ha & Hx & Hy & Hc).
  unfold shot_after, moved, new_Projectile. cbn. rewrite Hx, Hy, Ht.
  rewrite hypot_along by lra. rewrite num_or_nonzero by lra.
  repeat split; lra.
Qed.

Lemma duel_56_shot (dt : R) :
  0 <= dt <= 1 / 20 ->
  Projectile_update 800 800 dt
    (new_Projectile (kiter_after 800 800 dt) tank_56)
    [set_cooldown (8 / 10) (kiter_after 800 800 dt); tank_after dt]
  = (shot_after 800 800 dt,
     [set_cooldown (8 / 10) (kiter_after 800 800 dt); tank_after dt]).
Proof.
  intros [Hdt Hdt'].
  destruct (kiter_after_fields dt) as (Ht & Ha & Hx & Hy & Hc).
  destruct (shot_after_fields dt) as (Sl & Sx & Sy & Sa & So & Sr).
  rewrite Projectile_update_young by (cbn; lra). cbn zeta.
  fold (shot_after 800 800 dt). rewrite Sx, Sy.
  rewrite CENTER_x_800, CENTER_y_800, ARENA_RADIUS_800.
  rewrite hypot_along by lra.
  unfold Rgeb. rewrite Rleb_false by lra.
  rewrite collide_none; [reflexivity |].
  repeat constructor; unfold hittable.
  - rewrite So. cbn [w_type set_cooldown]. rewrite Ht.
    rewrite bool_decide_eq_true_2 by reflexivity.
    now rewrite andb_false_r.
  - rewrite Sx, Sy, Sr. cbn.
    rewrite hypot_along by lra. rewrite Rleb_false by lra.
    now rewrite andb_false_r.
Qed.

(** The whole frame, for any step up to 50 ms: the triangle stays where
    it is and fires, the square walks in, and the shot fired in this
    frame has already flown for [dt]. *)
Lemma duel_56_frame (dt : R) :
  0 <= dt <= 1 / 20 ->
  prune (simulate 800 800 dt duel_56) =
    {| warriors := [set_cooldown (8 / 10) (kiter_after 800 800 dt);
                    tank_after dt];
       projectiles := [shot_after 800 800 dt] |}.
Proof.
  intros Hdt2. pose proof Hdt2 as [Hdt Hdt'].
  destruct (kiter_after_fields dt) as (Ht & Ha & Hx & Hy & Hc).
  unfold simulate, warriors_loop. cbn [duel_56 warriors length seq fold_left].
  fold duel_56. rewrite duel_56_kiter_turn by exact Hdt.
  rewrite duel_56_tank_turn by (assumption || lra).
  cbn [warriors projectiles projectiles_forEach].
  rewrite duel_56_shot by exact Hdt2.
  unfold prune. cbn [warriors projectiles].
  f_equal.
  rewrite filter_cons_True by exact Ha.
  rewrite filter_cons_True by reflexivity. reflexivity.
Qed.

(** The same frame with time going backwards by up to 50 ms: nothing is
    fired, and the square walks away from the triangle. *)
Lemma duel_56_frame_back (dt : R) :
  - (1 / 20) <= dt < 0 ->
  prune (simulate 800 800 dt duel_56) =
    {| warriors := [kiter_after 800 800 dt; tank_after dt];
       projectiles := [] |}.
Proof.
  intros [Hdt Hdt'].
  destruct (kiter_after_fields dt) as (Ht & Ha & Hx & Hy & Hc).
  unfold simulate, warriors_loop. cbn [duel_56 warriors length seq fold_left].
  fold duel_56. rewrite duel_56_kiter_turn_back by exact Hdt'.
  rewrite duel_56_tank_turn by (assumption || lra).
  cbn [warriors projectiles projectiles_forEach].
  unfold prune. cbn [warriors projectiles].
  f_equal.
  rewrite filter_cons_True by exact Ha.
  rewrite filter_cons_True by reflexivity. reflexivity.
Qed.

(** ** The square past its limit

    In exact arithmetic the clamp scales its offset (18, 344) by
    [344 / sqrt 118660], a little under 0.9987. *)
Lemma square_past_limit_clamped :
  exists s, 9986 / 10000 < s < 9987 / 10000 /\
    w_x (clampInsideArena 800 800 square_past_limit) = 400 + 18 * s /\
    w_y (clampInsideArena 800 800 square_past_limit) = 400 + 344 * s.
Proof.
  pose proof (hypot_sq 18 344) as Hsq.
  pose proof (hypot_nonneg 18 344) as Hpos.
  set (D := hypot 18 344) in *.
  assert (HD : 34447 / 100 < D < 34448 / 100) by (split; nra).
  exists (344 / D).
  assert (Hs : 344 / D * D = 344) by (field; lra).
  split; [split; nra |].
  unfold clampInsideArena, square_past_limit, w_config.
  cbn [w_x w_y w_type new_Warrior TYPE_CONFIG size].
  rewrite CENTER_x_800, CENTER_y_800, ARENA_RADIUS_800.
  replace (418 - 400) with 18 by lra. replace (744 - 400) with 344 by lra.
  replace (360 - 16) with 344 by lra. fold D.
  unfold Rgtb. rewrite Rltb_true by lra. cbn. split; reflexivity.
Qed.

(** ** The duel at 56 in seeding order

    The square walks first: after [ts] milliseconds it is at
    [456 - 91 * dt].  The triangle then finds it closer than the threat
    radius of 56 and moves: straight at it as long as the square has
    come less than 1 closer, sideways when it has come closer than
    that. *)
Lemma seeded_step_places (ts : R) (e1 k1 e3 k3 : Warrior) :
  0 < ts <= 65 ->
  seeded_step 800 800 ts battle_seeded tank_56 kiter_mid e1 k1 e3 k3 ->
  let dt := ts / 1000 in
  warriors (st_world (update 800 800 ts battle_seeded)) = [e3; k3] /\
  w_x e3 = 456 - 91 * dt /\ w_y e3 = 400 /\
  (91 * dt < 1 -> w_x k3 = 400 + 90 * dt /\ w_y k3 = 400) /\
  (1 <= 91 * dt -> w_x k3 = 400 /\ w_y k3 = 400 + 90 * dt).
Proof.
  intros Hts Hstep dt. unfold seeded_step in Hstep. cbn zeta in Hstep.
  cbn [lastTimestamp battle_seeded] in Hstep.
  rewrite num_or_nonzero in Hstep by lra.
  replace ((ts - 0) / 1000) with dt in Hstep by (unfold dt; lra).
  assert (Hdt : 0 < dt <= 65 / 1000) by (unfold dt; lra).
  clearbody dt.
  destruct Hstep
    as (H1 & Hk1p & Hnohit & Hmove & Hroster & He3p & Halive & Hcases).
  unfold w_config in *.
  cbn [w_x w_y w_type w_hp tank_56 kiter_mid new_Warrior TYPE_CONFIG size
       range speed maxhp] in *.
  assert (E56 : num_or (hypot (400 - 456) (400 - 400)) 1 = 56).
  { rewrite hypot_along_neg by lra. rewrite num_or_nonzero by lra. lra. }
  rewrite E56 in Hmove.
  destruct Hmove as [Hx1 Hy1]; [discriminate | lra |].
  rewrite clampInsideArena_noop in Hx1, Hy1.
  2, 3: unfold inside_arena, w_config; cbn;
        rewrite CENTER_x_800, CENTER_y_800, ARENA_RADIUS_800;
        rewrite hypot_along by lra; lra.
  cbn [w_x w_y set_pos] in Hx1, Hy1.
  assert (Ex1 : w_x e1 = 456 - 91 * dt) by lra.
  assert (Ey1 : w_y e1 = 400) by lra.
  clear Hx1 Hy1.
  assert (Hk1 : k1 = kiter_mid).
  { apply Hnohit. unfold distanceTo. cbn [w_x w_y kiter_mid new_Warrior].
    rewrite Ex1, Ey1. rewrite hypot_along_neg by lra.
    unfold Rmax. destruct (Rle_dec 22 (16 + 14)); lra. }
  subst k1.
  destruct (Halive eq_refl) as [Ha3 Hak3]; [lra |].
  rewrite Ex1, Ey1 in Hcases.
  assert (Ed : num_or (hypot (456 - 91 * dt - 400) (400 - 400)) 1
               = 56 - 91 * dt).
  { rewrite hypot_along by lra. rewrite num_or_nonzero by lra. lra. }
  rewrite Ed in Hcases.
  destruct (Hcases eq_refl) as (_ & Hgo & Hside). clear Hcases.
  destruct He3p as [He3x He3y].
  split.
  { rewrite Hroster. rewrite filter_cons_True by exact Ha3.
    now rewrite filter_cons_True by exact Hak3. }
  split; [lra |]. split; [lra |].
  assert (E1 : (456 - 91 * dt - 400) / (56 - 91 * dt) = 1) by (field; lra).
  assert (E0 : (400 - 400) / (56 - 91 * dt) = 0) by (unfold Rdiv; ring).
  rewrite E1, E0 in Hgo, Hside.
  split.
  - intros Hsmall. destruct Hgo as [Hx Hy]; [left; lra |].
    rewrite clampInsideArena_noop in Hx, Hy.
    2, 3: unfold inside_arena, w_config; cbn;
          rewrite CENTER_x_800, CENTER_y_800, ARENA_RADIUS_800;
          rewrite hypot_along by lra; lra.
    cbn in Hx, Hy. lra.
  - intros Hbig. destruct Hside as [Hx Hy]; [lra |].
    rewrite clampInsideArena_noop in Hx, Hy.
    2, 3: unfold inside_arena, w_config; cbn;
          rewrite CENTER_x_800, CENTER_y_800, ARENA_RADIUS_800;
          rewrite (hypot_val _ _ (90 * dt)); [lra | lra | ring].
    cbn in Hx, Hy. lra.
Qed.

(** With no time passed the square stays at 456 and the triangle, at
    56 from it, stays as well. *)
Lemma seeded_step_places_0 (e1 k1 e3 k3 : Warrior) :
  seeded_step 800 800 0 battle_seeded tank_56 kiter_mid e1 k1 e3 k3 ->
  warriors (st_world (update 800 800 0 battle_seeded)) = [e3; k3] /\
  w_x e3 = 456 /\ w_y e3 = 400 /\ w_x k3 = 400 /\ w_y k3 = 400.
Proof.
  intros Hstep. unfold seeded_step in Hstep. cbn zeta in Hstep.
  cbn [lastTimestamp battle_seeded] in Hstep.
  rewrite (delta_zero 0) in Hstep.
  destruct Hstep
    as (H1 & Hk1p & Hnohit & Hmove & Hroster & He3p & Halive & Hcases).
  unfold w_config in *.
  cbn [w_x w_y w_type w_hp tank_56 kiter_mid new_Warrior TYPE_CONFIG size
       range speed maxhp] in *.
  assert (E56 : num_or (hypot (400 - 456) (400 - 400)) 1 = 56).
  { rewrite hypot_along_neg by lra. rewrite num_or_nonzero by lra. lra. }
  rewrite E56 in Hmove.
  destruct Hmove as [Hx1 Hy1]; [discriminate | lra |].
  rewrite clampInsideArena_noop in Hx1, Hy1.
  2, 3: unfold inside_arena, w_config; cbn;
        rewrite CENTER_x_800, CENTER_y_800, ARENA_RADIUS_800;
        rewrite hypot_along by lra; lra.
  cbn [w_x w_y set_pos] in Hx1, Hy1.
  assert (Ex1 : w_x e1 = 456) by lra.
  assert (Ey1 : w_y e1 = 400) by lra.
  clear Hx1 Hy1.
  assert (Hk1 : k1 = kiter_mid).
  { apply Hnohit. unfold distanceTo. cbn [w_x w_y kiter_mid new_Warrior].
    rewrite Ex1, Ey1. rewrite hypot_along_neg by lra.
    unfold Rmax. destruct (Rle_dec 22 (16 + 14)); lra. }
  subst k1.
  destruct (Halive eq_refl) as [Ha3 Hak3]; [lra |].
  rewrite Ex1, Ey1 in Hcases.
  assert (Ed : num_or (hypot (456 - 400) (400 - 400)) 1 = 56).
  { rewrite hypot_along by lra. rewrite num_or_nonzero by lra. lra. }
  rewrite Ed in Hcases.
  destruct (Hcases eq_refl) as (Hhold & _). clear Hcases.
  destruct He3p as [He3x He3y].
  destruct Hhold as [Hx Hy]; [lra |].
  cbn [w_x w_y kiter_mid new_Warrior] in Hx, Hy.
  split.
  { rewrite Hroster. rewrite filter_cons_True by exact Ha3.
    now rewrite filter_cons_True by exact Hak3. }
  repeat split; lra.
Qed.

(** ** The claims that fail, at a position each *)

Lemma battle_56_frame (ts : R) :
  0 <= ts <= 50 ->
  st_world (update 800 800 ts battle_56) =
    {| warriors :=
         [set_cooldown (8 / 10) (kiter_after 800 800 ((ts - 0) / 1000));
          tank_after ((ts - 0) / 1000)];
       projectiles := [shot_after 800 800 ((ts - 0) / 1000)] |}.
Proof.
  intros Hts. rewrite update_running_world by reflexivity.
  cbn [battle_56 lastTimestamp st_world].
  assert (E : num_or ((ts - 0) / 1000) 0 = (ts - 0) / 1000).
  { unfold num_or. destruct (Reqb _ 0) eqn:E; [| reflexivity].
    unfold Reqb in E. destruct (Req_dec_T _ 0) as [-> | ]; [reflexivity |].
    discriminate. }
  rewrite E. apply duel_56_frame. lra.
Qed.

Lemma battle_56_frame_back (ts : R) :
  - 50 <= ts < 0 ->
  st_world (update 800 800 ts battle_56) =
    {| warriors := [kiter_after 800 800 ((ts - 0) / 1000);
                    tank_after ((ts - 0) / 1000)];
       projectiles := [] |}.
Proof.
  intros Hts. rewrite update_running_world by reflexivity.
  cbn [battle_56 lastTimestamp st_world].
  rewrite num_or_nonzero by lra. apply duel_56_frame_back. lra.
Qed.

(** C3 fails at the duel at 56.  With a frame of zero length
    (timestamp = lastTimestamp = 0): no projectile was in flight
    before, one is after.  With a frame of -16 ms: the square, that was
    at 456, is at 457.456. *)
Lemma zero_dt_frame_still_fires :
  (projectiles (st_world battle_56) = [] /\
   projectiles (st_world (update 800 800 (lastTimestamp battle_56) battle_56))
     = [shot_after 800 800 ((0 - 0) / 1000)] /\
   projectiles (st_world (update 800 800 (lastTimestamp battle_56) battle_56))
     <> projectiles (st_world battle_56)) /\
  (exists k t,
     st_world (update 800 800 (- 16) battle_56)
       = {| warriors := [k; t]; projectiles := [] |} /\
     w_x tank_56 = 456 /\ w_x t = 457456 / 1000 /\ w_x t <> w_x tank_56).
Proof.
  split.
  - split; [reflexivity |].
    cbn [battle_56 lastTimestamp]. fold battle_56.
    rewrite battle_56_frame by lra. split; [reflexivity | discriminate].
  - eexists _, _. split; [apply battle_56_frame_back; lra |].
    cbn. repeat split; lra.
Qed.

(** C4 fails at the duel at 56 with a 16 ms frame: the projectile the
    triangle fires in this frame ends the frame 16 ms old and 4.16
    further than the triangle, that has not moved from 400. *)
Lemma shot_of_this_frame_has_flown :
  projectiles (st_world battle_56) = [] /\
  exists k t p,
    st_world (update 800 800 16 battle_56)
      = {| warriors := [k; t]; projectiles := [p] |} /\
    w_x k = 400 /\
    p_life p = 16 / 1000 /\ p_x p = 400 + 416 / 100 /\
    p_life p <> 0 /\ p_x p <> w_x k.
Proof.
  split; [reflexivity |].
  eexists _, _, _. split; [apply battle_56_frame; lra |].
  destruct (kiter_after_fields ((16 - 0) / 1000)) as (_ & _ & Hx & _).
  destruct (shot_after_fields ((16 - 0) / 1000)) as (Sl & Sx & _).
  cbn [w_x set_cooldown]. rewrite Hx, Sl, Sx. repeat split; lra.
Qed.

(** C5 fails at a triangle with half a second of cooldown left and a
    living square 50 away, within its range of 60: nothing is fired and
    nothing is reset. *)
Lemma kiter_on_cooldown_holds_fire :
  0 < w_cooldown kiter_cooling /\
  w_alive tank_50 = true /\
  distanceTo kiter_cooling tank_50 <= range (w_config kiter_cooling) /\
  attemptAttack 1 (Some 0%nat) duel_cooling = duel_cooling /\
  projectiles (attemptAttack 1 (Some 0%nat) duel_cooling) = [] /\
  (forall k, warriors (attemptAttack 1 (Some 0%nat) duel_cooling) !! 1%nat
               = Some k -> w_cooldown k = 5 / 10).
Proof.
  assert (E : attemptAttack 1 (Some 0%nat) duel_cooling = duel_cooling).
  { unfold attemptAttack. cbn.
    unfold Rgtb. rewrite Rltb_true by lra. reflexivity. }
  split; [cbn; lra |]. split; [reflexivity |]. split; [| split; [| split]].
  - unfold distanceTo. cbn. rewrite hypot_along by lra. lra.
  - exact E.
  - rewrite E. reflexivity.
  - rewrite E. intros k [= <-]. reflexivity.
Qed.



(** C9 fails at a circle with one hit point left that a square hits:
    [takeDamage] leaves it at -17. *)
Lemma fourth_hit_leaves_negative_hp :
  w_alive circle_on_1hp = true /\ w_hp circle_on_1hp = 1 /\
  w_hp (takeDamage (damage (TYPE_CONFIG square)) circle_on_1hp) = -17 /\
  w_hp (takeDamage (damage (TYPE_CONFIG square)) circle_on_1hp) < 0.
Proof.
  destruct (takeDamage_fields (damage (TYPE_CONFIG square)) circle_on_1hp)
    as (_ & _ & _ & -> & _).
  cbn. repeat split; lra.
Qed.

(** ** The theorems at a position each *)

Lemma duel_56_alive_iff_hp : Forall alive_iff_hp (warriors duel_56).
Proof.
  repeat constructor; cbn; intros; try reflexivity; lra.
Qed.

Lemma duel_56_timers_ok : Forall timers_ok (warriors duel_56).
Proof. repeat constructor; cbn; lra. Qed.

Lemma duel_56_target :
  findTarget 0 kiter_mid (warriors duel_56) = Some (1%nat, tank_56).
Proof.
  apply findTarget_only; try reflexivity; try discriminate.
  intros [| [| m]] e Hm He; try discriminate; [now left | lia].
Qed.

Lemma duel_56_only_enemy : only_enemy 0 1 kiter_mid (warriors duel_56).
Proof.
  intros [| [| m]] e Hm He; try discriminate; [now left | lia].
Qed.

(** C1 at the circle with one hit point, its corpse, and the duel at 56. *)
Lemma alive_tracks_hp_witness :
  alive_iff_hp (takeDamage 18 circle_on_1hp) /\
  alive_iff_hp (takeDamage 18 circle_fallen) /\
  Forall alive_iff_hp (warriors (st_world (update 800 800 16 battle_56))) /\
  Warrior_update 800 800 (16 / 1000) 0
    {| warriors := [circle_fallen; tank_56]; projectiles := [] |}
    = {| warriors := [circle_fallen; tank_56]; projectiles := [] |} /\
  (warriors duel_56 !! 1%nat = Some tank_56 /\ w_alive tank_56 = true) /\
  snd (Projectile_update 800 800 (16 / 1000) shot_leaving [circle_fallen])
    !! 0%nat = Some circle_fallen /\
  warriors (simulate 800 800 (16 / 1000)
              {| warriors := [circle_fallen; tank_56]; projectiles := [] |})
    !! 0%nat = Some circle_fallen.
Proof.
  destruct (alive_tracks_hp 800 800)
    as (_ & H1 & H2 & H3 & H4 & H5 & H6 & H7).
  split; [apply H1; reflexivity |].
  split.
  { apply H2; [| lra]. split; cbn; [discriminate | lra]. }
  split; [apply H3, duel_56_alive_iff_hp |].
  split; [apply (H4 _ _ _ circle_fallen); reflexivity |].
  split; [apply (H5 0%nat kiter_mid), duel_56_target |].
  split; [apply H6; reflexivity |].
  apply H7; reflexivity.
Defined.

(** C2 at a triangle and a triangle's projectile. *)
Lemma no_friendly_fire_witness :
  snd (Projectile_update 800 800 (16 / 1000) shot_leaving
         [kiter_mid; circle_at_rim]) !! 0%nat = Some kiter_mid.
Proof.
  apply no_friendly_fire; reflexivity.
Defined.

(** C3, what holds of it, at the duel at 56. *)
Lemma zero_dt_moves_nothing_witness :
  st_world (update 800 800 0 battle_56) = prune (simulate 800 800 0 duel_56)
  /\
  Forall2 (stays_if_inside 800 800) (warriors duel_56)
    (warriors (simulate 800 800 0 duel_56)) /\
  Forall2
    (fun p p' => p_x p' = p_x p /\ p_y p' = p_y p /\ p_life p' = p_life p)
    (projectiles (warriors_loop 800 800 0 duel_56))
    (projectiles (simulate 800 800 0 duel_56)).
Proof.
  apply (zero_dt_moves_nothing 800 800 0 battle_56); reflexivity.
Defined.

(** C5, as the code has it, in rosters in seeding order: a triangle
    on cooldown, one whose target is dead, one whose target is 350
    away, and one that is ready and in range and fires. *)
Lemma ranged_attack_waits_for_cooldown_witness :
  attemptAttack 1 (Some 0%nat) duel_cooling = duel_cooling /\
  attemptAttack 1 (Some 0%nat)
    {| warriors := [circle_fallen; kiter_mid]; projectiles := [] |}
    = {| warriors := [circle_fallen; kiter_mid]; projectiles := [] |} /\
  attemptAttack 1 (Some 0%nat)
    {| warriors := [circle_at_rim; kiter_mid]; projectiles := [] |}
    = {| warriors := [circle_at_rim; kiter_mid]; projectiles := [] |} /\
  (exists p,
     projectiles (attemptAttack 1 (Some 0%nat) duel_seeded) = [p] /\
     p_alive p = true /\ p_life p = 0 /\ p_x p = 400 /\ p_y p = 400 /\
     p_ownerType p = triangle /\ p_damage p = 7 /\
     p_vx p = 260 /\ p_vy p = 0) /\
  warriors (attemptAttack 1 (Some 0%nat) duel_seeded)
    = [tank_56; set_cooldown (8 / 10) kiter_mid].
Proof.
  split; [| split; [| split]].
  - destruct (ranged_attack_waits_for_cooldown 1 0 duel_cooling
                kiter_cooling tank_50 eq_refl eq_refl eq_refl) as (H & _).
    apply H. cbn. lra.
  - destruct (ranged_attack_waits_for_cooldown 1 0
                {| warriors := [circle_fallen; kiter_mid];
                   projectiles := [] |}
                kiter_mid circle_fallen eq_refl eq_refl eq_refl)
      as (_ & H & _).
    apply H. reflexivity.
  - destruct (ranged_attack_waits_for_cooldown 1 0
                {| warriors := [circle_at_rim; kiter_mid];
                   projectiles := [] |}
                kiter_mid circle_at_rim eq_refl eq_refl eq_refl)
      as (_ & _ & H & _).
    apply H. unfold distanceTo. cbn. rewrite hypot_along by lra. lra.
  - destruct (ranged_attack_waits_for_cooldown 1 0 duel_seeded
                kiter_mid tank_56 eq_refl eq_refl eq_refl)
      as (_ & _ & _ & H).
    destruct H as [(p & Hp & Ha & Hl & Hx & Hy & Ho & Hd & Hvx & Hvy) Hw].
    + reflexivity.
    + cbn. lra.
    + unfold distanceTo. cbn. rewrite hypot_along by lra. lra.
    + split; [| exact Hw].
      exists p. cbn [w_x w_y kiter_mid tank_56 new_Warrior] in *.
      assert (E : num_or (hypot (456 - 400) (400 - 400)) 1 = 56).
      { rewrite hypot_along by lra. rewrite num_or_nonzero by lra. lra. }
      rewrite E in Hvx, Hvy.
      repeat split; try assumption; [rewrite Hvx | rewrite Hvy]; lra.
Defined.


Lemma duel_seeded_within_circle :
  Forall (within_circle 800 800) (warriors duel_seeded).
Proof.
  repeat constructor; unfold within_circle; cbn;
    rewrite CENTER_x_800, CENTER_y_800, ARENA_RADIUS_800;
    rewrite hypot_along by lra; lra.
Qed.


(** A triangle alone only lets its timers run down. *)
Lemma battle_alone_frame (ts : R) :
  st_world (update 800 800 ts battle_alone) =
    {| warriors := [set_cooldown
                      (Rmax 0 (0 - num_or ((ts - 0) / 1000) 0)) kiter_mid];
       projectiles := [] |}.
Proof.
  rewrite update_running_world by reflexivity.
  cbn [battle_alone lastTimestamp st_world].
  unfold simulate, warriors_loop, Warrior_update. cbn.
  rewrite decay_timers_idle by (cbn; lra). reflexivity.
Qed.

(** C8 at the battle of a single triangle: its first frame ends it, the
    frames at 32 and 48 ms change nothing. *)
Lemma terminal_frames_are_noops_witness :
  fold_left (fun s t => update 800 800 t s) [32; 48]
    (update 800 800 16 battle_alone) = update 800 800 16 battle_alone /\
  updateStats
    (warriors (st_world
       (fold_left (fun s t => update 800 800 t s) [32; 48]
          (update 800 800 16 battle_alone))))
    = updateStats (warriors (st_world (update 800 800 16 battle_alone))) /\
  winnerType
    (fold_left (fun s t => update 800 800 t s) [32; 48]
       (update 800 800 16 battle_alone))
    = winnerType (update 800 800 16 battle_alone).
Proof.
  apply (terminal_frames_are_noops 800 800 16 battle_alone [32; 48]).
  unfold terminal. rewrite battle_alone_frame.
  unfold livingTypes, updateStats. cbn [warriors].
  rewrite !filter_cons, !filter_nil.
  cbn [w_alive w_type set_cooldown kiter_mid new_Warrior].
  repeat (case_decide; cbn [length] in * );
    repeat match goal with
           | H : _ /\ _ |- _ => destruct H
           end;
    try discriminate; lia.
Defined.

(** C9, as the code has it, at the fourth hit and at the duel at 56. *)
Lemma hp_unclamped_timers_clamped_witness :
  w_hp (takeDamage 18 circle_on_1hp) = w_hp circle_on_1hp - 18 /\
  Forall (fun w => 0 < w_hp w)
    (warriors (st_world (update 800 800 16 battle_56))) /\
  Forall timers_ok (warriors (st_world (update 800 800 16 battle_56))).
Proof.
  destruct (hp_unclamped_timers_clamped 800 800) as (H1 & H2 & H3).
  split; [apply H1 |]. split.
  - apply H2; [reflexivity | apply duel_56_alive_iff_hp].
  - apply H3, duel_56_timers_ok.
Defined.

(** ** The further properties at a position each *)

Lemma findTarget_skirmish_tie :
  findTarget 3 kiter_mid skirmish_tie = Some (1%nat, circle_east).
Proof.
  unfold findTarget, skirmish_tie. cbn [ifold].
  unfold findTarget_step at 4.
  cbn [Nat.eqb w_alive circle_far new_Warrior negb orb w_type kiter_mid].
  rewrite bool_decide_eq_false_2 by discriminate.
  unfold findTarget_step at 3.
  cbn [Nat.eqb w_alive circle_east new_Warrior negb orb w_type kiter_mid].
  rewrite bool_decide_eq_false_2 by discriminate.
  assert (Hfar : distanceTo kiter_mid circle_far = 60).
  { unfold distanceTo. cbn. rewrite hypot_along by lra. lra. }
  assert (Heast : distanceTo kiter_mid circle_east = 30).
  { unfold distanceTo. cbn. rewrite hypot_along by lra. lra. }
  assert (Hwest : distanceTo kiter_mid circle_west = 30).
  { unfold distanceTo. cbn. rewrite hypot_along_neg by lra. lra. }
  cbn zeta. rewrite Hfar, Heast. rewrite Rltb_true by lra.
  unfold findTarget_step at 2.
  cbn [Nat.eqb w_alive circle_west new_Warrior negb orb w_type kiter_mid].
  rewrite bool_decide_eq_false_2 by discriminate.
  cbn zeta. rewrite Hwest. rewrite Rltb_false by lra.
  unfold findTarget_step.
  cbn [Nat.eqb orb]. reflexivity.
Qed.

(** X1 at the triangle among three circles: the one far to the east
    comes first in the roster and is passed over, and of the two at 30
    the one listed first is taken. *)
Lemma findTarget_nearest_witness :
  findTarget 3 kiter_mid skirmish_tie = Some (1%nat, circle_east) /\
  distanceTo kiter_mid circle_east <= distanceTo kiter_mid circle_far /\
  (distanceTo kiter_mid circle_east <= distanceTo kiter_mid circle_west /\
   (distanceTo kiter_mid circle_west = distanceTo kiter_mid circle_east ->
    (1 <= 2)%nat)).
Proof.
  split; [exact findTarget_skirmish_tie |].
  split.
  - apply (proj1 (findTarget_nearest 3 kiter_mid skirmish_tie 1 circle_east
                    findTarget_skirmish_tie 0 circle_far eq_refl
                    ltac:(intros [H | [H | H]]; discriminate))).
  - apply (findTarget_nearest 3 kiter_mid skirmish_tie 1 circle_east
             findTarget_skirmish_tie 2 circle_west eq_refl).
    intros [H | [H | H]]; discriminate.
Defined.

(** X2 at the triangle alone. *)
Lemma findTarget_none_iff_witness : findTarget 0 kiter_mid [kiter_mid] = None.
Proof.
  apply (proj2 (findTarget_none_iff 0 kiter_mid [kiter_mid])).
  intros [| k] e He; [now left | discriminate].
Defined.


(** X6 at the duel at 56 with a 16 ms frame. *)
Lemma outcome_sound_witness :
  (running (update 800 800 16 battle_56) = false
   <-> terminal (update 800 800 16 battle_56)) /\
  lastTimestamp (update 800 800 16 battle_56) = 16.
Proof.
  destruct (outcome_sound 800 800 16 battle_56 eq_refl) as (H1 & _ & _ & H4).
  split; [exact H1 | exact H4].
Defined.

(** X8 at the duel at 56: the triangle has fired at the square. *)
Lemma no_double_attack_witness :
  attemptAttack 0 (Some 1%nat) (attemptAttack 0 (Some 1%nat) duel_56)
    = attemptAttack 0 (Some 1%nat) duel_56.
Proof.
  apply no_double_attack.
  rewrite (attemptAttack_ranged 0 1 duel_56 kiter_mid tank_56)
    by reflexivity.
  cbn [w_alive tank_56 kiter_mid new_Warrior w_cooldown andb].
  unfold Rgtb. rewrite Rltb_false by lra. cbn [negb andb].
  unfold distanceTo. cbn [w_x w_y tank_56 kiter_mid new_Warrior].
  rewrite hypot_along by lra.
  rewrite Rleb_true by (cbn; lra).
  intros H. apply (f_equal projectiles) in H. discriminate.
Defined.

(** X9 at the turn of the triangle in the duel at 56. *)
Lemma one_attack_per_turn_witness :
  exists j, j <> 0%nat /\
    forall k w w',
      warriors duel_56 !! k = Some w ->
      warriors (Warrior_update 800 800 (16 / 1000) 0 duel_56) !! k = Some w' ->
      w_hp w' = w_hp w \/
      (k = j /\ w_type kiter_mid <> triangle /\ w_alive w = true /\
       w_hp w' = w_hp w - damage (w_config kiter_mid)).
Proof.
  destruct (one_attack_per_turn 800 800 (16 / 1000) 0 duel_56 kiter_mid
              eq_refl) as [_ H].
  exact H.
Defined.

(** X11 at the shot near the rim, 16 ms on, with nobody around: it is
    still alive, 4.16 further east and inside the circle. *)
Lemma projectile_flies_straight_witness :
  p_alive (fst (Projectile_update 800 800 (16 / 1000) shot_leaving []))
    = true /\
  p_x (fst (Projectile_update 800 800 (16 / 1000) shot_leaving []))
    = 7359 / 10 + 260 * (16 / 1000) /\
  p_y (fst (Projectile_update 800 800 (16 / 1000) shot_leaving [])) = 400 /\
  projectile_inside 800 800
    (fst (Projectile_update 800 800 (16 / 1000) shot_leaving [])).
Proof.
  assert (Ha : p_alive (fst (Projectile_update 800 800 (16 / 1000)
                               shot_leaving [])) = true).
  { rewrite Projectile_update_young by (cbn; lra). cbn zeta.
    cbn [moved set_p_pos set_p_life p_x p_y shot_leaving p_vx p_vy].
    rewrite CENTER_x_800, CENTER_y_800, ARENA_RADIUS_800.
    rewrite hypot_along by lra. unfold Rgeb. rewrite Rleb_false by lra.
    reflexivity. }
  split; [exact Ha |].
  destruct (projectile_flies_straight 800 800 (16 / 1000) shot_leaving [])
    as (_ & _ & H & _).
  destruct (H Ha) as (_ & _ & Hx & Hy & Hin & _).
  split; [exact Hx |]. split; [| exact Hin].
  rewrite Hy. cbn. lra.
Defined.

(** X13 at the circle at the rim with the triangle's shot in flight. *)
Lemma hp_never_rises_witness :
  Forall2 hp_le [circle_at_rim]
    (warriors (simulate 800 800 (16 / 1000)
                 {| warriors := [circle_at_rim];
                    projectiles := [shot_leaving] |})).
Proof.
  apply (hp_never_rises 800 800 (16 / 1000)
           {| warriors := [circle_at_rim]; projectiles := [shot_leaving] |}).
  repeat constructor.
Defined.

(** X14 at the duel at 56 with a 16 ms frame. *)
Lemma health_bar_in_range_witness :
  Forall (fun w => w_hp w <= maxhp (w_config w) /\ 0 <= hpRatio w <= 1)
    (warriors (st_world (update 800 800 16 battle_56))).
Proof.
  apply health_bar_in_range.
  - constructor.
  - repeat constructor; cbn; lra.
Defined.

(** X16 at the circle with one hit point left, hit twice by a square. *)
Lemma takeDamage_accumulates_witness :
  takeDamage 18 (takeDamage 18 circle_on_1hp)
    = takeDamage (18 + 18) circle_on_1hp.
Proof.
  destruct (takeDamage_accumulates 18 18 circle_on_1hp) as [H _].
  apply H. lra.
Defined.

(** X18 at the first warrior placed: with nobody there the first point
    is kept. *)
Lemma place_spec_witness :
  place 800 800 (fun _ => 1 / 2) [] 99 0
    = (attempt 800 800 (fun _ => 1 / 2) 0, 2%nat).
Proof.
  destruct (place_spec 800 800 (fun _ => 1 / 2) [] 99 0)
    as (k & Hk & Hp & Hbad & Hgood).
  destruct k as [| k]; [exact Hp |].
  exfalso. apply (Hbad 0%nat); [lia | constructor].
Defined.

(** X19 at one warrior of each type, every draw being one half. *)
Lemma seedWarriors_roster_witness :
  w_type <$> warriors (fst (seedWarriors 800 800 (fun _ => 1%nat)
                              (fun _ => 1 / 2) 0))
    = [circle; square; triangle] /\
  Forall (inside_arena 800 800)
    (warriors (fst (seedWarriors 800 800 (fun _ => 1%nat)
                      (fun _ => 1 / 2) 0))).
Proof.
  destruct (seedWarriors_roster 800 800 (fun _ => 1%nat) (fun _ => 1 / 2) 0)
    as (H1 & _ & _ & _ & H5).
  split; [exact H1 |].
  apply H5; [intros m; lra | rewrite ARENA_RADIUS_800; lra].
Defined.

(** X20 at the same seeding, two frames on. *)
Lemma battle_stays_sound_witness :
  sound_state 800 800
    (frames 800 800 [16; 32]
       (startBattle 800 800 (fun _ => 1%nat) (fun _ => 1 / 2) 0 0
          battle_alone)).
Proof.
  apply battle_stays_sound; [intros m; lra | rewrite ARENA_RADIUS_800; lra].
Defined.

(** X21 at the triangle alone. *)
Lemma one_sided_battle_witness :
  running (update 800 800 16 battle_alone) = false /\
  winnerType (update 800 800 16 battle_alone) = Some triangle.
Proof.
  destruct (one_sided_battle 800 800 16 battle_alone triangle)
    as (H1 & H2 & _); try reflexivity.
  - repeat constructor.
  - split; [exact H1 | exact H2].
Defined.

(** X22 at one sparkle spawned with every draw one half: it starts at
    life 0 with a life span of 0.3 and a size of 16, and a tenth of a
    second later it is still there, aged 0.1. *)
Lemma sparkles_fade_witness :
  (exists fx,
     spawnHitEffect 400 400 (1 / 2) (1 / 2) (1 / 2) [] = [fx] /\
     fx_life fx = 0 /\ 25 / 100 <= fx_maxLife fx <= 35 / 100 /\
     12 <= fx_size fx <= 20) /\
  Forall (fun fx' => sparkle_ok fx' /\ 0 < fx_alpha fx' <= 1)
    (updateHitEffects (1 / 10)
       (spawnHitEffect 400 400 (1 / 2) (1 / 2) (1 / 2) [])) /\
  (exists fx',
     fx' ∈ updateHitEffects (1 / 10)
             (spawnHitEffect 400 400 (1 / 2) (1 / 2) (1 / 2) []) /\
     fx_life fx' = 0 + 1 / 10).
Proof.
  assert (Hok : Forall sparkle_ok
                  (spawnHitEffect 400 400 (1 / 2) (1 / 2) (1 / 2) [])).
  { repeat constructor; cbn; lra. }
  destruct (sparkles_fade (1 / 10)
              (spawnHitEffect 400 400 (1 / 2) (1 / 2) (1 / 2) [])
              ltac:(lra) Hok) as (Hkept & Hstay & _ & _ & _).
  destruct (sparkles_fade (1 / 10) [] ltac:(lra) (Forall_nil_2 _))
    as (_ & _ & _ & _ & Hspawn).
  split; [| split].
  - destruct (Hspawn 400 400 (1 / 2) (1 / 2) (1 / 2))
      as (fx & Hfx & _ & _ & Hl & Hm & Hs & _); [lra | lra |].
    exists fx. split; [exact Hfx |]. split; [exact Hl |].
    split; [exact Hm | exact Hs].
  - eapply Forall_impl; [exact Hkept |].
    intros fx' (_ & H1 & H2). split; assumption.
  - apply (Hstay (mkHitEffect 400 400 0 (25 / 100 + 1 / 2 * (1 / 10))
                    (12 + 1 / 2 * 8) (1 / 2 * PI))).
    + left.
    + cbn. lra.
Defined.
